(** * Booking availability and payment reconciliation of acq-be

    A shallow embedding of the booking service (booking.service.ts), the
    payment route of the booking controller (booking.controller.ts), the
    payment service (payment.service.ts), the payment status service
    (payment-status.service.ts) and the webhook handler of the payment
    controller (payment.controller.ts), with the properties of the
    specification checked against it and further properties of the code.

    Conventions of the embedding:
    - a Prisma table is a finite map from its unique key to its rows;
    - a [Date] is its [getTime()] value, an integer number of milliseconds;
    - a JavaScript number that holds money or hours is an IEEE 754
      binary64 value, and [*], [/] and [Math.round] on such numbers are the
      operations of the Standard Library's [SpecFloat] at precision 53: the
      rounding of every operation is the rounding of the code;
    - an [async] method is a function from the state to a result and a new
      state; a thrown exception keeps the writes made before it, as the
      code opens no transaction;
    - what the environment decides (the clock, the identifier Prisma
      generates, the answer of the gateway, a database call that fails) is
      an argument of the operation. *)

From Stdlib Require Import ZArith QArith Qround Lqa SpecFloat.
From stdpp Require Import base tactics option list gmap strings pretty
  sorting.

Local Open Scope string_scope.
Local Open Scope list_scope.
Local Open Scope Z_scope.

#[export] Instance Z_ge_decision : RelDecision Z.ge := Z_ge_dec.
#[export] Instance Z_gt_decision : RelDecision Z.gt := Z_gt_dec.

(** ** Data model (the Prisma enums and rows the code reads) *)

Module BookingStatus.
Inductive t := PENDING | CONFIRMED | CANCELLED | COMPLETED.
#[global] Instance eq_dec : EqDecision t.
Proof. solve_decision. Defined.
End BookingStatus.

Module PaymentStatus.
Inductive t := PENDING | SUCCEEDED | FAILED | CANCELLED.
#[global] Instance eq_dec : EqDecision t.
Proof. solve_decision. Defined.
End PaymentStatus.

Module ParkingStatus.
Inductive t := PENDING | APPROVED | REJECTED | INACTIVE.
#[global] Instance eq_dec : EqDecision t.
Proof. solve_decision. Defined.
End ParkingStatus.

(** ** JavaScript numbers

    A [number] is a double: a signed zero, an infinity, NaN, or
    [(-1)^s * m * 2^e]. The operators are those of IEEE 754 binary64,
    results rounded to nearest, ties to even. *)
Definition number := spec_float.

(** [x * y] and [x / y] *)
Definition Number_mul : number → number → number := SFmul 53 1024.
Definition Number_div : number → number → number := SFdiv 53 1024.

(** The number nearest to the integer [n]; [negzero] is the sign of the
    zero it gives for [n = 0]. *)
Definition Number_of_integer (negzero : bool) (n : Z) : number :=
  binary_normalize 53 1024 n 0 negzero.

(** An integer literal, the difference of two timestamps. *)
Definition Number_of_Z (n : Z) : number := Number_of_integer false n.

Definition Number_sign (x : number) : bool :=
  match x with
  | S754_zero s | S754_infinity s | S754_finite s _ _ => s
  | S754_nan => false
  end.

(** The real number a finite [number] stands for. *)
Definition Number_value (x : number) : option Q :=
  match x with
  | S754_zero _ => Some 0%Q
  | S754_finite s m e => Some (inject_Z (cond_Zopp s (Zpos m)) * Qpower 2 e)%Q
  | S754_infinity _ | S754_nan => None
  end.

(** [Math.round(x)]: the integer nearest to [x], a tie going up; the sign
    of [x] is kept when the result is zero, and an infinity or NaN is
    returned as it is. *)
Definition Math_round (x : number) : number :=
  match Number_value x with
  | Some q => Number_of_integer (Number_sign x) (Qfloor (q + (1 # 2)))
  | None => x
  end.

Record ParkingSpot := {
  ps_ownerId : string;
  ps_status : ParkingStatus.t;
  pricePerHour : number   (* [price_per_hour DOUBLE PRECISION] *)
}.

(** The columns of [bookings] that some decision of the code reads; the
    free-text columns (notes, vehicle, tower, unit) are copied from the
    request and never read again. The [id] of a booking is its key in the
    table, and the [referenceNumber] of a payment is its key: a row that a
    query returns comes with its key. *)
Record Booking := {
  startTime : Z;
  endTime : Z;
  totalPrice : number;   (* [total_price DOUBLE PRECISION] *)
  b_status : BookingStatus.t;
  parkingSpotId : string;
  userId : string
}.

(** The columns of [payments] that the code reads. The columns [currency],
    [description], [checkoutUrl], [paymentMethod] and [metadata] are
    written from the answer of the gateway ([paymentMethod] again by every
    status refresh of [PaymentService.getPaymentStatus]) and read by no
    method embedded here: they are left out. *)
Record Payment := {
  externalId : string;
  amount : Z;
  p_status : PaymentStatus.t;
  bookingId : string
}.

Record CreateBookingDto := {
  dto_parkingSpotId : string;
  dto_startTime : Z;
  dto_endTime : Z
}.

(** A call of the Gmail service, the notification collaborator. *)
Inductive Mail :=
  | PmoEmail (ownerId bookingId guestId : string)
  | SystemEmail (guestId bookingId : string).

Inductive LogEntry :=
  | LogInfo (msg : string)
  | LogWarn (msg : string)
  | LogError (msg : string).

Record State := {
  parkingSpots : gmap string ParkingSpot;
  bookings : gmap string Booking;
  payments : gmap string Payment;
  webhookEvents : gset string;
  users : gset string;
  clientEmailAccounts : gset string;
  outbox : list Mail;
  logs : list LogEntry;
  sleeps : list Z   (* the delays waited with [delay(ms)], in milliseconds *)
}.

Definition set_bookings (f : gmap string Booking → gmap string Booking)
    (st : State) : State :=
  {| parkingSpots := parkingSpots st; bookings := f (bookings st);
     payments := payments st; webhookEvents := webhookEvents st;
     users := users st; clientEmailAccounts := clientEmailAccounts st;
     outbox := outbox st; logs := logs st; sleeps := sleeps st |}.

Definition set_payments (f : gmap string Payment → gmap string Payment)
    (st : State) : State :=
  {| parkingSpots := parkingSpots st; bookings := bookings st;
     payments := f (payments st); webhookEvents := webhookEvents st;
     users := users st; clientEmailAccounts := clientEmailAccounts st;
     outbox := outbox st; logs := logs st; sleeps := sleeps st |}.

Definition set_webhookEvents (f : gset string → gset string)
    (st : State) : State :=
  {| parkingSpots := parkingSpots st; bookings := bookings st;
     payments := payments st; webhookEvents := f (webhookEvents st);
     users := users st; clientEmailAccounts := clientEmailAccounts st;
     outbox := outbox st; logs := logs st; sleeps := sleeps st |}.

Definition set_outbox (f : list Mail → list Mail) (st : State) : State :=
  {| parkingSpots := parkingSpots st; bookings := bookings st;
     payments := payments st; webhookEvents := webhookEvents st;
     users := users st; clientEmailAccounts := clientEmailAccounts st;
     outbox := f (outbox st); logs := logs st; sleeps := sleeps st |}.

Definition set_logs (f : list LogEntry → list LogEntry) (st : State) : State :=
  {| parkingSpots := parkingSpots st; bookings := bookings st;
     payments := payments st; webhookEvents := webhookEvents st;
     users := users st; clientEmailAccounts := clientEmailAccounts st;
     outbox := outbox st; logs := f (logs st); sleeps := sleeps st |}.

Definition set_sleeps (f : list Z → list Z) (st : State) : State :=
  {| parkingSpots := parkingSpots st; bookings := bookings st;
     payments := payments st; webhookEvents := webhookEvents st;
     users := users st; clientEmailAccounts := clientEmailAccounts st;
     outbox := outbox st; logs := logs st; sleeps := f (sleeps st) |}.

Definition with_b_status (s : BookingStatus.t) (b : Booking) : Booking :=
  {| startTime := startTime b; endTime := endTime b;
     totalPrice := totalPrice b; b_status := s;
     parkingSpotId := parkingSpotId b; userId := userId b |}.

Definition with_p_status (s : PaymentStatus.t) (p : Payment) : Payment :=
  {| externalId := externalId p; amount := amount p; p_status := s;
     bookingId := bookingId p |}.

(** Everything but the log and the time waited: what an operation with no
    effect leaves as it is. *)
Definition data (st : State) :=
  (parkingSpots st, bookings st, payments st, webhookEvents st, users st,
   clientEmailAccounts st, outbox st).

(** ** Exceptions and the state-and-exception monad *)

Inductive Exception :=
  | NotFoundException (msg : string)
  | BadRequestException (msg : string)
  | Error (msg : string)
  | PrismaError (code : string).

Inductive Result (A : Type) :=
  | Ok (a : A)
  | Throw (e : Exception).
Arguments Ok {A} a.
Arguments Throw {A} e.

Definition M (A : Type) : Type := State → Result A * State.

Definition M_ret {A} (a : A) : M A := λ st, (Ok a, st).

Definition M_bind {A B} (m : M A) (k : A → M B) : M B :=
  λ st, match m st with
        | (Ok a, st') => k a st'
        | (Throw e, st') => (Throw e, st')
        end.

#[export] Instance M_mret : MRet M := @M_ret.
#[export] Instance M_mbind : MBind M := λ A B k m, M_bind m k.

Definition throw {A} (e : Exception) : M A := λ st, (Throw e, st).

(** [try { body } catch (error) { handler }] *)
Definition try_catch {A} (body : M A) (handler : Exception → M A) : M A :=
  λ st, match body st with
        | (Ok a, st') => (Ok a, st')
        | (Throw e, st') => handler e st'
        end.

Definition gets {A} (f : State → A) : M A := λ st, (Ok (f st), st).
Definition modify (f : State → State) : M unit := λ st, (Ok tt, f st).

Definition logger_log (msg : string) : M unit :=
  modify (set_logs (λ l, l ++ [LogInfo msg])).
Definition logger_warn (msg : string) : M unit :=
  modify (set_logs (λ l, l ++ [LogWarn msg])).
Definition logger_error (msg : string) : M unit :=
  modify (set_logs (λ l, l ++ [LogError msg])).

(** ** Prisma calls *)

(** [findFirst({ where })]: some row that satisfies the filter, with its
    key, if there is one. *)
Definition findFirst {A} (P : A → Prop) `{∀ a, Decision (P a)}
    (m : gmap string A) : option (string * A) :=
  head (map_to_list (filter (λ kv, P kv.2) m)).

(** Prisma's record-not-found and unique-constraint errors. *)
Definition P2025 : Exception := PrismaError "P2025".
Definition P2002 : Exception := PrismaError "P2002".
(** The error of a database call that fails for a reason outside the
    program (connection lost, timeout). *)
Definition P1001 : Exception := PrismaError "P1001".
(** What reading a property of [null] or [undefined] throws. *)
Definition TypeError : Exception := Error "TypeError".

Definition prisma_parkingSpot_findUnique (id : string) : M (option ParkingSpot) :=
  gets (λ st, parkingSpots st !! id).

Definition prisma_booking_findUnique (id : string) : M (option Booking) :=
  gets (λ st, bookings st !! id).

Definition prisma_booking_findFirst (P : Booking → Prop) `{∀ b, Decision (P b)}
    : M (option (string * Booking)) :=
  gets (λ st, findFirst P (bookings st)).

(** [booking.create({ data })], [id] being the identifier Prisma generates. *)
Definition prisma_booking_create (id : string) (b : Booking)
    : M (string * Booking) :=
  λ st, match bookings st !! id with
        | Some _ => (Throw P2002, st)
        | None => (Ok (id, b), set_bookings <[id := b]> st)
        end.

(** [booking.update({ where: { id }, data: { status } })] *)
Definition prisma_booking_update (id : string) (s : BookingStatus.t)
    : M (string * Booking) :=
  λ st, match bookings st !! id with
        | None => (Throw P2025, st)
        | Some b => (Ok (id, with_b_status s b),
                     set_bookings <[id := with_b_status s b]> st)
        end.

Definition prisma_payment_findUnique (referenceNumber : string)
    : M (option Payment) :=
  gets (λ st, payments st !! referenceNumber).

(** [payment.findUnique({ where: { bookingId } })] *)
Definition prisma_payment_findUnique_bookingId (id : string)
    : M (option (string * Payment)) :=
  gets (λ st, findFirst (λ p, bookingId p = id) (payments st)).

(** [payment.findFirst({ where: { externalId } })] *)
Definition prisma_payment_findFirst_externalId (eid : string)
    : M (option (string * Payment)) :=
  gets (λ st, findFirst (λ p, externalId p = eid) (payments st)).

(** [payment.update({ where, data: { status } })], the row being the one
    of key [referenceNumber]. *)
Definition prisma_payment_update (referenceNumber : string)
    (s : PaymentStatus.t) : M (string * Payment) :=
  λ st, match payments st !! referenceNumber with
        | None => (Throw P2025, st)
        | Some p => (Ok (referenceNumber, with_p_status s p),
                     set_payments <[referenceNumber := with_p_status s p]> st)
        end.

(** ** Asynchronous methods

    An [async] method runs until its next [await] of a database call, lets
    the call happen, and goes on with its answer; between two awaits
    nothing else runs. [run] is the method executed alone. *)

Inductive Async (A : Type) : Type :=
  | Return (r : Result A)
  | Await {X : Type} (op : M X) (k : X → Async A).
Arguments Return {A} r.
Arguments Await {A X} op k.

Notation "'await!' x ← op ; k" := (Await op (λ x, k))
  (at level 10, x binder, op at level 100, k at level 200,
   format "'[v' 'await!'  x  ←  op ; '/' k ']'").

Fixpoint run {A} (p : Async A) : M A :=
  match p with
  | Return r => λ st, (r, st)
  | Await op k => λ st,
      match op st with
      | (Ok x, st') => run (k x) st'
      | (Throw e, st') => (Throw e, st')
      end
  end.

(** One turn of the event loop given to a method: its pending database call
    happens and the method runs up to its next [await]. *)
Definition resume {A} (p : Async A) (st : State) : Async A * State :=
  match p with
  | Return r => (Return r, st)
  | Await op k =>
      match op st with
      | (Ok x, st') => (k x, st')
      | (Throw e, st') => (Return (Throw e), st')
      end
  end.

(** ** BookingService (booking.service.ts) *)

Definition status_in (l : list BookingStatus.t) (b : Booking) : Prop :=
  b_status b ∈ l.

(** The [where] clause of the overlap query of [create]. *)
Definition overlap_where (spotId : string) (startTime' endTime' : Z)
    (b : Booking) : Prop :=
  parkingSpotId b = spotId ∧
  status_in [BookingStatus.PENDING; BookingStatus.CONFIRMED] b ∧
  ¬ status_in [BookingStatus.CANCELLED; BookingStatus.COMPLETED] b ∧
  ((startTime b ≤ startTime' ∧ endTime b > startTime') ∨
   (startTime b < endTime' ∧ endTime b >= endTime') ∨
   (startTime b >= startTime' ∧ endTime b ≤ endTime')).

#[export] Instance overlap_where_dec spotId s e b :
  Decision (overlap_where spotId s e b).
Proof. unfold overlap_where, status_in. apply _. Defined.

Definition create_async (createBookingDto : CreateBookingDto) (userId' : string)
    (now : Z) (newId : string) : Async (string * Booking) :=
  await! parkingSpot ← prisma_parkingSpot_findUnique
                          (dto_parkingSpotId createBookingDto);
  match parkingSpot with
  | None => Return (Throw (NotFoundException "Parking spot not found"))
  | Some parkingSpot =>
    if decide (ps_status parkingSpot ≠ ParkingStatus.APPROVED) then
      Return (Throw (BadRequestException
                       "Parking spot is not available for booking"))
    else if decide (ps_ownerId parkingSpot = userId') then
      Return (Throw (BadRequestException
                       "You cannot book your own parking spot"))
    else
      let startTime' := dto_startTime createBookingDto in
      let endTime' := dto_endTime createBookingDto in
      if decide (startTime' >= endTime') then
        Return (Throw (BadRequestException "End time must be after start time"))
      else if decide (startTime' < now) then
        Return (Throw (BadRequestException "Start time must be in the future"))
      else
        await! overlappingBooking ←
          prisma_booking_findFirst
            (overlap_where (dto_parkingSpotId createBookingDto)
                           startTime' endTime');
        match overlappingBooking with
        | Some _ =>
            Return (Throw (BadRequestException
                             "This time slot is already booked"))
        | None =>
            let hours :=
              Number_div (Number_of_Z (endTime' - startTime'))
                         (Number_of_Z (1000 * 60 * 60)) in
            let totalPrice' :=
              Number_div
                (Math_round
                   (Number_mul (Number_mul hours (pricePerHour parkingSpot))
                               (Number_of_Z 100)))
                (Number_of_Z 100) in
            await! booking ←
              prisma_booking_create newId
                {| startTime := startTime'; endTime := endTime';
                   totalPrice := totalPrice';
                   b_status := BookingStatus.PENDING;
                   parkingSpotId := dto_parkingSpotId createBookingDto;
                   userId := userId' |};
            Return (Ok booking)
        end
  end.

Definition create (createBookingDto : CreateBookingDto) (userId' : string)
    (now : Z) (newId : string) : M (string * Booking) :=
  run (create_async createBookingDto userId' now newId).

(** The booking [create] writes. *)
Definition new_booking (dto : CreateBookingDto) (userId' : string)
    (spot : ParkingSpot) : Booking :=
  {| startTime := dto_startTime dto; endTime := dto_endTime dto;
     totalPrice :=
       Number_div
         (Math_round
            (Number_mul
               (Number_mul
                  (Number_div (Number_of_Z (dto_endTime dto - dto_startTime dto))
                              (Number_of_Z (1000 * 60 * 60)))
                  (pricePerHour spot))
               (Number_of_Z 100)))
         (Number_of_Z 100);
     b_status := BookingStatus.PENDING;
     parkingSpotId := dto_parkingSpotId dto;
     userId := userId' |}.

(** A booking as [findOne] returns it: with its parking spot and its
    payment ([include: { parkingSpot, payment }]). *)
Record BookingWithIncludes := {
  inc_id : string;
  inc_booking : Booking;
  inc_parkingSpot : option ParkingSpot;
  inc_payment : option (string * Payment)
}.

Definition findOne (id userId' : string) : M BookingWithIncludes :=
  booking ← prisma_booking_findUnique id;
  match booking with
  | None => throw (NotFoundException "Booking not found")
  | Some booking =>
      parkingSpot ← prisma_parkingSpot_findUnique (parkingSpotId booking);
      payment ← prisma_payment_findUnique_bookingId id;
      let found := {| inc_id := id; inc_booking := booking;
                      inc_parkingSpot := parkingSpot;
                      inc_payment := payment |} in
      if decide (userId booking ≠ userId') then
        match parkingSpot with
        | None => throw TypeError
        | Some parkingSpot =>
            if decide (ps_ownerId parkingSpot ≠ userId') then
              throw (NotFoundException "Booking not found")
            else mret found
        end
      else mret found
  end.

Definition cancel (id userId' : string) : M (string * Booking) :=
  booking ← findOne id userId';
  if decide (userId (inc_booking booking) ≠ userId') then
    throw (BadRequestException "You can only cancel your own bookings")
  else if decide (b_status (inc_booking booking) = BookingStatus.CANCELLED) then
    throw (BadRequestException "Booking is already cancelled")
  else if decide (b_status (inc_booking booking) = BookingStatus.COMPLETED) then
    throw (BadRequestException "Cannot cancel a completed booking")
  else
    (match inc_payment booking with
     | Some _ =>
         payment ← prisma_payment_findUnique_bookingId id;
         match payment with
         | Some (ref, payment) =>
             if decide (p_status payment = PaymentStatus.PENDING) then
               _ ← prisma_payment_update ref PaymentStatus.CANCELLED; mret tt
             else mret tt
         | None => mret tt
         end
     | None => mret tt
     end);;
    prisma_booking_update id BookingStatus.CANCELLED.

(** [devCancel]; [production] is [process.env.NODE_ENV === 'production']. *)
Definition devCancel (production : bool) (id userId' : string)
    : M (string * Booking) :=
  if production then
    throw (BadRequestException
             "Dev cancel is only available in development mode")
  else
    booking ← findOne id userId';
    if decide (userId (inc_booking booking) ≠ userId') then
      throw (BadRequestException "You can only cancel your own bookings")
    else if decide (b_status (inc_booking booking) = BookingStatus.CANCELLED) then
      throw (BadRequestException "Booking is already cancelled")
    else
      (match inc_payment booking with
       | Some (ref, _) =>
           _ ← prisma_payment_update ref PaymentStatus.CANCELLED; mret tt
       | None => mret tt
       end);;
      prisma_booking_update id BookingStatus.CANCELLED.


(** ** Rows with their relations ([include]) *)

Record SpotTree := {
  tree_spot : ParkingSpot;
  tree_owner : option string   (* [parkingSpot.owner], when it is loaded *)
}.

Record BookingTree := {
  tree_id : string;
  tree_booking : Booking;
  tree_user : option string;   (* [booking.user] *)
  tree_parkingSpot : option SpotTree
}.

Record PaymentTree := {
  tree_referenceNumber : string;
  tree_payment : Payment;
  tree_of_booking : option BookingTree   (* [payment.booking] *)
}.

(** [include: { booking: { include: { user: true, parkingSpot: ... } } }];
    [withOwner] says whether the query asks for [parkingSpot.owner]. *)
Definition include_booking (withOwner : bool) (st : State) (id : string)
    : option BookingTree :=
  b ← bookings st !! id;
  Some {| tree_id := id; tree_booking := b;
          tree_user := if decide (userId b ∈ users st)
                       then Some (userId b) else None;
          tree_parkingSpot :=
            ps ← parkingSpots st !! parkingSpotId b;
            Some {| tree_spot := ps;
                    tree_owner :=
                      if withOwner && bool_decide (ps_ownerId ps ∈ users st)
                      then Some (ps_ownerId ps) else None |} |}.

Definition prisma_payment_findUnique_include (withOwner : bool)
    (referenceNumber : string) : M (option PaymentTree) :=
  gets (λ st,
    p ← payments st !! referenceNumber;
    Some {| tree_referenceNumber := referenceNumber; tree_payment := p;
            tree_of_booking := include_booking withOwner st (bookingId p) |}).

(** ** Database calls that may fail

    The calls the webhook path makes once the event is recorded; [failing]
    names the one that fails in the run at hand, if any. *)

Inductive DbCall :=
  | payment_findFirst      (* [getPaymentByExternalId] *)
  | payment_update         (* [updatePaymentStatusFromAPI] *)
  | payment_findUnique     (* [updateBookingStatus] *)
  | booking_update.        (* [updateBookingStatus] *)

#[global] Instance DbCall_eq_dec : EqDecision DbCall.
Proof. solve_decision. Defined.

Definition db {A} (failing : option DbCall) (call : DbCall) (op : M A) : M A :=
  match failing with
  | Some c => if decide (c = call) then throw P1001 else op
  | None => op
  end.

(** ** Notification e-mails (shared by both payment services)

    Each is a [try { ... } catch { log }]: it never throws. *)

Definition gmailService_sendPmoEmail (ownerId bookingId guest : string) : M unit :=
  modify (set_outbox (λ o, o ++ [PmoEmail ownerId bookingId guest])).

Definition gmailService_sendSystemEmail (guest bookingId : string) : M unit :=
  modify (set_outbox (λ o, o ++ [SystemEmail guest bookingId])).

(** [sendGuestConfirmationEmail]: the body reads [user.firstName],
    [parkingSpot.tower] and [owner.firstName]; when one of the three rows is
    not loaded the template throws a [TypeError], which is caught. *)
Definition sendGuestConfirmationEmail (payment : PaymentTree) : M unit :=
  try_catch
    (match tree_of_booking payment with
     | None => throw TypeError
     | Some booking =>
         match tree_user booking, tree_parkingSpot booking with
         | Some user, Some parkingSpot =>
             match tree_owner parkingSpot with
             | Some owner =>
                 gmailService_sendSystemEmail user (tree_id booking);;
                 logger_log ("Guest confirmation email sent to " +:+ user)
             | None => throw TypeError
             end
         | _, _ => throw TypeError
         end
     end)
    (λ error, logger_error "Failed to send guest confirmation email").

(** [const owner = parkingSpot.owner], in [PaymentStatusService]. *)
Definition owner_loaded (parkingSpot : SpotTree) : M (option string) :=
  mret (tree_owner parkingSpot).

(** [prisma.user.findUnique({ where: { id: parkingSpot.ownerId } })], in
    [PaymentService]. *)
Definition owner_queried (parkingSpot : SpotTree) : M (option string) :=
  gets (λ st, if decide (ps_ownerId (tree_spot parkingSpot) ∈ users st)
              then Some (ps_ownerId (tree_spot parkingSpot)) else None).

(** [sendBookingConfirmationEmail]; [owner_of] is how the service gets the
    owner of the spot. *)
Definition sendBookingConfirmationEmail
    (owner_of : SpotTree → M (option string)) (payment : PaymentTree) : M unit :=
  try_catch
    (match tree_of_booking payment with
     | None => throw TypeError
     | Some booking =>
         match tree_parkingSpot booking with
         | None => throw TypeError
         | Some parkingSpot =>
             owner ← owner_of parkingSpot;
             match owner with
             | None =>
                 logger_log "Parking spot owner not found. Skipping PMO email."
             | Some owner =>
                 gmailAccount ← gets (λ st,
                   bool_decide (owner ∈ clientEmailAccounts st));
                 if gmailAccount : bool then
                   match tree_user booking with
                   | None => throw TypeError
                   | Some user =>
                       gmailService_sendPmoEmail owner (tree_id booking) user;;
                       logger_log ("PMO confirmation email sent for booking "
                                   +:+ tree_id booking +:+ " from owner "
                                   +:+ owner)
                   end
                 else
                   logger_log ("Owner " +:+ owner +:+
                     " does not have Gmail connected. Skipping PMO email.")
             end
         end
     end)
    (λ error, logger_error "Failed to send PMO email").

(** The [switch] of [updateBookingStatus]; [None] is its [default: return]. *)
Definition bookingStatus_of (paymentStatus : string) : option BookingStatus.t :=
  if decide (paymentStatus = "SUCCEEDED") then Some BookingStatus.CONFIRMED
  else if decide (paymentStatus = "FAILED") then Some BookingStatus.CANCELLED
  else if decide (paymentStatus = "CANCELLED") then Some BookingStatus.CANCELLED
  else None.

Definition BookingStatus_name (s : BookingStatus.t) : string :=
  match s with
  | BookingStatus.PENDING => "PENDING"
  | BookingStatus.CONFIRMED => "CONFIRMED"
  | BookingStatus.CANCELLED => "CANCELLED"
  | BookingStatus.COMPLETED => "COMPLETED"
  end.

(** ** PaymentStatusService (payment-status.service.ts) *)

Module PaymentStatusService.

Definition updateBookingStatus (failing : option DbCall)
    (referenceNumber paymentStatus : string) : M unit :=
  payment ← db failing payment_findUnique
               (prisma_payment_findUnique_include true referenceNumber);
  match payment with
  | None => logger_error ("Payment " +:+ referenceNumber +:+ " not found")
  | Some payment =>
      match bookingStatus_of paymentStatus with
      | None => mret tt
      | Some bookingStatus =>
          db failing booking_update
            (prisma_booking_update (bookingId (tree_payment payment))
                                   bookingStatus);;
          logger_log ("Updated booking " +:+ bookingId (tree_payment payment)
                      +:+ " status to " +:+ BookingStatus_name bookingStatus);;
          if decide (paymentStatus = "SUCCEEDED"
                     ∧ is_Some (tree_of_booking payment)) then
            sendBookingConfirmationEmail owner_loaded payment;;
            sendGuestConfirmationEmail payment
          else mret tt
      end
  end.

Inductive UpdateResult :=
  | success_true
  | success_false (error : Exception).

Definition updatePaymentStatusFromAPI (failing : option DbCall)
    (referenceNumber paymentStatus : string) : M UpdateResult :=
  try_catch
    (logger_log ("Updating payment " +:+ referenceNumber +:+ " to status: "
                 +:+ paymentStatus);;
     db failing payment_update
       (prisma_payment_update referenceNumber
          (if decide (paymentStatus = "SUCCEEDED") then PaymentStatus.SUCCEEDED
           else if decide (paymentStatus = "FAILED") then PaymentStatus.FAILED
           else if decide (paymentStatus = "CANCELLED")
                then PaymentStatus.CANCELLED
           else PaymentStatus.PENDING));;
     updateBookingStatus failing referenceNumber paymentStatus;;
     logger_log ("Updated payment " +:+ referenceNumber +:+ " to "
                 +:+ paymentStatus +:+ " and corresponding booking");;
     mret success_true)
    (λ error,
       logger_error ("Failed to update payment status for "
                     +:+ referenceNumber +:+ ":");;
       mret (success_false error)).

End PaymentStatusService.

(** ** PaymentService (payment.service.ts) *)

(** What the gateway answers to a request. *)
Inductive GatewayAnswer :=
  | NetworkError                      (* [fetch] throws *)
  | ErrorResponse (message : string)  (* [!response.ok] *)
  | PaymentResponse (fullOrderRef externalId' status : string) (amount' : Z).

Module PaymentService.

Definition mapPaymentStatus (status : string) : PaymentStatus.t :=
  if decide (status = "PENDING") then PaymentStatus.PENDING
  else if decide (status = "SUCCEEDED") then PaymentStatus.SUCCEEDED
  else if decide (status = "FAILED") then PaymentStatus.FAILED
  else if decide (status = "CANCELLED") then PaymentStatus.CANCELLED
  else PaymentStatus.PENDING.

(** [createPayment]: the charge is requested and the payment row written
    with the reference, the external id and the status of the answer.
    [prisma.payment.create] is refused with [P2002] when the reference or
    the booking has a payment row already: the code reads payments with
    [findUnique] on [referenceNumber] and on [bookingId], so both columns
    are unique keys of the table; the method itself makes no check. *)
Definition createPayment (answer : GatewayAnswer) (bookingId' : string)
    : M GatewayAnswer :=
  try_catch
    (match answer with
     | NetworkError => throw (Error "fetch failed")
     | ErrorResponse message => throw (Error message)
     | PaymentResponse fullOrderRef externalId' status amount' =>
         if decide (fullOrderRef = "") then
           throw (Error "Invalid payment response format from API")
         else
           unique ← gets (λ st,
             bool_decide (payments st !! fullOrderRef = None
               ∧ findFirst (λ p, bookingId p = bookingId') (payments st)
                 = None));
           if unique : bool then
             modify (set_payments
               <[fullOrderRef := {| externalId := externalId';
                                    amount := amount';
                                    p_status := mapPaymentStatus status;
                                    bookingId := bookingId' |}]>);;
             logger_log ("Payment created: " +:+ fullOrderRef
                         +:+ " for booking: " +:+ bookingId');;
             mret answer
           else throw P2002
     end)
    (λ error,
       logger_error ("Failed to create payment for booking "
                     +:+ bookingId' +:+ ":");;
       throw error).

Definition updateBookingStatus (referenceNumber paymentStatus : string)
    : M unit :=
  payment ← prisma_payment_findUnique_include false referenceNumber;
  match payment with
  | None => mret tt
  | Some payment =>
      match bookingStatus_of paymentStatus with
      | None => mret tt
      | Some bookingStatus =>
          prisma_booking_update (bookingId (tree_payment payment))
                                bookingStatus;;
          logger_log ("Updated booking " +:+ bookingId (tree_payment payment)
                      +:+ " status to " +:+ BookingStatus_name bookingStatus
                      +:+ " based on payment " +:+ paymentStatus);;
          if decide (paymentStatus = "SUCCEEDED"
                     ∧ is_Some (tree_of_booking payment)) then
            sendBookingConfirmationEmail owner_queried payment;;
            sendGuestConfirmationEmail payment
          else mret tt
      end
  end.

(** [getPaymentStatus]; it returns [paymentData], of which the callers
    read the status. *)
Definition getPaymentStatus (answer : GatewayAnswer)
    (referenceNumber : string) : M string :=
  try_catch
    (match answer with
     | NetworkError => throw (Error "fetch failed")
     | ErrorResponse message => throw (Error message)
     | PaymentResponse _ _ status _ =>
         prisma_payment_update referenceNumber (mapPaymentStatus status);;
         updateBookingStatus referenceNumber status;;
         mret status
     end)
    (λ error,
       logger_error ("Failed to get payment status for "
                     +:+ referenceNumber +:+ ":");;
       throw error).

Definition delay (ms : Z) : M unit :=
  modify (set_sleeps (λ l, l ++ [ms])).

(** One turn of the [for] loop of [pollPaymentStatus]: [Some status] is
    its [return status], [None] goes on with the next attempt. *)
Definition poll_attempt (answer : GatewayAnswer) (referenceNumber : string)
    (maxAttempts attempt : Z) : M (option string) :=
  try_catch
    (status ← getPaymentStatus answer referenceNumber;
     if decide (status = "SUCCEEDED" ∨ status = "FAILED"
                ∨ status = "CANCELLED") then
       logger_log ("Payment " +:+ referenceNumber +:+ " final status: "
                   +:+ status);;
       mret (Some status)
     else
       let delayMs := Z.min (2 ^ attempt * 1000) 30000 in
       logger_log ("Payment " +:+ referenceNumber
                   +:+ " still pending. Checking again in "
                   +:+ pretty (delayMs / 1000) +:+ "s...");;
       delay delayMs;;
       mret None)
    (λ error,
       logger_error ("Error checking payment status for "
                     +:+ referenceNumber +:+ ":");;
       (if decide (attempt < maxAttempts - 1) then delay 5000 else mret tt);;
       mret None).

Definition PollTimeout : Exception :=
  Error "Payment status check timeout after 10 minutes".

(** The loop, [todo] turns being left; [gateway i] is the answer to the
    fetch of attempt [i]. *)
Fixpoint poll_loop (gateway : Z → GatewayAnswer) (referenceNumber : string)
    (maxAttempts : Z) (todo : nat) (attempt : Z) : M string :=
  match todo with
  | O =>
      logger_warn ("Payment status check timeout for " +:+ referenceNumber
                   +:+ " after 10 minutes");;
      throw PollTimeout
  | S todo' =>
      r ← poll_attempt (gateway attempt) referenceNumber maxAttempts attempt;
      match r with
      | Some status => mret status
      | None => poll_loop gateway referenceNumber maxAttempts todo'
                          (attempt + 1)
      end
  end.

(** [pollPaymentStatus(referenceNumber, maxAttempts = 20)] *)
Definition pollPaymentStatus (gateway : Z → GatewayAnswer)
    (referenceNumber : string) (maxAttempts : option Z) : M string :=
  let maxAttempts := default 20 maxAttempts in
  poll_loop gateway referenceNumber maxAttempts (Z.to_nat maxAttempts) 0.

Definition getPaymentByExternalId (externalId' : string)
    : M (option (string * Payment)) :=
  prisma_payment_findFirst_externalId externalId'.

End PaymentService.

(** ** PaymentController.handleWebhook (payment.controller.ts) *)

Record EventData := {
  transactionId : option string;
  fullOrderRef : option string;
  data_externalId : option string;
  data_status : option string
}.

Record WebhookEvent := {
  event : option string;        (* [event.event] *)
  event_data : option EventData (* [event.data] *)
}.

(** A delivery: the event [JSON.parse] reads in the body ([None] when it
    throws), the [experia-signature] header, and what
    [verifyWebhookSignature] answers for the body, the header and the secret. *)
Record WebhookRequest := {
  body : option WebhookEvent;
  signature : option string;
  signature_valid : bool
}.

(** A JavaScript string used as a condition. *)
Definition truthy (s : option string) : bool :=
  match s with
  | Some s => bool_decide (s ≠ "")
  | None => false
  end.

(** [a || b] on strings that may be missing. *)
Definition js_or (a : option string) (b : string) : string :=
  match a with
  | Some s => if decide (s = "") then b else s
  | None => b
  end.

(** A value that may be [undefined], as the string comparisons and the
    templates see it. *)
Definition js_string (s : option string) : string := default "undefined" s.

Inductive WebhookAck := received_true.

Definition eventId_of (ev : WebhookEvent) : string :=
  js_or (event_data ev ≫= transactionId)
        (js_or (event_data ev ≫= fullOrderRef) "no-id").

Module PaymentController.

(** The first statement of the [try] block: the signature of the body is
    verified when a secret is configured and the header is neither missing
    nor ['test']. *)
Definition verify_signature (webhookSecret : option string)
    (req : WebhookRequest) : M unit :=
  if truthy webhookSecret && truthy (signature req)
     && bool_decide (signature req ≠ Some "test") then
    if signature_valid req then mret tt
    else
      logger_warn "Invalid webhook signature received";;
      throw (Error "Invalid webhook signature")
  else if negb (truthy webhookSecret) then
    logger_warn
      "Webhook secret not configured - skipping signature verification"
  else if bool_decide (signature req = Some "test") then
    logger_log "Using test webhook signature - skipping verification"
  else mret tt.

(** The idempotency block: [true] when the event was already processed
    (the handler then returns), else the event is marked as processed. *)
Definition mark_processed (eventId : string) : M bool :=
  if truthy (Some eventId) && bool_decide (eventId ≠ "no-id") then
    existingEvent ← gets (λ st, bool_decide (eventId ∈ webhookEvents st));
    if existingEvent : bool then
      logger_log ("Webhook event " +:+ eventId +:+ " already processed");;
      mret true
    else
      modify (set_webhookEvents (λ s, {[eventId]} ∪ s));;
      mret false
  else mret false.

(** What follows the idempotency block: the payment is looked up by its
    external id and takes the status of the event. *)
Definition apply_event (failing : option DbCall) (ev : WebhookEvent)
    : M WebhookAck :=
  let eventType := event ev in
  let paymentData := event_data ev in
  if negb (truthy (paymentData ≫= data_externalId)) then
    logger_log "Webhook received without externalId";;
    mret received_true
  else
    let externalId' := js_string (paymentData ≫= data_externalId) in
    payment ← db failing payment_findFirst
                 (PaymentService.getPaymentByExternalId externalId');
    match payment with
    | None =>
        logger_warn ("Payment not found for external ID: " +:+ externalId');;
        mret received_true
    | Some (referenceNumber, payment) =>
        newStatus ←
          (if decide (eventType = Some "payment.completed") then
             let newStatus := js_string (paymentData ≫= data_status) in
             logger_log ("Payment " +:+ newStatus +:+ ": "
                         +:+ js_string (paymentData ≫= fullOrderRef));;
             mret (Some newStatus)
           else if decide (eventType = Some "payment.failed") then
             logger_log ("Payment failed: "
                         +:+ js_string (paymentData ≫= fullOrderRef));;
             mret (Some "FAILED")
           else if decide (eventType = Some "payment.cancelled") then
             logger_log ("Payment cancelled: "
                         +:+ js_string (paymentData ≫= fullOrderRef));;
             mret (Some "CANCELLED")
           else
             logger_log ("Unhandled webhook event type: "
                         +:+ js_string eventType);;
             mret None);
        match newStatus with
        | None => mret received_true
        | Some newStatus =>
            PaymentStatusService.updatePaymentStatusFromAPI
              failing referenceNumber newStatus;;
            logger_log ("Webhook processed successfully: "
                        +:+ js_string eventType +:+ " for payment "
                        +:+ referenceNumber);;
            mret received_true
        end
    end.

(** The [try] block from the parsed event on. *)
Definition process_event (failing : option DbCall) (ev : WebhookEvent)
    : M WebhookAck :=
  logger_log "Webhook event structure:";;
  already ← mark_processed (eventId_of ev);
  if already : bool then mret received_true
  else apply_event failing ev.

(** [handleWebhook(body, signature)]; [webhookSecret] is
    [process.env.EXPERIA_PG_WEBHOOK_SECRET]. *)
Definition handleWebhook (failing : option DbCall)
    (webhookSecret : option string) (req : WebhookRequest) : M WebhookAck :=
  try_catch
    (verify_signature webhookSecret req;;
     match body req with
     | None => throw (Error "SyntaxError")
     | Some ev => process_event failing ev
     end)
    (λ error,
       logger_error "Webhook processing error:";;
       throw error).

End PaymentController.

(** ** Two requests served together

    [interleave schedule p q] gives the event loop's turns to [p] ([true])
    or to [q] ([false]), in the order of [schedule]. *)
Fixpoint interleave {A B} (schedule : list bool) (p : Async A) (q : Async B)
    (st : State) : Async A * Async B * State :=
  match schedule with
  | [] => (p, q, st)
  | true :: schedule' =>
      let '(p', st') := resume p st in interleave schedule' p' q st'
  | false :: schedule' =>
      let '(q', st') := resume q st in interleave schedule' p q' st'
  end.

(** ** The operations on the state, as one type *)

Inductive Op :=
  | Op_create (dto : CreateBookingDto) (userId' : string) (now : Z)
      (newId : string)
  | Op_cancel (id userId' : string)
  | Op_devCancel (production : bool) (id userId' : string)
  | Op_createPayment (answer : GatewayAnswer) (bookingId' : string)
  | Op_getPaymentStatus (answer : GatewayAnswer) (referenceNumber : string)
  | Op_pollPaymentStatus (gateway : Z → GatewayAnswer)
      (referenceNumber : string) (maxAttempts : option Z)
  | Op_handleWebhook (failing : option DbCall) (webhookSecret : option string)
      (req : WebhookRequest).

Definition exec (op : Op) (st : State) : State :=
  match op with
  | Op_create dto u now newId => (create dto u now newId st).2
  | Op_cancel id u => (cancel id u st).2
  | Op_devCancel production id u => (devCancel production id u st).2
  | Op_createPayment answer b => (PaymentService.createPayment answer b st).2
  | Op_getPaymentStatus answer r =>
      (PaymentService.getPaymentStatus answer r st).2
  | Op_pollPaymentStatus gateway r n =>
      (PaymentService.pollPaymentStatus gateway r n st).2
  | Op_handleWebhook failing secret req =>
      (PaymentController.handleWebhook failing secret req st).2
  end.

Definition exec_all (ops : list Op) (st : State) : State :=
  foldl (λ st op, exec op st) st ops.

(** ** Vocabulary of the specification *)

(** Two half-open intervals [[s1,e1)] and [[s2,e2)] conflict. *)
Definition intervals_conflict (s1 e1 s2 e2 : Z) : Prop := s1 < e2 ∧ s2 < e1.

Definition active (b : Booking) : Prop :=
  b_status b = BookingStatus.PENDING ∨ b_status b = BookingStatus.CONFIRMED.

Definition terminal (b : Booking) : Prop :=
  b_status b = BookingStatus.CANCELLED ∨ b_status b = BookingStatus.COMPLETED.

(** The conflict error of the booking service. *)
Definition ConflictError : Exception :=
  BadRequestException "This time slot is already booked".

(** The invariant [start < end] of the stored bookings. *)
Definition intervals_wf (st : State) : Prop :=
  ∀ id b, bookings st !! id = Some b → startTime b < endTime b.

(** No two active bookings of one resource overlap. *)
Definition no_double_booking (st : State) : Prop :=
  ∀ i j a b, bookings st !! i = Some a → bookings st !! j = Some b → i ≠ j →
    parkingSpotId a = parkingSpotId b → active a → active b →
    ¬ intervals_conflict (startTime a) (endTime a) (startTime b) (endTime b).

(** A request that passes the checks [create] makes before the overlap
    query. *)
Definition valid_request (st : State) (dto : CreateBookingDto)
    (userId' : string) (now : Z) : Prop :=
  ∃ spot, parkingSpots st !! dto_parkingSpotId dto = Some spot ∧
    ps_status spot = ParkingStatus.APPROVED ∧ ps_ownerId spot ≠ userId' ∧
    dto_startTime dto < dto_endTime dto ∧ now ≤ dto_startTime dto.

(** The e-mails that confirm the booking of a payment: the request to the
    building office in the name of the owner, when the owner has a Gmail
    account connected, and the invoice to the guest. [withOwner] is [true]
    for [PaymentStatusService], which loads the owner of the spot with the
    payment, and [false] for [PaymentService], which does not. *)
Definition owner_mails (st : State) (booking : BookingTree) : list Mail :=
  match tree_parkingSpot booking, tree_user booking with
  | Some parkingSpot, Some user =>
      let owner := ps_ownerId (tree_spot parkingSpot) in
      if decide (owner ∈ users st ∧ owner ∈ clientEmailAccounts st)
      then [PmoEmail owner (tree_id booking) user] else []
  | _, _ => []
  end.

Definition guest_mails (booking : BookingTree) : list Mail :=
  match tree_user booking, tree_parkingSpot booking with
  | Some user, Some parkingSpot =>
      match tree_owner parkingSpot with
      | Some _ => [SystemEmail user (tree_id booking)]
      | None => []
      end
  | _, _ => []
  end.

Definition confirmation_mails (withOwner : bool) (st : State)
    (referenceNumber : string) : list Mail :=
  match payments st !! referenceNumber with
  | None => []
  | Some p =>
      match include_booking withOwner st (bookingId p) with
      | None => []
      | Some booking => owner_mails st booking ++ guest_mails booking
      end
  end.

(** The state after the booking [b], of identifier [id], has followed the
    status reported for its payment: it takes the status the [switch] gives,
    and a reported SUCCEEDED sends the confirmation e-mails. *)
Definition reconciled_bookings (withOwner : bool) (st : State)
    (referenceNumber reported id : string) (b : Booking) : State :=
  match bookingStatus_of reported with
  | None => st
  | Some s =>
      set_outbox
        (λ o, o ++ if decide (reported = "SUCCEEDED")
                   then confirmation_mails withOwner st referenceNumber else [])
        (set_bookings <[id := with_b_status s b]> st)
  end.

(** The state after a reconciliation: the payment takes the mapped status,
    then the booking follows. *)
Definition reconciled (withOwner : bool) (st : State)
    (referenceNumber reported : string) (p : Payment) (b : Booking) : State :=
  reconciled_bookings withOwner
    (set_payments
       <[referenceNumber :=
           with_p_status (PaymentService.mapPaymentStatus reported) p]> st)
    referenceNumber reported (bookingId p) b.


(** A reported status outside the vocabulary of the gateway. *)
Definition unrecognized (status : string) : Prop :=
  status ∉ ["PENDING"; "SUCCEEDED"; "FAILED"; "CANCELLED"].

(** The gateway reports a terminal status. *)
Definition terminal_status (s : string) : Prop :=
  s = "SUCCEEDED" ∨ s = "FAILED" ∨ s = "CANCELLED".

Definition reports_terminal (answer : GatewayAnswer) : Prop :=
  match answer with
  | PaymentResponse _ _ s _ => terminal_status s
  | _ => False
  end.

(** The wait after attempt [i] (0-indexed) of a poll of [maxAttempts]
    attempts, in milliseconds: [min(2^i, 30)] seconds while the payment is
    still pending, 5 seconds after a failed fetch unless the attempt was
    the last. *)
Definition waits (answer : GatewayAnswer) (maxAttempts i : Z) : list Z :=
  match answer with
  | PaymentResponse _ _ _ _ => [1000 * Z.min (2 ^ i) 30]
  | _ => if decide (i < maxAttempts - 1) then [5000] else []
  end.

(** The status an event reports: the [switch] on the event type of the
    handler, [None] for a type it does not handle. *)
Definition reported_status (ev : WebhookEvent) : option string :=
  if decide (event ev = Some "payment.completed") then
    Some (js_string (event_data ev ≫= data_status))
  else if decide (event ev = Some "payment.failed") then Some "FAILED"
  else if decide (event ev = Some "payment.cancelled") then Some "CANCELLED"
  else None.

(** The payment row [ref], and no other, has the external id [xid]. *)
Definition payment_of_externalId (st : State) (xid ref : string)
    (p : Payment) : Prop :=
  payments st !! ref = Some p ∧ externalId p = xid ∧
  ∀ ref' p', payments st !! ref' = Some p' → externalId p' = xid → ref' = ref.

(** The payment row [ref], and no other, is the payment of booking [id]. *)
Definition payment_of_booking (st : State) (id ref : string) (p : Payment)
    : Prop :=
  payments st !! ref = Some p ∧ bookingId p = id ∧
  ∀ ref' p', payments st !! ref' = Some p' → bookingId p' = id → ref' = ref.

(** The errors with which [cancel] refuses a booking in a terminal state:
    the [InvalidStateTransition] of the specification. *)
Definition InvalidStateTransition (s : BookingStatus.t) : Exception :=
  match s with
  | BookingStatus.COMPLETED =>
      BadRequestException "Cannot cancel a completed booking"
  | _ => BadRequestException "Booking is already cancelled"
  end.

(** The signature check lets the delivery through. *)
Definition signature_accepted (webhookSecret : option string)
    (req : WebhookRequest) : Prop :=
  truthy webhookSecret && truthy (signature req)
    && bool_decide (signature req ≠ Some "test") = true →
  signature_valid req = true.

(** The delivery carries an event identifier: the handler finds one in the
    body, ['no-id'] standing for none. *)
Definition carries_eventId (req : WebhookRequest) (e : string) : Prop :=
  ∃ ev, body req = Some ev ∧ eventId_of ev = e ∧ e ≠ "no-id".

(** [st'] is [st] after some operations of the core: no row is deleted, the
    embedded columns of a row change by the status only, the processed
    events and the outbox only grow. *)
Record extends (st st' : State) : Prop := {
  ext_parkingSpots : parkingSpots st' = parkingSpots st;
  ext_users : users st' = users st;
  ext_clientEmailAccounts : clientEmailAccounts st' = clientEmailAccounts st;
  ext_webhookEvents : webhookEvents st ⊆ webhookEvents st';
  ext_bookings : ∀ id b, bookings st !! id = Some b →
    ∃ s, bookings st' !! id = Some (with_b_status s b);
  ext_payments : ∀ ref p, payments st !! ref = Some p →
    ∃ s, payments st' !! ref = Some (with_p_status s p);
  ext_outbox : outbox st `prefix_of` outbox st'
}.

(** An operation under which the state only extends. *)
Definition extending {A} (m : M A) : Prop := ∀ st, extends st (m st).2.

Fixpoint extending_async {A} (p : Async A) : Prop :=
  match p with
  | Return _ => True
  | Await op k => extending op ∧ ∀ x, extending_async (k x)
  end.

(** The price as the specification words it, over the real numbers:
    [ceil_to_cents(hours(end-start) * pricePerHour)]. *)
Definition hours (start end' : Z) : Q :=
  (inject_Z (end' - start) / inject_Z 3600000)%Q.
Definition ceil_to_cents (x : Q) : Q := (inject_Z (Qceiling (x * 100)) / 100)%Q.

(** The number of cents the code rounds: [hours * pricePerHour * 100],
    every operation in doubles. *)
Definition cents_of (start end' : Z) (rate : number) : number :=
  Number_mul
    (Number_mul (Number_div (Number_of_Z (end' - start))
                            (Number_of_Z (1000 * 60 * 60)))
                rate)
    (Number_of_Z 100).

(** ** Example inputs

    One approved spot at 100 an hour, a guest who books 09:00-10:00 and
    another who asks for 09:30-10:30, and the payment of the first. *)

Module Examples.
Definition hour : Z := 3600000.

Definition spot1 : ParkingSpot :=
  {| ps_ownerId := "owner"; ps_status := ParkingStatus.APPROVED;
     pricePerHour := Number_of_Z 100 |}.

Definition vacant : State :=
  {| parkingSpots := {[ "spot1" := spot1 ]}; bookings := ∅; payments := ∅;
     webhookEvents := ∅; users := {[ "owner"; "alice"; "bob" ]};
     clientEmailAccounts := {[ "owner" ]};
     outbox := []; logs := []; sleeps := [] |}.

Definition dtoA : CreateBookingDto :=
  {| dto_parkingSpotId := "spot1"; dto_startTime := 9 * hour;
     dto_endTime := 10 * hour |}.

Definition dtoB : CreateBookingDto :=
  {| dto_parkingSpotId := "spot1"; dto_startTime := 9 * hour + hour / 2;
     dto_endTime := 10 * hour + hour / 2 |}.

Definition bookingA : Booking := new_booking dtoA "alice" spot1.
Definition bookingB : Booking := new_booking dtoB "bob" spot1.

Definition booked : State := set_bookings <["b1" := bookingA]> vacant.

Definition paymentA (s : PaymentStatus.t) : Payment :=
  {| externalId := "cs_1"; amount := 10000; p_status := s;
     bookingId := "b1" |}.

(** A request for 09:00-09:20 on the same spot. *)
Definition dtoC : CreateBookingDto :=
  {| dto_parkingSpotId := "spot1"; dto_startTime := 9 * hour;
     dto_endTime := 9 * hour + hour / 3 |}.

(** A gateway that reports PENDING five times, then FAILED. *)
Definition gateway (i : Z) : GatewayAnswer :=
  PaymentResponse "REF1" "cs_1" (if decide (i < 5) then "PENDING" else "FAILED")
    10000.

(** The [payment.completed] event of that payment, sent with the test
    signature. *)
Definition completed (status : string) : WebhookRequest :=
  {| body := Some {| event := Some "payment.completed";
                     event_data := Some {| transactionId := Some "txn_1";
                                           fullOrderRef := Some "REF1";
                                           data_externalId := Some "cs_1";
                                           data_status := Some status |} |};
     signature := Some "test"; signature_valid := false |}.

(** The booking and its payment, in the given statuses. *)
Definition paid (bs : BookingStatus.t) (ps : PaymentStatus.t) : State :=
  set_payments <["REF1" := paymentA ps]>
    (set_bookings <["b1" := with_b_status bs bookingA]> vacant).
End Examples.

(** ** Relations between the state before and after an operation *)

(** [m] takes every state to a state in relation [R] with it. *)
Definition respects (R : State → State → Prop) {A} (m : M A) : Prop :=
  ∀ st, R st (m st).2.

(** The same rows with the same embedded columns, the statuses of the
    bookings and of the payments apart. *)
Definition same_rows (st st' : State) : Prop :=
  parkingSpots st' = parkingSpots st ∧ users st' = users st ∧
  clientEmailAccounts st' = clientEmailAccounts st ∧
  with_b_status BookingStatus.PENDING <$> bookings st'
    = with_b_status BookingStatus.PENDING <$> bookings st ∧
  with_p_status PaymentStatus.PENDING <$> payments st'
    = with_p_status PaymentStatus.PENDING <$> payments st.

(** A booking is made and its payment requested, the guest cancels, and
    another guest books over the same hour. *)
Definition Examples_rebooked : State :=
  exec_all [Op_create Examples.dtoA "alice" 0 "b1";
            Op_createPayment (PaymentResponse "REF1" "cs_1" "PENDING" 10000)
              "b1";
            Op_cancel "b1" "alice";
            Op_create Examples.dtoB "bob" 0 "b2"] Examples.vacant.

(** ** What the idempotency block of the webhook handler lets through *)

(** The event is one the handler does not know: it carries no identifier,
    or one that is not in the processed set. *)
Definition unseen (ev : WebhookEvent) (st : State) : Prop :=
  eventId_of ev = "no-id" ∨ eventId_of ev ∉ webhookEvents st.

(** The state once such an event has passed the idempotency block: its
    identifier is recorded, if it has one. *)
Definition recorded (ev : WebhookEvent) (st : State) : State :=
  if decide (eventId_of ev = "no-id") then st
  else set_webhookEvents (λ s, {[eventId_of ev]} ∪ s) st.

(** The event names no external id, or one that no payment row has, or is
    of a type the [switch] of the handler does not list. *)
Definition without_effect (ev : WebhookEvent) (st : State) : Prop :=
  truthy (event_data ev ≫= data_externalId) = false ∨
  (∀ ref p, payments st !! ref = Some p →
     externalId p ≠ js_string (event_data ev ≫= data_externalId)) ∨
  reported_status ev = None.

(** Deliveries sent with the test signature: a [payment.failed] event that
    carries the order reference but no transaction id, the
    [payment.completed] event of the same order, and a [payment.completed]
    event that carries no identifier at all. *)
Definition Examples_delivery (type : string) (txn ref : option string)
    (status : string) : WebhookRequest :=
  {| body := Some {| event := Some type;
                     event_data := Some {| transactionId := txn;
                                           fullOrderRef := ref;
                                           data_externalId := Some "cs_1";
                                           data_status := Some status |} |};
     signature := Some "test"; signature_valid := false |}.

Definition Examples_failed : WebhookRequest :=
  Examples_delivery "payment.failed" None (Some "REF1") "FAILED".

Definition Examples_succeeded : WebhookRequest :=
  Examples_delivery "payment.completed" None (Some "REF1") "SUCCEEDED".

Definition Examples_anonymous : WebhookRequest :=
  Examples_delivery "payment.completed" None None "SUCCEEDED".


(** ** What an operation sends *)

Definition is_PmoEmail (m : Mail) : Prop :=
  match m with
  | PmoEmail _ _ _ => True
  | SystemEmail _ _ => False
  end.

(** From [st] to [st'] nothing was sent but requests to the building office:
    no invoice to a guest. *)
Definition sends_only_pmo (st st' : State) : Prop :=
  ∃ l, outbox st' = outbox st ++ l ∧ Forall is_PmoEmail l.

(** ** BookingController.initiatePayment (booking.controller.ts) *)

(** [PaymentService.getPaymentByBookingId] *)
Definition getPaymentByBookingId (bookingId' : string)
    : M (option (string * Payment)) :=
  prisma_payment_findUnique_bookingId bookingId'.

(** What [initiatePayment] answers: the payment row the booking has already,
    or the answer of the gateway to the charge it has just requested. *)
Inductive InitiatedPayment :=
  | ExistingPayment (referenceNumber : string) (status : PaymentStatus.t)
  | NewPayment (data : GatewayAnswer).

Module BookingController.

(** [initiatePayment(req, id)], [userId'] being [req.user.id] and [answer]
    what the gateway answers if it is asked. The description of the charge
    reads [booking.parkingSpot.tower]. *)
Definition initiatePayment (answer : GatewayAnswer) (id userId' : string)
    : M InitiatedPayment :=
  booking ← findOne id userId';
  if decide (userId (inc_booking booking) ≠ userId') then
    throw (BadRequestException "You can only pay for your own bookings")
  else
    existingPayment ← getPaymentByBookingId id;
    match existingPayment with
    | Some (referenceNumber, payment) =>
        mret (ExistingPayment referenceNumber (p_status payment))
    | None =>
        match inc_parkingSpot booking with
        | None => throw TypeError
        | Some _ =>
            payment ← PaymentService.createPayment answer id;
            mret (NewPayment payment)
        end
    end.

End BookingController.

(** At most one payment row for a booking. *)
Definition one_payment_per_booking (st : State) : Prop :=
  ∀ ref ref' p p',
    payments st !! ref = Some p → payments st !! ref' = Some p' →
    bookingId p = bookingId p' → ref = ref'.

(** A cancelled booking without a payment. *)
Definition Examples_cancelled : State :=
  set_bookings <["b1" := with_b_status BookingStatus.CANCELLED Examples.bookingA]>
    Examples.vacant.

(** ** BookingService.findByParkingSpot (booking.service.ts) *)

(** The columns the query selects. *)
Record BookingSlot := {
  slot_id : string;
  slot_startTime : Z;
  slot_endTime : Z;
  slot_status : BookingStatus.t
}.

Definition slot_of (row : string * Booking) : BookingSlot :=
  {| slot_id := row.1; slot_startTime := startTime row.2;
     slot_endTime := endTime row.2; slot_status := b_status row.2 |}.

(** [orderBy: { startTime: 'asc' }] *)
Definition startTime_asc (a b : BookingSlot) : Prop :=
  slot_startTime a ≤ slot_startTime b.

#[export] Instance startTime_asc_dec : RelDecision startTime_asc.
Proof. intros a b. unfold startTime_asc. apply _. Defined.

(** The [where] clause of the query. *)
Definition slots_where (spotId : string) (b : Booking) : Prop :=
  parkingSpotId b = spotId ∧
  status_in [BookingStatus.PENDING; BookingStatus.CONFIRMED] b.

#[export] Instance slots_where_dec spotId b : Decision (slots_where spotId b).
Proof. unfold slots_where, status_in. apply _. Defined.

(** [findMany({ where, select, orderBy })] *)
Definition findByParkingSpot (parkingSpotId' : string)
    : M (list BookingSlot) :=
  gets (λ st,
    merge_sort startTime_asc
      (slot_of <$>
         map_to_list
           (filter (λ row : string * Booking, slots_where parkingSpotId' row.2)
                   (bookings st)))).

(** ** The waits of a poll *)

(** From [st] to [st'] the program has waited at most [n] times, each time
    for at most 30 seconds. *)
Definition waited (st st' : State) (n : nat) : Prop :=
  ∃ l, sleeps st' = sleeps st ++ l ∧ (length l ≤ n)%nat ∧
    Forall (λ ms, 0 < ms ≤ 30000) l.

(** ** The overlap query of the earlier version of [BookingService.create]

    The [where] clause of its [findFirst]: the clause of the current version
    without its [NOT]. *)
Definition overlap_where_v1 (spotId : string) (startTime' endTime' : Z)
    (b : Booking) : Prop :=
  parkingSpotId b = spotId ∧
  status_in [BookingStatus.PENDING; BookingStatus.CONFIRMED] b ∧
  ((startTime b ≤ startTime' ∧ endTime b > startTime') ∨
   (startTime b < endTime' ∧ endTime b >= endTime') ∨
   (startTime b >= startTime' ∧ endTime b ≤ endTime')).

#[export] Instance overlap_where_v1_dec spotId s e b :
  Decision (overlap_where_v1 spotId s e b).
Proof. unfold overlap_where_v1, status_in. apply _. Defined.

(** A spot at 1.5 an hour and a request for nine minutes, 09:00-09:09: the
    price over the real numbers is 22.5 cents. *)
Definition Examples_spot15 : ParkingSpot :=
  {| ps_ownerId := "owner"; ps_status := ParkingStatus.APPROVED;
     pricePerHour := Number_div (Number_of_Z 3) (Number_of_Z 2) |}.

Definition Examples_vacant15 : State :=
  {| parkingSpots := {[ "spot1" := Examples_spot15 ]}; bookings := ∅;
     payments := ∅; webhookEvents := ∅;
     users := {[ "owner"; "alice"; "bob" ]};
     clientEmailAccounts := {[ "owner" ]};
     outbox := []; logs := []; sleeps := [] |}.

Definition Examples_dto9 : CreateBookingDto :=
  {| dto_parkingSpotId := "spot1"; dto_startTime := 9 * Examples.hour;
     dto_endTime := 9 * Examples.hour + 540000 |}.

(** ** What an update of a row keeps

    The updates of the code write the status of a booking, and the status
    (and the payment method, which is not embedded) of a payment. *)

(** [b'] is [b] up to its status. *)
Definition same_booking (b b' : Booking) : Prop :=
  startTime b' = startTime b ∧ endTime b' = endTime b ∧
  totalPrice b' = totalPrice b ∧ parkingSpotId b' = parkingSpotId b ∧
  userId b' = userId b.

(** [p'] has the external id, the amount and the booking of [p]. *)
Definition same_payment (p p' : Payment) : Prop :=
  externalId p' = externalId p ∧ amount p' = amount p ∧
  bookingId p' = bookingId p.
(** ** Properties of the embedding: queries *)

Section findFirst.
Context {A : Type} (P : A → Prop) `{∀ a, Decision (P a)}.
Implicit Types m : gmap string A.

Lemma findFirst_Some m k a :
  findFirst P m = Some (k, a) → m !! k = Some a ∧ P a.
Proof.
  unfold findFirst. intros Hhd.
  apply head_Some_elem_of, elem_of_map_to_list in Hhd.
  by apply map_lookup_filter_Some in Hhd.
Qed.

Lemma findFirst_None m :
  findFirst P m = None ↔ ∀ k a, m !! k = Some a → ¬ P a.
Proof.
  unfold findFirst. rewrite head_None, map_to_list_empty_iff.
  rewrite map_empty_filter. unfold map_Forall. naive_solver.
Qed.

Lemma findFirst_is_Some m k a :
  m !! k = Some a → P a → is_Some (findFirst P m).
Proof.
  intros Hk HP. destruct (findFirst P m) eqn:E; [eauto|].
  rewrite findFirst_None in E. naive_solver.
Qed.
End findFirst.

(** ** The monad, unfolded *)

Arguments PaymentStatusService.updateBookingStatus : simpl never.
Arguments PaymentStatusService.updatePaymentStatusFromAPI : simpl never.
Arguments PaymentService.updateBookingStatus : simpl never.
Arguments PaymentService.getPaymentStatus : simpl never.
Arguments PaymentService.poll_attempt : simpl never.
Arguments sendBookingConfirmationEmail : simpl never.
Arguments sendGuestConfirmationEmail : simpl never.
Arguments findOne : simpl never.
Arguments PaymentController.apply_event : simpl never.
Arguments PaymentController.mark_processed : simpl never.
Arguments PaymentController.verify_signature : simpl never.

Ltac munfold :=
  unfold mbind, M_mbind, M_bind, mret, M_mret, M_ret, throw, gets, modify,
    try_catch, logger_log, logger_warn, logger_error, db in *.

Lemma db_None {A} call (op : M A) : db None call op = op.
Proof. done. Qed.

Lemma db_failing {A} call (op : M A) : db (Some call) call op = throw P1001.
Proof. unfold db. by case_decide. Qed.

Lemma db_other {A} call call' (op : M A) :
  call' ≠ call → db (Some call') call op = op.
Proof. unfold db. intros. by case_decide. Qed.

(** ** The example states *)

Lemma Examples_dtoB_valid st :
  parkingSpots st = parkingSpots Examples.vacant →
  valid_request st Examples.dtoB "bob" 0.
Proof.
  intros Hst. exists Examples.spot1. rewrite Hst.
  split; [reflexivity|]. split_and!; [done|done|by vm_compute..].
Qed.

Lemma Examples_booked_wf : intervals_wf Examples.booked.
Proof.
  intros id b. cbn. rewrite lookup_insert_Some, lookup_empty.
  intros [[_ <-]|[_ [=]]]. by vm_compute.
Qed.

(** ** BookingService.create *)

Section create.
Variables (dto : CreateBookingDto) (userId' : string) (now : Z)
  (newId : string).

(** Past its checks, [create] is the overlap query and the insert. *)
Lemma create_valid st spot :
  parkingSpots st !! dto_parkingSpotId dto = Some spot →
  ps_status spot = ParkingStatus.APPROVED → ps_ownerId spot ≠ userId' →
  dto_startTime dto < dto_endTime dto → now ≤ dto_startTime dto →
  create dto userId' now newId st =
    match findFirst (overlap_where (dto_parkingSpotId dto)
                       (dto_startTime dto) (dto_endTime dto))
                    (bookings st) with
    | Some _ => (Throw ConflictError, st)
    | None => prisma_booking_create newId (new_booking dto userId' spot) st
    end.
Proof.
  intros Hspot Hst Hown Hlt Hnow.
  unfold create, create_async, prisma_parkingSpot_findUnique,
    prisma_booking_findFirst. munfold. cbn. rewrite Hspot.
  repeat case_decide; try done; try lia. cbn.
  destruct (findFirst _ _) as [[??]|]; [done|]. cbn.
  unfold prisma_booking_create, new_booking.
  by destruct (bookings st !! newId).
Qed.

(** On a well-formed stored booking the [where] clause of the query is the
    conflict of half-open intervals with an active booking. *)
Lemma overlap_where_spec b :
  dto_startTime dto < dto_endTime dto → startTime b < endTime b →
  overlap_where (dto_parkingSpotId dto) (dto_startTime dto)
                (dto_endTime dto) b ↔
  parkingSpotId b = dto_parkingSpotId dto ∧ active b ∧
  intervals_conflict (dto_startTime dto) (dto_endTime dto)
                     (startTime b) (endTime b).
Proof.
  intros Hreq Hb. unfold overlap_where, status_in, active, intervals_conflict.
  rewrite !elem_of_cons, !elem_of_nil.
  destruct (b_status b); intuition (first [congruence | lia]).
Qed.
End create.

Lemma valid_request_set_bookings f st dto u now :
  valid_request (set_bookings f st) dto u now ↔ valid_request st dto u now.
Proof. done. Qed.

Lemma create_rejected_iff dto u now newId st :
  valid_request st dto u now → intervals_wf st →
  (create dto u now newId st).1 = Throw ConflictError ↔
  ∃ id b, bookings st !! id = Some b ∧
    parkingSpotId b = dto_parkingSpotId dto ∧ active b ∧
    intervals_conflict (dto_startTime dto) (dto_endTime dto)
                       (startTime b) (endTime b).
Proof.
  intros (spot & Hspot & Happr & Hown & Hlt & Hnow) Hwf.
  rewrite (create_valid _ _ _ _ _ spot) by done.
  destruct (findFirst _ _) as [[id b]|] eqn:Hq.
  - apply findFirst_Some in Hq as [Hb Hw]. split; [intros _|done].
    exists id, b. split; [done|].
    by apply overlap_where_spec in Hw; [|done|eapply Hwf].
  - rewrite findFirst_None in Hq. split.
    + unfold prisma_booking_create. by destruct (bookings st !! newId).
    + intros (id & b & Hb & Hrest). destruct (Hq id b Hb).
      apply overlap_where_spec; [done|by eapply Hwf|done].
Qed.

(** C1. A request that passes the checks made before the overlap query is
    rejected with the conflict error exactly when some stored booking of the
    same resource is PENDING or CONFIRMED and its interval [[s2,e2)]
    satisfies [s1 < e2] and [s2 < e1]. A stored booking that is adjacent to
    the request ([e2 = s1] or [e1 = s2]), or whose status is CANCELLED or
    COMPLETED, never blocks: with or without it the request has the same
    fate. *)
Theorem create_conflict_iff dto u now newId st :
  valid_request st dto u now → intervals_wf st →
  ((create dto u now newId st).1 = Throw ConflictError ↔
   ∃ id b, bookings st !! id = Some b ∧
     parkingSpotId b = dto_parkingSpotId dto ∧
     (b_status b = BookingStatus.PENDING ∨ b_status b = BookingStatus.CONFIRMED) ∧
     dto_startTime dto < endTime b ∧ startTime b < dto_endTime dto) ∧
  (∀ id b, bookings st !! id = Some b →
     endTime b = dto_startTime dto ∨ dto_endTime dto = startTime b ∨
     b_status b = BookingStatus.CANCELLED ∨
     b_status b = BookingStatus.COMPLETED →
     ((create dto u now newId st).1 = Throw ConflictError ↔
      (create dto u now newId (set_bookings (delete id) st)).1
        = Throw ConflictError)).
Proof.
  intros Hvalid Hwf. split; [by apply create_rejected_iff|].
  intros id b Hb Hcase.
  assert (intervals_wf (set_bookings (delete id) st)) as Hwf'.
  { intros i c Hc. cbn in Hc. apply lookup_delete_Some in Hc as [_ Hc].
    by eapply Hwf. }
  rewrite !create_rejected_iff by done. cbn.
  split; intros (i & c & Hc & Hspot & Hact & Hconf).
  - exists i, c. split; [|done]. apply lookup_delete_Some. split; [|done].
    intros <-. assert (c = b) as -> by congruence.
    unfold active, intervals_conflict in *.
    destruct Hcase as [?|[?|[?|?]]]; [lia|lia|destruct Hact; congruence..].
  - apply lookup_delete_Some in Hc as [_ Hc]. by exists i, c.
Qed.

Lemma create_conflict_iff_witness :
  (create Examples.dtoB "bob" 0 "b2" Examples.booked).1 = Throw ConflictError.
Proof.
  apply (create_conflict_iff _ "bob" 0 "b2" Examples.booked).
  - by apply Examples_dtoB_valid.
  - exact Examples_booked_wf.
  - exists "b1", Examples.bookingA.
    split_and!; [done|done|by left|by vm_compute..].
Defined.

(** ** Serial and interleaved creation *)

Lemma create_Ok_inv dto u now newId st r st' :
  create dto u now newId st = (Ok r, st') →
  ∃ spot, parkingSpots st !! dto_parkingSpotId dto = Some spot ∧
    valid_request st dto u now ∧
    findFirst (overlap_where (dto_parkingSpotId dto) (dto_startTime dto)
                 (dto_endTime dto)) (bookings st) = None ∧
    bookings st !! newId = None ∧
    r = (newId, new_booking dto u spot) ∧
    st' = set_bookings <[newId := new_booking dto u spot]> st.
Proof.
  unfold create, create_async, prisma_parkingSpot_findUnique,
    prisma_booking_findFirst, valid_request. munfold. cbn.
  destruct (parkingSpots st !! _) as [spot|] eqn:Hspot; [|done].
  repeat case_decide; try done. cbn.
  destruct (findFirst _ _) as [[??]|] eqn:Hq; [done|]. cbn.
  unfold prisma_booking_create.
  destruct (bookings st !! newId) eqn:Hid; [done|].
  intros [= <- <-]. exists spot. repeat split; try done.
  exists spot. repeat split; try done; lia.
Qed.

Lemma create_Throw_inv dto u now newId st e st' :
  create dto u now newId st = (Throw e, st') → st' = st.
Proof.
  unfold create, create_async, prisma_parkingSpot_findUnique,
    prisma_booking_findFirst. munfold. cbn.
  destruct (parkingSpots st !! _) as [spot|]; cbn; [|by intros [= _ <-]].
  repeat case_decide; cbn; try (by intros [= _ <-]).
  destruct (findFirst _ _) as [[??]|]; cbn; [by intros [= _ <-]|].
  unfold prisma_booking_create.
  destruct (bookings st !! newId); [by intros [= _ <-]|done].
Qed.

Lemma create_preserves_intervals_wf dto u now newId st r st' :
  intervals_wf st → create dto u now newId st = (r, st') → intervals_wf st'.
Proof.
  intros Hwf Hc. destruct r as [r|e].
  - apply create_Ok_inv in Hc
      as (spot & _ & (? & _ & _ & _ & Hlt & _) & _ & _ & _ & ->).
    intros id b. cbn. intros [[_ <-]|[_ ?]]%lookup_insert_Some; [done|].
    by eapply Hwf.
  - by apply create_Throw_inv in Hc as ->.
Qed.

Lemma create_preserves_no_double_booking dto u now newId st r st' :
  intervals_wf st → no_double_booking st →
  create dto u now newId st = (r, st') → no_double_booking st'.
Proof.
  intros Hwf Hinv Hc. destruct r as [r|e];
    [|by apply create_Throw_inv in Hc as ->].
  apply create_Ok_inv in Hc
    as (spot & _ & (? & _ & _ & _ & Hlt & _) & Hq & Hfresh & _ & ->).
  rewrite findFirst_None in Hq.
  assert (∀ k c, bookings st !! k = Some c →
            parkingSpotId c = dto_parkingSpotId dto → active c →
            ¬ intervals_conflict (dto_startTime dto) (dto_endTime dto)
                (startTime c) (endTime c)) as Hnew.
  { intros k c Hk Hs Ha Hconf. apply (Hq k c Hk).
    apply overlap_where_spec; [done|by eapply Hwf|done]. }
  intros i j a b. cbn.
  intros [[-> <-]|[Hi Ha]]%lookup_insert_Some
         [[-> <-]|[Hj Hb]]%lookup_insert_Some Hij Hs Haa Hab; cbn in *.
  - done.
  - by eapply Hnew.
  - intros [??]. eapply (Hnew i a); [done..|]. by split.
  - by eapply Hinv.
Qed.

(** C2 (amended). Two requests with overlapping intervals on one resource
    that are served one after the other: once the first has created its
    booking, the second creates nothing and is rejected (with the conflict
    error when it passes the checks made before the overlap query), and a
    store without double booking stays so. Nothing is promised for requests
    whose overlap queries both run before either insert. *)
Theorem create_serial_exclusive dtoA uA nowA idA dtoB uB nowB idB st rA stA :
  intervals_wf st →
  create dtoA uA nowA idA st = (Ok rA, stA) →
  dto_parkingSpotId dtoB = dto_parkingSpotId dtoA →
  intervals_conflict (dto_startTime dtoA) (dto_endTime dtoA)
                     (dto_startTime dtoB) (dto_endTime dtoB) →
  (∃ e, create dtoB uB nowB idB stA = (Throw e, stA)) ∧
  (valid_request stA dtoB uB nowB →
   create dtoB uB nowB idB stA = (Throw ConflictError, stA)) ∧
  (no_double_booking st → no_double_booking stA).
Proof.
  intros Hwf HA Hspot [Hc1 Hc2].
  assert (intervals_wf stA) as HwfA
    by by eapply create_preserves_intervals_wf.
  pose proof HA as HA'.
  apply create_Ok_inv in HA'
    as (spot & _ & (? & _ & _ & _ & Hlt & _) & _ & _ & _ & HstA).
  assert (bookings stA !! idA = Some (new_booking dtoA uA spot)) as HbA.
  { rewrite HstA. cbn. apply lookup_insert_eq. }
  assert (valid_request stA dtoB uB nowB →
          create dtoB uB nowB idB stA = (Throw ConflictError, stA)) as Hvalid.
  { intros Hv.
    assert ((create dtoB uB nowB idB stA).1 = Throw ConflictError) as Hrej.
    { apply create_rejected_iff; [done..|].
      exists idA, (new_booking dtoA uA spot). cbn.
      split_and!; [done|done|by left|by split]. }
    destruct (create dtoB uB nowB idB stA) as [r st'] eqn:HB. cbn in Hrej.
    subst r. by apply create_Throw_inv in HB as ->. }
  split; [|split; [done|]].
  - destruct (create dtoB uB nowB idB stA) as [[r|e] st'] eqn:HB.
    + apply create_Ok_inv in HB as (? & _ & Hv & _). specialize (Hvalid Hv).
      congruence.
    + exists e. by apply create_Throw_inv in HB as ->.
  - intros Hinv.
    by apply (create_preserves_no_double_booking _ _ _ _ _ _ _ Hwf Hinv HA).
Qed.

(** The interleaving that refutes C2 as stated: the two overlap queries run
    before either insert, both requests succeed, and the store holds two
    PENDING bookings of one spot over 09:30-10:00. *)
Lemma create_interleaved_double_booking :
  ∃ st',
    interleave [true; false; true; false; true; false]
      (create_async Examples.dtoA "alice" 0 "b1")
      (create_async Examples.dtoB "bob" 0 "b2") Examples.vacant
    = (Return (Ok ("b1", Examples.bookingA)),
       Return (Ok ("b2", Examples.bookingB)), st') ∧
    bookings st' !! "b1" = Some Examples.bookingA ∧
    bookings st' !! "b2" = Some Examples.bookingB ∧
    ¬ no_double_booking st'.
Proof.
  eexists. split; [by vm_compute|].
  assert (bookings
            (set_bookings <["b2" := Examples.bookingB]> Examples.booked)
          !! "b1" = Some Examples.bookingA) as H1 by by vm_compute.
  assert (bookings
            (set_bookings <["b2" := Examples.bookingB]> Examples.booked)
          !! "b2" = Some Examples.bookingB) as H2 by by vm_compute.
  split_and!; [exact H1|exact H2|].
  intros Hinv. apply (Hinv "b1" "b2" _ _ H1 H2); [done|done|by left..|].
  split; by vm_compute.
Qed.

Lemma create_serial_exclusive_witness :
  create Examples.dtoB "bob" 0 "b2" Examples.booked
  = (Throw ConflictError, Examples.booked).
Proof.
  apply (create_serial_exclusive Examples.dtoA "alice" 0 "b1"
           Examples.dtoB "bob" 0 "b2" Examples.vacant
           ("b1", Examples.bookingA) Examples.booked).
  - intros id b. cbn. by rewrite lookup_empty.
  - by vm_compute.
  - done.
  - split; by vm_compute.
  - by apply Examples_dtoB_valid.
Defined.

(** ** Notification e-mails *)

Lemma data_set_logs f st : data (set_logs f st) = data st.
Proof. done. Qed.

Lemma data_set_sleeps f st : data (set_sleeps f st) = data st.
Proof. done. Qed.

Lemma sendGuestConfirmationEmail_spec payment st :
  ∃ st', sendGuestConfirmationEmail payment st = (Ok tt, st') ∧
    sleeps st' = sleeps st ∧
    data st' = data (set_outbox
      (λ o, o ++ from_option guest_mails [] (tree_of_booking payment)) st).
Proof.
  unfold sendGuestConfirmationEmail, gmailService_sendSystemEmail, guest_mails,
    data.
  munfold.
  destruct (tree_of_booking payment) as [bt|]; cbn;
    [|eexists; split_and!; [done..|by rewrite app_nil_r]].
  destruct (tree_user bt), (tree_parkingSpot bt) as [sp|]; cbn;
    try (eexists; split_and!; [done..|by rewrite app_nil_r]).
  destruct (tree_owner sp); cbn;
    eexists; split_and!; try done; by rewrite app_nil_r.
Qed.

Ltac finish_frame :=
  eexists; split_and!; [reflexivity..|]; cbn;
  rewrite ?app_nil_r; reflexivity.

Lemma sendBookingConfirmationEmail_status_spec st0 st id ref p :
  users st = users st0 →
  ∃ st',
    sendBookingConfirmationEmail owner_loaded
      {| tree_referenceNumber := ref; tree_payment := p;
         tree_of_booking := include_booking true st0 id |} st = (Ok tt, st') ∧
    sleeps st' = sleeps st ∧
    data st' = data (set_outbox
      (λ o, o ++ from_option (owner_mails st) []
                   (include_booking true st0 id)) st).
Proof.
  intros Hu.
  unfold sendBookingConfirmationEmail, gmailService_sendPmoEmail, owner_mails,
    include_booking, data, owner_loaded, owner_queried.
  munfold. cbn.
  destruct (bookings st0 !! id) as [b|]; cbn; [|finish_frame].
  destruct (parkingSpots st0 !! parkingSpotId b) as [ps|]; cbn;
    [|finish_frame].
  rewrite <- !Hu.
  destruct (decide (userId b ∈ users st));
    (case_bool_decide; cbn;
     [case_bool_decide; cbn|]; try case_decide; try tauto; finish_frame).
Qed.

Lemma sendBookingConfirmationEmail_service_spec st0 st id ref p :
  users st = users st0 →
  ∃ st',
    sendBookingConfirmationEmail owner_queried
      {| tree_referenceNumber := ref; tree_payment := p;
         tree_of_booking := include_booking false st0 id |} st = (Ok tt, st') ∧
    sleeps st' = sleeps st ∧
    data st' = data (set_outbox
      (λ o, o ++ from_option (owner_mails st) []
                   (include_booking false st0 id)) st).
Proof.
  intros Hu.
  unfold sendBookingConfirmationEmail, gmailService_sendPmoEmail, owner_mails,
    include_booking, data, owner_loaded, owner_queried.
  munfold. cbn.
  destruct (bookings st0 !! id) as [b|]; cbn; [|finish_frame].
  destruct (parkingSpots st0 !! parkingSpotId b) as [ps|]; cbn;
    [|finish_frame].
  rewrite <- !Hu.
  destruct (decide (userId b ∈ users st));
    (destruct (decide (ps_ownerId ps ∈ users st)); cbn;
     [case_bool_decide; cbn|]; try case_decide; try tauto; finish_frame).
Qed.

(** ** Reconciliation: the booking follows the reported status *)

Lemma PaymentStatusService_updateBookingStatus_spec st ref reported p b :
  payments st !! ref = Some p → bookings st !! bookingId p = Some b →
  ∃ st',
    PaymentStatusService.updateBookingStatus None ref reported st
      = (Ok tt, st') ∧
    sleeps st' = sleeps st ∧
    data st' = data (reconciled_bookings true st ref reported (bookingId p) b).
Proof.
  intros Hp Hb.
  unfold PaymentStatusService.updateBookingStatus, reconciled_bookings,
    prisma_payment_findUnique_include, prisma_booking_update,
    confirmation_mails.
  munfold. cbn. rewrite Hp. cbn.
  destruct (bookingStatus_of reported) as [s|] eqn:Hbs;
    [|by eexists; split_and!]. cbn.
  rewrite Hb. cbn.
  assert (is_Some (include_booking true st (bookingId p))) as [bt Hbt].
  { unfold include_booking. rewrite Hb. by eexists. }
  case_decide as Hs; [destruct Hs as [-> _]|]; cbn.
  - set (st2 := set_logs _ _).
    destruct (sendBookingConfirmationEmail_status_spec st st2 (bookingId p)
                ref p eq_refl) as (st3 & -> & Hs3 & Hd3).
    destruct (sendGuestConfirmationEmail_spec
                {| tree_referenceNumber := ref; tree_payment := p;
                   tree_of_booking := include_booking true st (bookingId p) |}
                st3) as (st4 & -> & Hs4 & Hd4).
    exists st4. split_and!; [done|by rewrite Hs4, Hs3|].
    rewrite Hd4. unfold data in *. cbn in *. rewrite Hbt in *. cbn in *.
    injection Hd3 as -> -> -> -> -> -> ->.
    case_decide; [|done]. by rewrite <- app_assoc.
  - eexists. split_and!; [done..|]. cbn. case_decide as Hs'.
    + destruct Hs. split; [done|]. by rewrite Hbt.
    + unfold data. cbn. by rewrite app_nil_r.
Qed.

Lemma PaymentService_updateBookingStatus_spec st ref reported p b :
  payments st !! ref = Some p → bookings st !! bookingId p = Some b →
  ∃ st',
    PaymentService.updateBookingStatus ref reported st = (Ok tt, st') ∧
    sleeps st' = sleeps st ∧
    data st' = data (reconciled_bookings false st ref reported (bookingId p) b).
Proof.
  intros Hp Hb.
  unfold PaymentService.updateBookingStatus, reconciled_bookings,
    prisma_payment_findUnique_include, prisma_booking_update,
    confirmation_mails.
  munfold. cbn. rewrite Hp. cbn.
  destruct (bookingStatus_of reported) as [s|] eqn:Hbs;
    [|by eexists; split_and!]. cbn.
  rewrite Hb. cbn.
  assert (is_Some (include_booking false st (bookingId p))) as [bt Hbt].
  { unfold include_booking. rewrite Hb. by eexists. }
  case_decide as Hs; [destruct Hs as [-> _]|]; cbn.
  - set (st2 := set_logs _ _).
    destruct (sendBookingConfirmationEmail_service_spec st st2 (bookingId p)
                ref p eq_refl) as (st3 & -> & Hs3 & Hd3).
    destruct (sendGuestConfirmationEmail_spec
                {| tree_referenceNumber := ref; tree_payment := p;
                   tree_of_booking := include_booking false st (bookingId p) |}
                st3) as (st4 & -> & Hs4 & Hd4).
    exists st4. split_and!; [done|by rewrite Hs4, Hs3|].
    rewrite Hd4. unfold data in *. cbn in *. rewrite Hbt in *. cbn in *.
    injection Hd3 as -> -> -> -> -> -> ->.
    case_decide; [|done]. by rewrite <- app_assoc.
  - eexists. split_and!; [done..|]. cbn. case_decide as Hs'.
    + destruct Hs. split; [done|]. by rewrite Hbt.
    + unfold data. cbn. by rewrite app_nil_r.
Qed.

Lemma confirmation_mails_data w st st' ref :
  data st = data st' → confirmation_mails w st ref = confirmation_mails w st' ref.
Proof.
  unfold data, confirmation_mails, include_booking, owner_mails.
  intros [= Hsp Hb Hp He Hu Hc Ho]. by rewrite Hsp, Hb, Hp, Hu, Hc.
Qed.

Lemma reconciled_bookings_data w st st' ref reported id b :
  data st = data st' →
  data (reconciled_bookings w st ref reported id b)
  = data (reconciled_bookings w st' ref reported id b).
Proof.
  intros Hd. unfold reconciled_bookings.
  destruct (bookingStatus_of reported); [|done].
  rewrite (confirmation_mails_data w st st' ref Hd).
  unfold data in *. cbn. injection Hd as -> -> -> -> -> -> ->. done.
Qed.

Lemma status_chain_eq_map (paymentStatus : string) :
  (if decide (paymentStatus = "SUCCEEDED") then PaymentStatus.SUCCEEDED
   else if decide (paymentStatus = "FAILED") then PaymentStatus.FAILED
   else if decide (paymentStatus = "CANCELLED") then PaymentStatus.CANCELLED
   else PaymentStatus.PENDING)
  = PaymentService.mapPaymentStatus paymentStatus.
Proof.
  unfold PaymentService.mapPaymentStatus. repeat case_decide; by subst.
Qed.

(** A webhook reconciliation on which no database call fails. *)
Lemma updatePaymentStatusFromAPI_spec st ref reported p b :
  payments st !! ref = Some p → bookings st !! bookingId p = Some b →
  ∃ st',
    PaymentStatusService.updatePaymentStatusFromAPI None ref reported st
      = (Ok PaymentStatusService.success_true, st') ∧
    sleeps st' = sleeps st ∧
    data st' = data (reconciled true st ref reported p b).
Proof.
  intros Hp Hb. unfold PaymentStatusService.updatePaymentStatusFromAPI.
  rewrite status_chain_eq_map. unfold prisma_payment_update.
  munfold. cbn. rewrite Hp. cbn.
  set (st1 := set_payments _ _).
  destruct (PaymentStatusService_updateBookingStatus_spec st1 ref reported
              (with_p_status (PaymentService.mapPaymentStatus reported) p) b)
    as (st2 & -> & Hs2 & Hd2).
  { subst st1. cbn. apply lookup_insert_eq. }
  { done. }
  eexists. split_and!; [done|cbn; by rewrite Hs2|].
  rewrite data_set_logs, Hd2. by apply reconciled_bookings_data.
Qed.

(** A poll reconciliation that the gateway answers with a status. *)
Lemma getPaymentStatus_spec st ref reported p b r e a :
  payments st !! ref = Some p → bookings st !! bookingId p = Some b →
  ∃ st',
    PaymentService.getPaymentStatus (PaymentResponse r e reported a) ref st
      = (Ok reported, st') ∧
    sleeps st' = sleeps st ∧
    data st' = data (reconciled false st ref reported p b).
Proof.
  intros Hp Hb. unfold PaymentService.getPaymentStatus.
  unfold prisma_payment_update.
  munfold. cbn. rewrite Hp. cbn.
  set (st1 := set_payments _ _).
  destruct (PaymentService_updateBookingStatus_spec st1 ref reported
              (with_p_status (PaymentService.mapPaymentStatus reported) p) b)
    as (st2 & -> & Hs2 & Hd2).
  { subst st1. cbn. apply lookup_insert_eq. }
  { done. }
  eexists. by split_and!.
Qed.

Lemma reconciled_bookings_status w st ref reported id b :
  b_status <$> bookings (reconciled_bookings w st ref reported id b) !! id
  = match bookingStatus_of reported with
    | Some s => Some s
    | None => b_status <$> bookings st !! id
    end.
Proof.
  unfold reconciled_bookings. destruct (bookingStatus_of reported); [|done].
  cbn. by rewrite lookup_insert_eq.
Qed.

Lemma data_bookings st st' : data st = data st' → bookings st = bookings st'.
Proof. unfold data. by intros [= _ -> _ _ _ _ _]. Qed.

Lemma data_payments st st' : data st = data st' → payments st = payments st'.
Proof. unfold data. by intros [= _ _ -> _ _ _ _]. Qed.

Lemma data_outbox st st' : data st = data st' → outbox st = outbox st'.
Proof. unfold data. by intros [= _ _ _ _ _ _ ->]. Qed.

Lemma data_webhookEvents st st' :
  data st = data st' → webhookEvents st = webhookEvents st'.
Proof. unfold data. by intros [= _ _ _ -> _ _ _]. Qed.

(** C3, as stated, fails: a CANCELLED booking whose payment is later
    reported SUCCEEDED becomes CONFIRMED, through the webhook path and
    through the poll path, and no error is raised. *)
Lemma reconcile_confirms_cancelled_booking :
  let st := Examples.paid BookingStatus.CANCELLED PaymentStatus.CANCELLED in
  terminal (with_b_status BookingStatus.CANCELLED Examples.bookingA) ∧
  bookings st !! "b1"
    = Some (with_b_status BookingStatus.CANCELLED Examples.bookingA) ∧
  (∃ st', PaymentStatusService.updateBookingStatus None "REF1" "SUCCEEDED" st
            = (Ok tt, st') ∧
          b_status <$> bookings st' !! "b1" = Some BookingStatus.CONFIRMED) ∧
  (∃ st', PaymentService.updateBookingStatus "REF1" "SUCCEEDED" st
            = (Ok tt, st') ∧
          b_status <$> bookings st' !! "b1" = Some BookingStatus.CONFIRMED) ∧
  (∃ st', PaymentStatusService.updatePaymentStatusFromAPI None "REF1"
            "SUCCEEDED" st
            = (Ok PaymentStatusService.success_true, st') ∧
          b_status <$> bookings st' !! "b1" = Some BookingStatus.CONFIRMED) ∧
  (∃ st', PaymentService.getPaymentStatus
            (PaymentResponse "REF1" "cs_1" "SUCCEEDED" 10000) "REF1" st
            = (Ok "SUCCEEDED", st') ∧
          b_status <$> bookings st' !! "b1" = Some BookingStatus.CONFIRMED).
Proof.
  cbn zeta. split_and!; [by left|by vm_compute|..];
    (eexists; split; [by vm_compute|by vm_compute]).
Qed.

(** C3 (amended). Reconciliation does not look at the current status of the
    booking, terminal or not: a reported SUCCEEDED sets the booking of the
    payment to CONFIRMED, a reported FAILED or CANCELLED sets it to
    CANCELLED, any other reported status leaves the bookings and the outbox
    as they are; in every case the call returns normally. This holds of the
    two entry points, [updatePaymentStatusFromAPI] on the webhook path and
    [getPaymentStatus] on the poll path, and of the [updateBookingStatus]
    each of them calls. *)
Theorem reconcile_booking_follows_reported st ref reported p b r e a :
  payments st !! ref = Some p → bookings st !! bookingId p = Some b →
  let follows st' :=
    (reported = "SUCCEEDED" →
     b_status <$> bookings st' !! bookingId p
       = Some BookingStatus.CONFIRMED) ∧
    (reported = "FAILED" ∨ reported = "CANCELLED" →
     b_status <$> bookings st' !! bookingId p
       = Some BookingStatus.CANCELLED) ∧
    (reported ≠ "SUCCEEDED" → reported ≠ "FAILED" →
     reported ≠ "CANCELLED" →
     bookings st' = bookings st ∧ outbox st' = outbox st) in
  (∃ st', PaymentStatusService.updatePaymentStatusFromAPI None ref reported st
            = (Ok PaymentStatusService.success_true, st') ∧ follows st') ∧
  (∃ st', PaymentService.getPaymentStatus (PaymentResponse r e reported a)
            ref st = (Ok reported, st') ∧ follows st') ∧
  (∃ st', PaymentStatusService.updateBookingStatus None ref reported st
            = (Ok tt, st') ∧ follows st') ∧
  (∃ st', PaymentService.updateBookingStatus ref reported st
            = (Ok tt, st') ∧ follows st').
Proof.
  intros Hp Hb follows.
  assert (∀ w st0 st',
    bookings st0 = bookings st → outbox st0 = outbox st →
    data st' = data (reconciled_bookings w st0 ref reported (bookingId p) b) →
    follows st') as Hfollows.
  { intros w st0 st' Hb0 Ho0 Hd. subst follows. cbn beta.
    rewrite (data_bookings _ _ Hd), (data_outbox _ _ Hd),
      reconciled_bookings_status.
    split_and!.
    - by intros ->.
    - by intros [-> | ->].
    - intros H1 H2 H3. unfold reconciled_bookings, bookingStatus_of.
      by repeat case_decide. }
  split_and!.
  - destruct (updatePaymentStatusFromAPI_spec st ref reported p b Hp Hb)
      as (st' & Hrun & _ & Hd).
    exists st'. split; [exact Hrun|]. by eapply Hfollows; [| |exact Hd].
  - destruct (getPaymentStatus_spec st ref reported p b r e a Hp Hb)
      as (st' & Hrun & _ & Hd).
    exists st'. split; [exact Hrun|]. by eapply Hfollows; [| |exact Hd].
  - destruct (PaymentStatusService_updateBookingStatus_spec
                st ref reported p b Hp Hb) as (st' & Hrun & _ & Hd).
    exists st'. split; [exact Hrun|]. by eapply Hfollows; [| |exact Hd].
  - destruct (PaymentService_updateBookingStatus_spec
                st ref reported p b Hp Hb) as (st' & Hrun & _ & Hd).
    exists st'. split; [exact Hrun|]. by eapply Hfollows; [| |exact Hd].
Qed.

Lemma reconcile_booking_follows_reported_witness :
  ∃ st',
    PaymentStatusService.updatePaymentStatusFromAPI None "REF1" "SUCCEEDED"
      (Examples.paid BookingStatus.COMPLETED PaymentStatus.PENDING)
    = (Ok PaymentStatusService.success_true, st') ∧
    b_status <$> bookings st' !! "b1" = Some BookingStatus.CONFIRMED.
Proof.
  destruct (reconcile_booking_follows_reported
              (Examples.paid BookingStatus.COMPLETED PaymentStatus.PENDING)
              "REF1" "SUCCEEDED" (Examples.paymentA PaymentStatus.PENDING)
              (with_b_status BookingStatus.COMPLETED Examples.bookingA)
              "REF1" "cs_1" 10000 eq_refl eq_refl)
    as ((st' & Hrun & Hok & _) & _).
  exists st'. split; [exact Hrun|]. exact (Hok eq_refl).
Defined.

(** ** The state only extends *)

Lemma with_b_status_idemp s s' b :
  with_b_status s (with_b_status s' b) = with_b_status s b.
Proof. done. Qed.

Lemma with_p_status_idemp s s' p :
  with_p_status s (with_p_status s' p) = with_p_status s p.
Proof. done. Qed.

Lemma with_b_status_id b : with_b_status (b_status b) b = b.
Proof. by destruct b. Qed.

Lemma with_p_status_id p : with_p_status (p_status p) p = p.
Proof. by destruct p. Qed.

Lemma extends_refl st : extends st st.
Proof.
  split; try done.
  - intros id b Hb. exists (b_status b). by rewrite with_b_status_id.
  - intros ref p Hp. exists (p_status p). by rewrite with_p_status_id.
Qed.

Lemma extends_trans st1 st2 st3 :
  extends st1 st2 → extends st2 st3 → extends st1 st3.
Proof.
  intros [] []. split; try congruence.
  - by etrans.
  - intros id b Hb. destruct (ext_bookings0 id b Hb) as [s Hs].
    destruct (ext_bookings1 _ _ Hs) as [s' Hs']. exists s'.
    by rewrite Hs', with_b_status_idemp.
  - intros ref p Hp. destruct (ext_payments0 ref p Hp) as [s Hs].
    destruct (ext_payments1 _ _ Hs) as [s' Hs']. exists s'.
    by rewrite Hs', with_p_status_idemp.
  - by etrans.
Qed.

Lemma extends_set_logs f st : extends st (set_logs f st).
Proof. by destruct (extends_refl st). Qed.

Lemma extends_set_sleeps f st : extends st (set_sleeps f st).
Proof. by destruct (extends_refl st). Qed.

Lemma extends_set_outbox l st : extends st (set_outbox (λ o, o ++ l) st).
Proof.
  destruct (extends_refl st). split; try done. cbn. by apply prefix_app_r.
Qed.

Lemma extends_record_event e st :
  extends st (set_webhookEvents (λ s, {[e]} ∪ s) st).
Proof.
  destruct (extends_refl st). split; try done. cbn. apply union_subseteq_r.
Qed.

Lemma extends_booking_status id s b st :
  bookings st !! id = Some b →
  extends st (set_bookings <[id := with_b_status s b]> st).
Proof.
  intros Hb. destruct (extends_refl st). split; try done. cbn.
  intros i c Hc. destruct (decide (i = id)) as [->|].
  - exists s. rewrite lookup_insert_eq. congruence.
  - rewrite lookup_insert_ne by done. by apply ext_bookings0.
Qed.

Lemma extends_payment_status ref s p st :
  payments st !! ref = Some p →
  extends st (set_payments <[ref := with_p_status s p]> st).
Proof.
  intros Hp. destruct (extends_refl st). split; try done. cbn.
  intros i c Hc. destruct (decide (i = ref)) as [->|].
  - exists s. rewrite lookup_insert_eq. congruence.
  - rewrite lookup_insert_ne by done. by apply ext_payments0.
Qed.

Lemma extends_new_booking id b st :
  bookings st !! id = None → extends st (set_bookings <[id := b]> st).
Proof.
  intros Hb. destruct (extends_refl st). split; try done. cbn.
  intros i c Hc. rewrite lookup_insert_ne by congruence.
  by apply ext_bookings0.
Qed.

Lemma extends_new_payment ref p st :
  payments st !! ref = None → extends st (set_payments <[ref := p]> st).
Proof.
  intros Hp. destruct (extends_refl st). split; try done. cbn.
  intros i c Hc. rewrite lookup_insert_ne by congruence.
  by apply ext_payments0.
Qed.

Section extending.
Context {A B : Type}.

Lemma extending_ret (a : A) : extending (mret a).
Proof. intros st. apply extends_refl. Qed.

Lemma extending_throw e : extending (@throw A e).
Proof. intros st. apply extends_refl. Qed.

Lemma extending_gets (f : State → A) : extending (gets f).
Proof. intros st. apply extends_refl. Qed.

Lemma extending_bind (m : M A) (k : A → M B) :
  extending m → (∀ a, extending (k a)) → extending (m ≫= k).
Proof.
  intros Hm Hk st. specialize (Hm st). munfold.
  destruct (m st) as [[a|e] st1]; [|done].
  eapply extends_trans; [done|]. apply Hk.
Qed.

Lemma extending_try_catch (m : M A) (h : Exception → M A) :
  extending m → (∀ e, extending (h e)) → extending (try_catch m h).
Proof.
  intros Hm Hh st. specialize (Hm st). munfold.
  destruct (m st) as [[a|e] st1]; [done|].
  eapply extends_trans; [done|]. apply Hh.
Qed.

Lemma extending_db failing call (m : M A) : extending m → extending (db failing call m).
Proof.
  intros Hm. unfold db. destruct failing; [case_decide|]; try done.
  apply extending_throw.
Qed.
End extending.

Lemma extending_logger_log msg : extending (logger_log msg).
Proof. intros st. apply extends_set_logs. Qed.

Lemma extending_logger_warn msg : extending (logger_warn msg).
Proof. intros st. apply extends_set_logs. Qed.

Lemma extending_logger_error msg : extending (logger_error msg).
Proof. intros st. apply extends_set_logs. Qed.

Lemma extending_delay ms : extending (PaymentService.delay ms).
Proof. intros st. apply extends_set_sleeps. Qed.

Lemma extending_sendPmoEmail o b g : extending (gmailService_sendPmoEmail o b g).
Proof. intros st. apply extends_set_outbox. Qed.

Lemma extending_sendSystemEmail g b : extending (gmailService_sendSystemEmail g b).
Proof. intros st. apply extends_set_outbox. Qed.

Lemma extending_record_event e :
  extending (modify (set_webhookEvents (λ s, {[e]} ∪ s))).
Proof. intros st. apply extends_record_event. Qed.

Lemma extending_booking_update id s : extending (prisma_booking_update id s).
Proof.
  intros st. unfold prisma_booking_update.
  destruct (bookings st !! id) eqn:Hb; cbn;
    [by apply extends_booking_status|apply extends_refl].
Qed.

Lemma extending_payment_update ref s : extending (prisma_payment_update ref s).
Proof.
  intros st. unfold prisma_payment_update.
  destruct (payments st !! ref) eqn:Hp; cbn;
    [by apply extends_payment_status|apply extends_refl].
Qed.

Lemma extending_booking_create id b : extending (prisma_booking_create id b).
Proof.
  intros st. unfold prisma_booking_create.
  destruct (bookings st !! id) eqn:Hb; cbn;
    [apply extends_refl|by apply extends_new_booking].
Qed.

Lemma extending_run {A} (p : Async A) :
  extending_async p → extending (run p).
Proof.
  induction p as [r|X op k IH]; cbn.
  - intros _ st. apply extends_refl.
  - intros [Hop Hk] st. specialize (Hop st).
    destruct (op st) as [[x|e] st1]; [|done].
    eapply extends_trans; [done|]. by apply IH.
Qed.

Create HintDb extending.

#[global] Hint Resolve extending_ret extending_throw extending_gets
  extending_logger_log extending_logger_warn extending_logger_error
  extending_delay extending_sendPmoEmail extending_sendSystemEmail
  extending_record_event extending_booking_update extending_payment_update
  extending_booking_create : extending.

Ltac extending_step :=
  lazymatch goal with
  | |- extending (mbind _ _) => apply extending_bind; [|intros ?]
  | |- extending (try_catch _ _) => apply extending_try_catch; [|intros ?]
  | |- extending (db _ _ _) => apply extending_db
  | |- extending (if ?c then _ else _) => destruct c
  | |- extending (match ?x with _ => _ end) => destruct x
  | |- extending (let _ := _ in _) => cbv zeta
  | |- extending _ => solve [auto with extending]
  end.

Ltac solve_extending := repeat extending_step.

Lemma extending_sendGuestConfirmationEmail payment :
  extending (sendGuestConfirmationEmail payment).
Proof. unfold sendGuestConfirmationEmail. solve_extending. Qed.

Lemma extending_sendBookingConfirmationEmail owner_of payment :
  (∀ sp, extending (owner_of sp)) →
  extending (sendBookingConfirmationEmail owner_of payment).
Proof. intros ?. unfold sendBookingConfirmationEmail. solve_extending. Qed.

Lemma extending_owner_loaded sp : extending (owner_loaded sp).
Proof. unfold owner_loaded. solve_extending. Qed.

Lemma extending_owner_queried sp : extending (owner_queried sp).
Proof. unfold owner_queried. solve_extending. Qed.

#[global] Hint Resolve extending_sendGuestConfirmationEmail
  extending_sendBookingConfirmationEmail extending_owner_loaded
  extending_owner_queried : extending.

Lemma extending_status_updateBookingStatus failing ref s :
  extending (PaymentStatusService.updateBookingStatus failing ref s).
Proof.
  unfold PaymentStatusService.updateBookingStatus,
    prisma_payment_findUnique_include.
  solve_extending.
Qed.

#[global] Hint Resolve extending_status_updateBookingStatus : extending.

Lemma extending_updatePaymentStatusFromAPI failing ref s :
  extending (PaymentStatusService.updatePaymentStatusFromAPI failing ref s).
Proof.
  unfold PaymentStatusService.updatePaymentStatusFromAPI. solve_extending.
Qed.

Lemma extending_service_updateBookingStatus ref s :
  extending (PaymentService.updateBookingStatus ref s).
Proof.
  unfold PaymentService.updateBookingStatus,
    prisma_payment_findUnique_include.
  solve_extending.
Qed.

#[global] Hint Resolve extending_updatePaymentStatusFromAPI
  extending_service_updateBookingStatus : extending.

Lemma extending_getPaymentStatus answer ref :
  extending (PaymentService.getPaymentStatus answer ref).
Proof. unfold PaymentService.getPaymentStatus. solve_extending. Qed.

#[global] Hint Resolve extending_getPaymentStatus : extending.

Lemma extending_poll_attempt answer ref n i :
  extending (PaymentService.poll_attempt answer ref n i).
Proof. unfold PaymentService.poll_attempt. solve_extending. Qed.

#[global] Hint Resolve extending_poll_attempt : extending.

Lemma extending_poll_loop gateway ref n todo i :
  extending (PaymentService.poll_loop gateway ref n todo i).
Proof.
  revert i. induction todo as [|todo IH]; intros i; cbn; solve_extending.
Qed.

Lemma extending_pollPaymentStatus gateway ref n :
  extending (PaymentService.pollPaymentStatus gateway ref n).
Proof. apply extending_poll_loop. Qed.

Lemma extending_createPayment answer b :
  extending (PaymentService.createPayment answer b).
Proof.
  unfold PaymentService.createPayment.
  apply extending_try_catch; [|intros ?; solve_extending].
  destruct answer; [solve_extending..|].
  case_decide; [solve_extending|].
  intros st. munfold. cbn. case_bool_decide as Hu; cbn; [|apply extends_refl].
  eapply extends_trans; [|apply extends_set_logs].
  apply extends_new_payment, Hu.
Qed.

Lemma extending_create dto u now newId : extending (create dto u now newId).
Proof.
  apply extending_run. unfold create_async. cbn.
  split; [unfold prisma_parkingSpot_findUnique; solve_extending|].
  intros [spot|]; [|done]. repeat (case_decide; [done|]). cbn.
  split; [unfold prisma_booking_findFirst; solve_extending|].
  intros [?|]; [done|]. cbn. split; [solve_extending|done].
Qed.

Lemma extending_findOne id u : extending (findOne id u).
Proof.
  unfold findOne, prisma_booking_findUnique, prisma_parkingSpot_findUnique,
    prisma_payment_findUnique_bookingId.
  solve_extending.
Qed.

#[global] Hint Resolve extending_findOne : extending.

Lemma extending_cancel id u : extending (cancel id u).
Proof.
  unfold cancel, prisma_payment_findUnique_bookingId. solve_extending.
Qed.

Lemma extending_devCancel production id u :
  extending (devCancel production id u).
Proof. unfold devCancel. solve_extending. Qed.

Lemma extending_verify_signature secret req :
  extending (PaymentController.verify_signature secret req).
Proof. unfold PaymentController.verify_signature. solve_extending. Qed.

Lemma extending_mark_processed e :
  extending (PaymentController.mark_processed e).
Proof. unfold PaymentController.mark_processed. solve_extending. Qed.

Lemma extending_apply_event failing ev :
  extending (PaymentController.apply_event failing ev).
Proof.
  unfold PaymentController.apply_event,
    PaymentService.getPaymentByExternalId,
    prisma_payment_findFirst_externalId.
  solve_extending.
Qed.

#[global] Hint Resolve extending_verify_signature extending_mark_processed
  extending_apply_event : extending.

Lemma extending_process_event failing ev :
  extending (PaymentController.process_event failing ev).
Proof. unfold PaymentController.process_event. solve_extending. Qed.

#[global] Hint Resolve extending_process_event : extending.

Lemma extending_handleWebhook failing secret req :
  extending (PaymentController.handleWebhook failing secret req).
Proof. unfold PaymentController.handleWebhook. solve_extending. Qed.

(** Every operation of the core only extends the state. *)
Lemma exec_extends op st : extends st (exec op st).
Proof.
  destruct op; cbn.
  - apply extending_create.
  - apply extending_cancel.
  - apply extending_devCancel.
  - apply extending_createPayment.
  - apply extending_getPaymentStatus.
  - apply extending_pollPaymentStatus.
  - apply extending_handleWebhook.
Qed.

Lemma exec_all_extends ops st : extends st (exec_all ops st).
Proof.
  revert st. induction ops as [|op ops IH]; intros st; cbn.
  - apply extends_refl.
  - eapply extends_trans; [apply exec_extends|apply IH].
Qed.

(** ** The webhook handler *)

Lemma eventId_of_nonempty ev : eventId_of ev ≠ "".
Proof.
  unfold eventId_of, js_or.
  destruct (event_data ev ≫= transactionId);
    destruct (event_data ev ≫= fullOrderRef); repeat case_decide; done.
Qed.

Lemma verify_signature_accepted secret req st :
  signature_accepted secret req →
  ∃ st', PaymentController.verify_signature secret req st = (Ok tt, st') ∧
    data st' = data st ∧ sleeps st' = sleeps st.
Proof.
  unfold signature_accepted, PaymentController.verify_signature.
  intros Hsig. destruct (_ && _ && _).
  - rewrite Hsig by done. by eexists.
  - destruct (negb _); [by eexists|]. case_bool_decide; by eexists.
Qed.

Lemma mark_processed_seen e st :
  e ≠ "" → e ≠ "no-id" → e ∈ webhookEvents st →
  ∃ st', PaymentController.mark_processed e st = (Ok true, st') ∧
    data st' = data st ∧ sleeps st' = sleeps st.
Proof.
  intros H1 H2 He. unfold PaymentController.mark_processed. cbn.
  rewrite !bool_decide_eq_true_2 by done. munfold. cbn.
  rewrite bool_decide_eq_true_2 by done. by eexists.
Qed.

Lemma mark_processed_fresh e st :
  e ≠ "" → e ≠ "no-id" → e ∉ webhookEvents st →
  PaymentController.mark_processed e st
  = (Ok false, set_webhookEvents (λ s, {[e]} ∪ s) st).
Proof.
  intros H1 H2 He. unfold PaymentController.mark_processed. cbn.
  rewrite !bool_decide_eq_true_2 by done. munfold. cbn.
  by rewrite bool_decide_eq_false_2 by done.
Qed.

(** A delivery whose event is in the processed set: acknowledged, no effect. *)
Lemma handleWebhook_replay failing secret req e st :
  carries_eventId req e → signature_accepted secret req →
  e ∈ webhookEvents st →
  ∃ st', PaymentController.handleWebhook failing secret req st
           = (Ok received_true, st') ∧
    data st' = data st ∧ sleeps st' = sleeps st.
Proof.
  intros (ev & Hbody & <- & Hid) Hsig He.
  unfold PaymentController.handleWebhook, PaymentController.process_event.
  destruct (verify_signature_accepted secret req st Hsig)
    as (st1 & Hv & Hd1 & Hs1).
  rewrite Hbody. munfold. rewrite Hv. cbn.
  destruct (mark_processed_seen (eventId_of ev)
              (set_logs (λ l, l ++ [LogInfo "Webhook event structure:"]) st1))
    as (st2 & -> & Hd2 & Hs2);
    [apply eventId_of_nonempty|done|
     by rewrite <- (data_webhookEvents _ _ Hd1) in He|].
  exists st2. split_and!; [done|by rewrite Hd2, data_set_logs|].
  by rewrite Hs2.
Qed.

(** A delivery whose event is not yet in the processed set: the event is
    recorded, then applied. *)
Lemma handleWebhook_fresh failing secret req e st :
  carries_eventId req e → signature_accepted secret req →
  e ∉ webhookEvents st →
  ∃ ev st0,
    body req = Some ev ∧ data st0 = data st ∧ sleeps st0 = sleeps st ∧
    PaymentController.handleWebhook failing secret req st
    = try_catch
        (PaymentController.apply_event failing ev)
        (λ error, logger_error "Webhook processing error:";; throw error)
        (set_webhookEvents (λ s, {[e]} ∪ s) st0).
Proof.
  intros (ev & Hbody & <- & Hid) Hsig He.
  unfold PaymentController.handleWebhook, PaymentController.process_event.
  destruct (verify_signature_accepted secret req st Hsig)
    as (st1 & Hv & Hd1 & Hs1).
  rewrite Hbody. munfold. rewrite Hv. cbn.
  rewrite mark_processed_fresh;
    [|apply eventId_of_nonempty|done|
      by rewrite <- (data_webhookEvents _ _ Hd1) in He].
  eexists ev, _. split_and!; [done| | |reflexivity].
  - by rewrite data_set_logs.
  - done.
Qed.

(** Whatever happens to a delivery that carries an event identifier and
    passes the signature check, its event is in the processed set
    afterwards. *)
Lemma handleWebhook_records failing secret req e st :
  carries_eventId req e → signature_accepted secret req →
  e ∈ webhookEvents (PaymentController.handleWebhook failing secret req st).2.
Proof.
  intros Hreq Hsig. destruct (decide (e ∈ webhookEvents st)) as [He|He].
  - destruct (handleWebhook_replay failing secret req e st Hreq Hsig He)
      as (st' & -> & Hd & _).
    cbn. by rewrite (data_webhookEvents _ _ Hd).
  - destruct (handleWebhook_fresh failing secret req e st Hreq Hsig He)
      as (ev & st0 & _ & _ & _ & ->).
    eapply ext_webhookEvents.
    + apply extending_try_catch; [apply extending_apply_event|].
      intros ?. solve_extending.
    + cbn. apply elem_of_union. left. by apply elem_of_singleton.
Qed.

Lemma findFirst_unique {A} (P : A → Prop) `{∀ a, Decision (P a)}
    (m : gmap string A) k a :
  m !! k = Some a → P a →
  (∀ k' a', m !! k' = Some a' → P a' → k' = k) →
  findFirst P m = Some (k, a).
Proof.
  intros Hk HP Huniq.
  destruct (findFirst_is_Some P m k a Hk HP) as [[k' a'] Hq].
  destruct (findFirst_Some P m k' a' Hq) as [Hk' HP'].
  assert (k' = k) as -> by by eapply Huniq. congruence.
Qed.

Lemma confirmation_mails_payment_status w st ref s p :
  payments st !! ref = Some p →
  confirmation_mails w (set_payments <[ref := with_p_status s p]> st) ref
  = confirmation_mails w st ref.
Proof.
  intros Hp. unfold confirmation_mails. cbn.
  by rewrite lookup_insert_eq, Hp.
Qed.

Lemma reconciled_data w st st' ref reported p b :
  data st = data st' →
  data (reconciled w st ref reported p b)
  = data (reconciled w st' ref reported p b).
Proof.
  intros Hd. unfold reconciled. apply reconciled_bookings_data.
  unfold data in *. cbn. by injection Hd as -> -> -> -> -> -> ->.
Qed.

Lemma reconciled_payments w st ref reported p b :
  payments (reconciled w st ref reported p b)
  = <[ref := with_p_status (PaymentService.mapPaymentStatus reported) p]>
      (payments st).
Proof.
  unfold reconciled, reconciled_bookings.
  by destruct (bookingStatus_of reported).
Qed.

Lemma reconciled_bookings_eq w st ref reported p b :
  bookings (reconciled w st ref reported p b)
  = match bookingStatus_of reported with
    | Some s => <[bookingId p := with_b_status s b]> (bookings st)
    | None => bookings st
    end.
Proof.
  unfold reconciled, reconciled_bookings.
  by destruct (bookingStatus_of reported).
Qed.

Lemma reconciled_outbox w st ref reported p b :
  payments st !! ref = Some p →
  outbox (reconciled w st ref reported p b)
  = outbox st ++ if decide (reported = "SUCCEEDED")
                 then confirmation_mails w st ref else [].
Proof.
  intros Hp. unfold reconciled, reconciled_bookings, bookingStatus_of.
  repeat case_decide; cbn; rewrite ?app_nil_r; try done.
  by rewrite confirmation_mails_payment_status.
Qed.

Lemma reconciled_webhookEvents w st ref reported p b :
  webhookEvents (reconciled w st ref reported p b) = webhookEvents st.
Proof.
  unfold reconciled, reconciled_bookings.
  by destruct (bookingStatus_of reported).
Qed.

(** An event that is applied, no database call failing. *)
Lemma apply_event_applied ev st xid ref p b s :
  event_data ev ≫= data_externalId = Some xid → xid ≠ "" →
  payment_of_externalId st xid ref p →
  bookings st !! bookingId p = Some b →
  reported_status ev = Some s →
  ∃ st', PaymentController.apply_event None ev st = (Ok received_true, st') ∧
    sleeps st' = sleeps st ∧
    data st' = data (reconciled true st ref s p b).
Proof.
  intros Hx Hne (Hp & Hxid & Huniq) Hb Hs.
  unfold PaymentController.apply_event, PaymentService.getPaymentByExternalId,
    prisma_payment_findFirst_externalId.
  rewrite Hx. cbn. rewrite bool_decide_eq_true_2 by done. munfold. cbn.
  rewrite (findFirst_unique _ _ ref p Hp Hxid Huniq). cbn.
  unfold reported_status in Hs.
  repeat case_decide; simplify_eq; cbn;
    match goal with
    | |- context [PaymentStatusService.updatePaymentStatusFromAPI
                    None ref ?s ?st0] =>
        destruct (updatePaymentStatusFromAPI_spec st0 ref s p b Hp Hb)
          as (st' & Hrun & Hsl & Hd);
        rewrite Hrun
    end;
    (eexists; split_and!; [done..|];
     rewrite data_set_logs, Hd; by apply reconciled_data).
Qed.

(** C4. A delivery that carries an event identifier already in the
    processed set is acknowledged and changes nothing (but the log).
    Consequently the second of two deliveries of one event changes nothing,
    whatever happened to the first; and when the first is applied, the
    booking of the payment is written once and the confirmation e-mails
    are sent once. *)
Theorem webhook_replay_is_noop secret req e :
  carries_eventId req e → signature_accepted secret req →
  (∀ failing st, e ∈ webhookEvents st →
     ∃ st', PaymentController.handleWebhook failing secret req st
              = (Ok received_true, st') ∧ data st' = data st) ∧
  (∀ failing failing' st,
     let st1 := (PaymentController.handleWebhook failing secret req st).2 in
     ∃ st2, PaymentController.handleWebhook failing' secret req st1
              = (Ok received_true, st2) ∧ data st2 = data st1) ∧
  (∀ st ev xid ref p b s,
     e ∉ webhookEvents st → body req = Some ev →
     event_data ev ≫= data_externalId = Some xid → xid ≠ "" →
     payment_of_externalId st xid ref p →
     bookings st !! bookingId p = Some b →
     reported_status ev = Some s →
     ∃ st1 st2,
       PaymentController.handleWebhook None secret req st
         = (Ok received_true, st1) ∧
       PaymentController.handleWebhook None secret req st1
         = (Ok received_true, st2) ∧
       bookings st2
         = match bookingStatus_of s with
           | Some bs => <[bookingId p := with_b_status bs b]> (bookings st)
           | None => bookings st
           end ∧
       outbox st2
         = outbox st ++ if decide (s = "SUCCEEDED")
                        then confirmation_mails true st ref else []).
Proof.
  intros Hreq Hsig. split_and!.
  - intros failing st He.
    destruct (handleWebhook_replay failing secret req e st Hreq Hsig He)
      as (st' & ? & ? & _). by exists st'.
  - intros failing failing' st st1.
    destruct (handleWebhook_replay failing' secret req e st1 Hreq Hsig)
      as (st2 & ? & ? & _); [by apply handleWebhook_records|].
    by exists st2.
  - intros st ev xid ref p b s He Hbody Hx Hne Hpay Hb Hs.
    destruct (handleWebhook_fresh None secret req e st Hreq Hsig He)
      as (ev' & st0 & Hbody' & Hd0 & _ & Hrun).
    assert (ev' = ev) as -> by congruence.
    set (ste := set_webhookEvents (λ s, {[e]} ∪ s) st0) in *.
    assert (data ste
            = data (set_webhookEvents (λ s, {[e]} ∪ s) st)) as Hde.
    { unfold data in *. cbn. by injection Hd0 as -> -> -> -> -> -> ->. }
    destruct (apply_event_applied ev ste xid ref p b s) as (st1 & Happ & _ & Hd1);
      [done|done| |by rewrite (data_bookings _ _ Hde)|done|].
    { unfold payment_of_externalId. by rewrite (data_payments _ _ Hde). }
    unfold try_catch in Hrun. rewrite Happ in Hrun.
    rewrite (reconciled_data _ _ _ _ _ _ _ Hde) in Hd1.
    destruct (handleWebhook_replay None secret req e st1 Hreq Hsig)
      as (st2 & Hrun2 & Hd2 & _).
    { rewrite (data_webhookEvents _ _ Hd1), reconciled_webhookEvents. cbn.
      apply elem_of_union. left. by apply elem_of_singleton. }
    exists st1, st2. split_and!; [done|done| |].
    + by rewrite (data_bookings _ _ Hd2), (data_bookings _ _ Hd1),
        reconciled_bookings_eq.
    + destruct Hpay as [Hp _].
      by rewrite (data_outbox _ _ Hd2), (data_outbox _ _ Hd1),
        reconciled_outbox.
Qed.

Lemma webhook_replay_is_noop_witness :
  let st := set_webhookEvents (λ s, {["txn_1"]} ∪ s)
              (Examples.paid BookingStatus.CONFIRMED PaymentStatus.SUCCEEDED) in
  ∃ st', PaymentController.handleWebhook None (Some "whsec")
           (Examples.completed "SUCCEEDED") st = (Ok received_true, st') ∧
    data st' = data st.
Proof.
  intros st.
  destruct (webhook_replay_is_noop (Some "whsec")
              (Examples.completed "SUCCEEDED") "txn_1") as (Hreplay & _).
  - eexists. split_and!; [reflexivity|reflexivity|done].
  - intros Hsig. vm_compute in Hsig. discriminate.
  - apply (Hreplay None st).
    apply elem_of_union. left. by apply elem_of_singleton.
Defined.

(** ** A database call fails while an event is applied *)

Ltac db_decide :=
  repeat match goal with
  | |- context [decide (?a = ?b)] =>
      lazymatch type of a with
      | DbCall => destruct (decide (a = b)); [try discriminate|try congruence]
      end
  end.

Lemma updatePaymentStatusFromAPI_failing c ref s st :
  c ≠ payment_findFirst →
  ∃ r st',
    PaymentStatusService.updatePaymentStatusFromAPI (Some c) ref s st
      = (Ok r, st') ∧
    bookings st' = bookings st ∧ outbox st' = outbox st ∧
    webhookEvents st' = webhookEvents st ∧
    (c = payment_update → payments st' = payments st).
Proof.
  intros Hc.
  unfold PaymentStatusService.updatePaymentStatusFromAPI,
    PaymentStatusService.updateBookingStatus, prisma_payment_update,
    prisma_payment_findUnique_include, prisma_booking_update.
  destruct c; [done| | |]; munfold; cbn; db_decide; cbn.
  - by eexists _, _.
  - destruct (payments st !! ref); cbn; db_decide; cbn; by eexists _, _.
  - destruct (payments st !! ref) as [p|]; cbn; [|by eexists _, _].
    db_decide. cbn. rewrite lookup_insert_eq. cbn.
    destruct (bookingStatus_of s); cbn; db_decide; cbn; by eexists _, _.
Qed.

Lemma apply_event_failing c ev st :
  ∃ r st',
    PaymentController.apply_event (Some c) ev st = (r, st') ∧
    bookings st' = bookings st ∧ outbox st' = outbox st ∧
    webhookEvents st' = webhookEvents st ∧
    (c = payment_findFirst ∨ c = payment_update →
     payments st' = payments st) ∧
    (c = payment_findFirst →
     truthy (event_data ev ≫= data_externalId) = true → r = Throw P1001).
Proof.
  unfold PaymentController.apply_event, PaymentService.getPaymentByExternalId,
    prisma_payment_findFirst_externalId.
  destruct (truthy _) eqn:Hx; cbn; [|by eexists _, _].
  destruct (decide (c = payment_findFirst)) as [->|Hc].
  { munfold. cbn. db_decide. cbn. by eexists _, _. }
  munfold. cbn. db_decide. cbn.
  destruct (findFirst _ _) as [[ref p]|]; cbn; [|by eexists _, _].
  assert (∀ s st0, ∃ st',
    (let (r, st'0) :=
       PaymentStatusService.updatePaymentStatusFromAPI (Some c) ref s st0 in
     match r with
     | Ok _ =>
         (Ok received_true,
          set_logs (λ l, l ++ [LogInfo
            ("Webhook processed successfully: " +:+ js_string (event ev)
             +:+ " for payment " +:+ ref)]) st'0)
     | Throw e => (Throw e, st'0)
     end) = (Ok received_true, st') ∧
    bookings st' = bookings st0 ∧ outbox st' = outbox st0 ∧
    webhookEvents st' = webhookEvents st0 ∧
    (c = payment_update → payments st' = payments st0)) as Hupd.
  { intros s st0.
    destruct (updatePaymentStatusFromAPI_failing c ref s st0 Hc)
      as (r & st' & -> & ? & ? & ? & ?).
    by eexists. }
  repeat case_decide; cbn;
    try (match goal with
         | |- context [PaymentStatusService.updatePaymentStatusFromAPI
                         (Some c) ref ?s ?st0] =>
             destruct (Hupd s st0) as (st' & -> & Hb & Ho & Hw & Hp)
         end; exists (Ok received_true), st'; cbn in *;
         split_and!; [done|done|done|done|intros [?|?]; by auto|done]);
    (eexists _, _; split_and!; done).
Qed.

(** C10. The handler records the event identifier before it looks the
    payment up and updates it. So when a database call [c] made after the
    record fails, the event is in the processed set all the same, the
    booking and the outbox are as before (and the payment too, when the
    failing call is the lookup or the payment update); a failing lookup
    makes the handler throw, which asks the gateway for a redelivery; and
    every redelivery, after whatever operations, is acknowledged as already
    processed and changes nothing: the effect of the event is never
    applied. *)
Theorem webhook_failure_drops_event secret req e c st :
  carries_eventId req e → signature_accepted secret req →
  e ∉ webhookEvents st →
  ∃ r1 st1,
    PaymentController.handleWebhook (Some c) secret req st = (r1, st1) ∧
    e ∈ webhookEvents st1 ∧
    bookings st1 = bookings st ∧ outbox st1 = outbox st ∧
    (c = payment_findFirst ∨ c = payment_update →
     payments st1 = payments st) ∧
    (c = payment_findFirst →
     (∃ ev, body req = Some ev ∧
        truthy (event_data ev ≫= data_externalId) = true) →
     r1 = Throw P1001) ∧
    ∀ ops failing',
      ∃ st3, PaymentController.handleWebhook failing' secret req
               (exec_all ops st1) = (Ok received_true, st3) ∧
        data st3 = data (exec_all ops st1).
Proof.
  intros Hreq Hsig He.
  destruct (handleWebhook_fresh (Some c) secret req e st Hreq Hsig He)
    as (ev & st0 & Hbody & Hd0 & _ & Hrun).
  set (ste := set_webhookEvents (λ s, {[e]} ∪ s) st0) in *.
  destruct (apply_event_failing c ev ste)
    as (r & st' & Happ & Hb & Ho & Hw & Hp & Hthrow).
  unfold try_catch in Hrun. rewrite Happ in Hrun.
  assert (∃ r1 st1,
    PaymentController.handleWebhook (Some c) secret req st = (r1, st1) ∧
    data st1 = data st' ∧ (∀ x, r = Throw x → r1 = Throw x))
    as (r1 & st1 & Hrun1 & Hd1 & Hr1).
  { destruct r as [a|x]; eexists _, _; (split; [exact Hrun|]);
      by split_and!. }
  exists r1, st1. split; [done|].
  assert (e ∈ webhookEvents st1) as He1.
  { rewrite (data_webhookEvents _ _ Hd1), Hw. cbn.
    apply elem_of_union. left. by apply elem_of_singleton. }
  split_and!; try done.
  - by rewrite (data_bookings _ _ Hd1), Hb, <- (data_bookings _ _ Hd0).
  - by rewrite (data_outbox _ _ Hd1), Ho, <- (data_outbox _ _ Hd0).
  - intros Hc. by rewrite (data_payments _ _ Hd1), Hp,
      <- (data_payments _ _ Hd0).
  - intros Hc (ev' & Hbody' & Hx). apply Hr1, Hthrow; [done|]. congruence.
  - intros ops failing'.
    destruct (handleWebhook_replay failing' secret req e (exec_all ops st1)
                Hreq Hsig) as (st3 & ? & ? & _); [|by exists st3].
    by eapply ext_webhookEvents; [apply exec_all_extends|].
Qed.

Lemma webhook_failure_drops_event_witness :
  ∃ st1,
    PaymentController.handleWebhook (Some payment_findFirst) (Some "whsec")
      (Examples.completed "SUCCEEDED")
      (Examples.paid BookingStatus.PENDING PaymentStatus.PENDING)
      = (Throw P1001, st1) ∧
    "txn_1" ∈ webhookEvents st1 ∧
    (∀ ops, ∃ st3,
       PaymentController.handleWebhook None (Some "whsec")
         (Examples.completed "SUCCEEDED") (exec_all ops st1)
         = (Ok received_true, st3) ∧
       data st3 = data (exec_all ops st1)).
Proof.
  destruct (webhook_failure_drops_event (Some "whsec")
              (Examples.completed "SUCCEEDED") "txn_1" payment_findFirst
              (Examples.paid BookingStatus.PENDING PaymentStatus.PENDING))
    as (r1 & st1 & Hrun & He & _ & _ & _ & Hthrow & Hre).
  - eexists. split_and!; [reflexivity|reflexivity|done].
  - intros Hsig. vm_compute in Hsig. discriminate.
  - cbn. apply not_elem_of_empty.
  - exists st1. rewrite Hrun, Hthrow; [|done|by eexists].
    split_and!; [done|done|]. intros ops. apply Hre.
Defined.

(** ** Reconciling a status again *)






(** ** A status outside the vocabulary *)

Lemma unrecognized_cases status :
  unrecognized status →
  status ≠ "PENDING" ∧ status ≠ "SUCCEEDED" ∧ status ≠ "FAILED" ∧
  status ≠ "CANCELLED".
Proof.
  unfold unrecognized. rewrite !not_elem_of_cons. tauto.
Qed.

(** C8, as stated, fails: a payment that is SUCCEEDED and is then reported
    with a status outside the vocabulary goes back to PENDING. *)
Lemma unrecognized_status_resets_payment :
  let st := Examples.paid BookingStatus.CONFIRMED PaymentStatus.SUCCEEDED in
  unrecognized "REFUNDED" ∧
  p_status <$> payments st !! "REF1" = Some PaymentStatus.SUCCEEDED ∧
  (∃ st', PaymentStatusService.updatePaymentStatusFromAPI None "REF1"
            "REFUNDED" st = (Ok PaymentStatusService.success_true, st') ∧
     p_status <$> payments st' !! "REF1" = Some PaymentStatus.PENDING) ∧
  (∃ st', PaymentService.getPaymentStatus
            (PaymentResponse "REF1" "cs_1" "REFUNDED" 10000) "REF1" st
            = (Ok "REFUNDED", st') ∧
     p_status <$> payments st' !! "REF1" = Some PaymentStatus.PENDING).
Proof.
  cbn zeta. split_and!; [|done| |];
    [|eexists; split_and!; by vm_compute..].
  unfold unrecognized. rewrite !not_elem_of_cons.
    split_and!; [done..|apply not_elem_of_nil].
Qed.

(** C8 (amended). A reported status outside the vocabulary is no error and
    touches neither the bookings nor the outbox, but the payment is written
    with the status PENDING, whatever status it had; the webhook path logs
    the reported status. *)
Theorem unrecognized_status_maps_to_pending st ref p reported r e a :
  unrecognized reported → payments st !! ref = Some p →
  PaymentService.mapPaymentStatus reported = PaymentStatus.PENDING ∧
  (∃ st', PaymentStatusService.updatePaymentStatusFromAPI None ref reported st
            = (Ok PaymentStatusService.success_true, st') ∧
     payments st'
       = <[ref := with_p_status PaymentStatus.PENDING p]> (payments st) ∧
     bookings st' = bookings st ∧ outbox st' = outbox st ∧
     LogInfo ("Updating payment " +:+ ref +:+ " to status: " +:+ reported)
       ∈ logs st') ∧
  (∃ st', PaymentService.getPaymentStatus (PaymentResponse r e reported a)
            ref st = (Ok reported, st') ∧
     payments st'
       = <[ref := with_p_status PaymentStatus.PENDING p]> (payments st) ∧
     bookings st' = bookings st ∧ outbox st' = outbox st).
Proof.
  intros (H1 & H2 & H3 & H4)%unrecognized_cases Hp.
  assert (PaymentService.mapPaymentStatus reported = PaymentStatus.PENDING)
    as Hmap.
  { unfold PaymentService.mapPaymentStatus. by repeat case_decide. }
  assert (bookingStatus_of reported = None) as Hnone.
  { unfold bookingStatus_of. by repeat case_decide. }
  split_and!; [done| |].
  - unfold PaymentStatusService.updatePaymentStatusFromAPI,
      PaymentStatusService.updateBookingStatus, prisma_payment_update,
      prisma_payment_findUnique_include.
    rewrite status_chain_eq_map, Hmap, Hnone. munfold. cbn.
    rewrite Hp. cbn. rewrite lookup_insert_eq. cbn.
    eexists. split_and!; [done..|]. cbn.
    rewrite !elem_of_app, !list_elem_of_singleton. auto.
  - unfold PaymentService.getPaymentStatus,
      PaymentService.updateBookingStatus, prisma_payment_update,
      prisma_payment_findUnique_include.
    rewrite Hmap, Hnone. munfold. cbn.
    rewrite Hp. cbn. rewrite lookup_insert_eq. cbn.
    by eexists.
Qed.

Lemma unrecognized_status_maps_to_pending_witness :
  PaymentService.mapPaymentStatus "REFUNDED" = PaymentStatus.PENDING.
Proof.
  apply (unrecognized_status_maps_to_pending
           (Examples.paid BookingStatus.CONFIRMED PaymentStatus.SUCCEEDED)
           "REF1" (Examples.paymentA PaymentStatus.SUCCEEDED) "REFUNDED"
           "REF1" "cs_1" 10000).
  - unfold unrecognized. rewrite !not_elem_of_cons.
    split_and!; [done..|apply not_elem_of_nil].
  - reflexivity.
Defined.

(** ** BookingService.cancel *)

Lemma findOne_own id u b st :
  bookings st !! id = Some b → userId b = u →
  findOne id u st
  = (Ok {| inc_id := id; inc_booking := b;
           inc_parkingSpot := parkingSpots st !! parkingSpotId b;
           inc_payment := findFirst (λ p, bookingId p = id) (payments st) |},
     st).
Proof.
  intros Hb Hu. unfold findOne, prisma_booking_findUnique,
    prisma_parkingSpot_findUnique, prisma_payment_findUnique_bookingId.
  munfold. cbn. rewrite Hb. cbn. by case_decide.
Qed.

(** C7. The requester cancels a PENDING booking whose payment is PENDING:
    the one call sets the booking and the payment to CANCELLED. The
    requester cancels a COMPLETED or CANCELLED booking: the call fails with
    the error of an invalid transition and the state is as before. *)
Theorem cancel_booking_and_payment st id u b :
  bookings st !! id = Some b → userId b = u →
  (∀ ref p,
     b_status b = BookingStatus.PENDING →
     payment_of_booking st id ref p → p_status p = PaymentStatus.PENDING →
     ∃ st', cancel id u st
              = (Ok (id, with_b_status BookingStatus.CANCELLED b), st') ∧
       bookings st'
         = <[id := with_b_status BookingStatus.CANCELLED b]> (bookings st) ∧
       payments st'
         = <[ref := with_p_status PaymentStatus.CANCELLED p]> (payments st)) ∧
  (b_status b = BookingStatus.COMPLETED ∨
   b_status b = BookingStatus.CANCELLED →
   cancel id u st = (Throw (InvalidStateTransition (b_status b)), st)).
Proof.
  intros Hb Hu. split.
  - intros ref p Hs (Hp & Hid & Huniq) Hps.
    unfold cancel, prisma_payment_findUnique_bookingId, prisma_payment_update,
      prisma_booking_update.
    munfold. rewrite (findOne_own id u b st Hb Hu). cbn.
    rewrite (findFirst_unique _ _ ref p Hp Hid Huniq).
    repeat case_decide; try congruence. cbn.
    rewrite (findFirst_unique _ _ ref p Hp Hid Huniq).
    case_decide; [|done]. cbn. rewrite Hp. cbn. rewrite Hb.
    by eexists.
  - intros Hs. unfold cancel. munfold.
    rewrite (findOne_own id u b st Hb Hu). cbn.
    destruct Hs as [-> | ->]; by repeat case_decide.
Qed.

Lemma cancel_booking_and_payment_witness :
  ∃ st', cancel "b1" "alice"
           (Examples.paid BookingStatus.PENDING PaymentStatus.PENDING)
         = (Ok ("b1", with_b_status BookingStatus.CANCELLED Examples.bookingA),
            st') ∧
    bookings st' = bookings
      (Examples.paid BookingStatus.CANCELLED PaymentStatus.CANCELLED) ∧
    payments st' = payments
      (Examples.paid BookingStatus.CANCELLED PaymentStatus.CANCELLED).
Proof.
  destruct (cancel_booking_and_payment
              (Examples.paid BookingStatus.PENDING PaymentStatus.PENDING)
              "b1" "alice"
              (with_b_status BookingStatus.PENDING Examples.bookingA)
              eq_refl eq_refl) as [Hcancel _].
  destruct (Hcancel "REF1" (Examples.paymentA PaymentStatus.PENDING))
    as (st' & Hrun & Hb & Hp); [done| |done|].
  - split_and!; [done|done|]. intros ref' p'. cbn.
    rewrite lookup_insert_Some, lookup_empty. by intros [[<- _]|[_ [=]]] _.
  - exists st'. split_and!; [exact Hrun| |].
    + rewrite Hb. cbn. by rewrite insert_insert_eq.
    + rewrite Hp. cbn. by rewrite insert_insert_eq.
Defined.

(** ** The price of a booking *)

Lemma Math_round_nearest x q :
  Number_value x = Some q →
  (inject_Z (Qfloor (q + (1 # 2))) - (1 # 2) <= q)%Q ∧
  (q < inject_Z (Qfloor (q + (1 # 2))) + (1 # 2))%Q ∧
  Math_round x = Number_of_integer (Number_sign x) (Qfloor (q + (1 # 2))).
Proof.
  intros Hq. unfold Math_round. rewrite Hq.
  pose proof (Qfloor_le (q + (1 # 2))) as Hle.
  pose proof (Qlt_floor (q + (1 # 2))) as Hlt.
  rewrite inject_Z_plus in Hlt. change (inject_Z 1) with 1%Q in Hlt.
  split_and!; [lra|lra|done].
Qed.

(** C6, as stated, fails: twenty minutes at 100 an hour cost 33.33 in the
    code (the double nearest to 33.33, which is what [3333 / 100] gives),
    and 33.34 with [ceil_to_cents]; the two are more than half a cent
    apart. *)
Lemma totalPrice_is_not_ceil :
  ∃ b st' price rate,
    create Examples.dtoC "bob" 0 "b2" Examples.vacant = (Ok ("b2", b), st') ∧
    totalPrice b = Number_div (Number_of_Z 3333) (Number_of_Z 100) ∧
    Number_value (totalPrice b) = Some price ∧
    Number_value (pricePerHour Examples.spot1) = Some rate ∧
    (ceil_to_cents (hours (dto_startTime Examples.dtoC)
                          (dto_endTime Examples.dtoC) * rate)
     == 3334 # 100)%Q ∧
    (price + (1 # 200)
     < ceil_to_cents (hours (dto_startTime Examples.dtoC)
                            (dto_endTime Examples.dtoC) * rate))%Q.
Proof.
  eexists _, _, _, _. split_and!; [by vm_compute..| |]; by vm_compute.
Qed.

(** The rounding is that of the double product, not of the product over
    the real numbers: nine minutes at 1.5 an hour make 22.5 cents, the
    doubles give 22.499999999999996, and the price is 0.22. *)
Lemma totalPrice_rounds_the_double_product :
  ∃ b st' product,
    create Examples_dto9 "bob" 0 "b2" Examples_vacant15
      = (Ok ("b2", b), st') ∧
    (hours (dto_startTime Examples_dto9) (dto_endTime Examples_dto9)
     * (3 # 2) * 100 == 45 # 2)%Q ∧
    Number_value
      (cents_of (dto_startTime Examples_dto9) (dto_endTime Examples_dto9)
         (pricePerHour Examples_spot15)) = Some product ∧
    (product < 45 # 2)%Q ∧
    totalPrice b = Number_div (Number_of_Z 22) (Number_of_Z 100).
Proof.
  eexists _, _, _. split_and!; by vm_compute.
Qed.

(** C6 (amended). The price of a created booking is
    [Math.round(hours * pricePerHour * 100) / 100] in double arithmetic:
    the double product [hours * pricePerHour * 100] is rounded to the
    nearest integer number of cents, a half going up, and divided by 100.
    It is computed when the booking is created and no operation of the core
    changes it afterwards. *)
Theorem totalPrice_rounded_and_immutable dto u now newId st r st' :
  create dto u now newId st = (Ok r, st') →
  ∃ spot,
    parkingSpots st !! dto_parkingSpotId dto = Some spot ∧
    r.1 = newId ∧ bookings st' !! newId = Some r.2 ∧
    (let product := cents_of (dto_startTime dto) (dto_endTime dto)
                             (pricePerHour spot) in
     totalPrice r.2 = Number_div (Math_round product) (Number_of_Z 100) ∧
     ∀ q, Number_value product = Some q →
       ∃ cents : Z,
         (inject_Z cents - (1 # 2) <= q)%Q ∧ (q < inject_Z cents + (1 # 2))%Q ∧
         Math_round product = Number_of_integer (Number_sign product) cents) ∧
    ∀ ops, ∃ b', bookings (exec_all ops st') !! newId = Some b' ∧
                 totalPrice b' = totalPrice r.2.
Proof.
  intros (spot & Hspot & _ & _ & _ & -> & ->)%create_Ok_inv.
  exists spot. cbn [fst snd].
  split; [done|]. split; [done|]. split; [apply lookup_insert_eq|]. split.
  - cbv zeta. split; [done|]. intros q Hq.
    exists (Qfloor (q + (1 # 2))). by apply Math_round_nearest.
  - intros ops.
    destruct (ext_bookings _ _ (exec_all_extends ops
                (set_bookings <[newId := new_booking dto u spot]> st))
                newId (new_booking dto u spot)) as [s Hs].
    { cbn. apply lookup_insert_eq. }
    by eexists.
Qed.

(** The 09:00-10:00 booking at 100 an hour costs 100.00. *)
Lemma totalPrice_rounded_and_immutable_witness :
  ∃ b st',
    create Examples.dtoA "alice" 0 "b1" Examples.vacant
      = (Ok ("b1", b), st') ∧
    totalPrice b = Number_of_Z 100 ∧
    ∀ ops, ∃ b', bookings (exec_all ops st') !! "b1" = Some b' ∧
                 totalPrice b' = totalPrice b.
Proof.
  destruct (totalPrice_rounded_and_immutable Examples.dtoA "alice" 0 "b1"
              Examples.vacant ("b1", Examples.bookingA) Examples.booked)
    as (spot & Hspot & _ & _ & Hprice & Hkeep); [by vm_compute|].
  exists Examples.bookingA, Examples.booked.
  split_and!; [by vm_compute|by vm_compute|exact Hkeep].
Defined.

(** ** The status poller *)

Lemma delayMs_seconds i : Z.min (2 ^ i * 1000) 30000 = 1000 * Z.min (2 ^ i) 30.
Proof.
  rewrite <- Z.mul_min_distr_nonneg_l by lia. f_equal; lia.
Qed.

Lemma not_terminal_bookingStatus_of s :
  ¬ terminal_status s → bookingStatus_of s = None.
Proof.
  unfold terminal_status, bookingStatus_of. intros Hs.
  repeat case_decide; tauto.
Qed.

Lemma not_terminal_mapPaymentStatus s :
  ¬ terminal_status s →
  PaymentService.mapPaymentStatus s = PaymentStatus.PENDING.
Proof.
  unfold terminal_status, PaymentService.mapPaymentStatus. intros Hs.
  repeat case_decide; tauto.
Qed.

(** An attempt that does not meet a terminal status: it waits and the loop
    goes on; the payment is written PENDING when the gateway answered. *)
Lemma poll_attempt_waiting answer ref maxAttempts i st p :
  payments st !! ref = Some p → ¬ reports_terminal answer →
  ∃ st',
    PaymentService.poll_attempt answer ref maxAttempts i st = (Ok None, st') ∧
    bookings st' = bookings st ∧ outbox st' = outbox st ∧
    (∃ s, payments st' !! ref = Some (with_p_status s p)) ∧
    (p_status p = PaymentStatus.PENDING → payments st' = payments st) ∧
    sleeps st' = sleeps st ++ waits answer maxAttempts i.
Proof.
  intros Hp Hnt.
  unfold PaymentService.poll_attempt, PaymentService.getPaymentStatus,
    PaymentService.updateBookingStatus, PaymentService.delay, waits,
    prisma_payment_update, prisma_payment_findUnique_include.
  assert (∃ s, payments st !! ref = Some (with_p_status s p)) as Hsame
    by by (exists (p_status p); rewrite with_p_status_id).
  destruct answer as [|msg|r e s a]; munfold; cbn.
  - case_decide; cbn; eexists; split_and!; try done; by rewrite app_nil_r.
  - case_decide; cbn; eexists; split_and!; try done; by rewrite app_nil_r.
  - cbn in Hnt. rewrite Hp. cbn. rewrite lookup_insert_eq. cbn.
    rewrite (not_terminal_bookingStatus_of s Hnt),
      (not_terminal_mapPaymentStatus s Hnt). cbn.
    case_decide; [done|]. cbn. rewrite delayMs_seconds.
    eexists. split_and!; try done.
    + exists PaymentStatus.PENDING. apply lookup_insert_eq.
    + intros Hs. rewrite <- Hs, with_p_status_id. by apply insert_id.
Qed.

(** The attempt that meets a terminal status returns it, without a wait. *)
Lemma poll_attempt_terminal r e s a ref maxAttempts i st p b :
  payments st !! ref = Some p → bookings st !! bookingId p = Some b →
  terminal_status s →
  ∃ st',
    PaymentService.poll_attempt (PaymentResponse r e s a) ref maxAttempts i st
      = (Ok (Some s), st') ∧
    sleeps st' = sleeps st ∧
    data st' = data (reconciled false st ref s p b).
Proof.
  intros Hp Hb Hs. unfold PaymentService.poll_attempt. munfold.
  destruct (getPaymentStatus_spec st ref s p b r e a Hp Hb)
    as (st' & -> & Hsl & Hd).
  cbn. case_decide; [|done]. cbn. by eexists.
Qed.

Lemma poll_loop_timeout gateway ref maxAttempts todo :
  ∀ i st p,
    payments st !! ref = Some p →
    (∀ j, i ≤ j < i + Z.of_nat todo → ¬ reports_terminal (gateway j)) →
    ∃ st',
      PaymentService.poll_loop gateway ref maxAttempts todo i st
        = (Throw PaymentService.PollTimeout, st') ∧
      bookings st' = bookings st ∧ outbox st' = outbox st ∧
      (p_status p = PaymentStatus.PENDING → payments st' = payments st) ∧
      sleeps st' = sleeps st ++
        mjoin ((λ j, waits (gateway j) maxAttempts j)
                 <$> seqZ i (Z.of_nat todo)).
Proof.
  induction todo as [|todo IH]; intros i st p Hp Hnt.
  - cbn. munfold. cbn. eexists. split_and!; try done. by rewrite app_nil_r.
  - cbn [PaymentService.poll_loop]. munfold.
    destruct (poll_attempt_waiting (gateway i) ref maxAttempts i st p Hp)
      as (st1 & -> & Hb1 & Ho1 & [s Hp1] & Hpend1 & Hs1); [apply Hnt; lia|].
    destruct (IH (i + 1) st1 (with_p_status s p) Hp1)
      as (st' & -> & Hb & Ho & Hpend & Hs); [intros j ?; apply Hnt; lia|].
    exists st'. split_and!; [done|congruence|congruence| |].
    + intros Hpp. specialize (Hpend1 Hpp). rewrite <- Hpend1. apply Hpend.
      rewrite Hpend1, Hp in Hp1. by injection Hp1 as <-.
    + rewrite Hs, Hs1, <- app_assoc. f_equal.
      rewrite (seqZ_cons i) by lia. cbn.
      replace (Z.succ i) with (i + 1) by lia.
      by replace (Z.pred (Z.of_nat (S todo))) with (Z.of_nat todo) by lia.
Qed.

Lemma poll_loop_terminal gateway ref maxAttempts r e s a :
  terminal_status s →
  ∀ n todo i st p b,
    (n < todo)%nat →
    payments st !! ref = Some p → bookings st !! bookingId p = Some b →
    (∀ j, i ≤ j < i + Z.of_nat n → ¬ reports_terminal (gateway j)) →
    gateway (i + Z.of_nat n) = PaymentResponse r e s a →
    ∃ st',
      PaymentService.poll_loop gateway ref maxAttempts todo i st
        = (Ok s, st') ∧
      p_status <$> payments st' !! ref
        = Some (PaymentService.mapPaymentStatus s) ∧
      b_status <$> bookings st' !! bookingId p = bookingStatus_of s ∧
      sleeps st' = sleeps st ++
        mjoin ((λ j, waits (gateway j) maxAttempts j)
                 <$> seqZ i (Z.of_nat n)).
Proof.
  intros Hs. induction n as [|n IH]; intros [|todo] i st p b Hlt Hp Hb Hnt Hgw;
    try lia; cbn [PaymentService.poll_loop]; munfold.
  - rewrite Z.add_0_r in Hgw. rewrite Hgw.
    destruct (poll_attempt_terminal r e s a ref maxAttempts i st p b Hp Hb Hs)
      as (st' & -> & Hsl & Hd).
    exists st'. split_and!; [done| | |by rewrite Hsl, app_nil_r].
    + by rewrite (data_payments _ _ Hd), reconciled_payments, lookup_insert_eq.
    + rewrite (data_bookings _ _ Hd).
      unfold reconciled. rewrite reconciled_bookings_status.
      destruct Hs as [->|[->| ->]]; done.
  - destruct (poll_attempt_waiting (gateway i) ref maxAttempts i st p Hp)
      as (st1 & -> & Hb1 & Ho1 & [s1 Hp1] & _ & Hs1); [apply Hnt; lia|].
    destruct (IH todo (i + 1) st1 (with_p_status s1 p) b)
      as (st' & -> & Hps & Hbs & Hsl);
      [lia|done|by rewrite Hb1|intros j ?; apply Hnt; lia| |].
    { rewrite <- Hgw. f_equal. lia. }
    exists st'. split_and!; [done|done|done|].
    rewrite Hsl, Hs1, <- app_assoc. f_equal.
    rewrite (seqZ_cons i) by lia. cbn.
    replace (Z.succ i) with (i + 1) by lia.
    by replace (Z.pred (Z.of_nat (S n))) with (Z.of_nat n) by lia.
Qed.

(** C9. [pollPaymentStatus] called without [maxAttempts] makes at most 20
    attempts. When attempt [k] is the first whose fetch reports SUCCEEDED,
    FAILED or CANCELLED, the poll returns that status at once, having
    waited after each earlier attempt [i] for [min(2^i, 30)] seconds when
    the payment was still pending (5 seconds when the fetch failed). When
    no attempt reports a terminal status the poll fails with the timeout
    error, the bookings are as before and a PENDING payment is still
    PENDING. *)
Theorem poll_returns_terminal_or_times_out gateway ref st p b :
  payments st !! ref = Some p → bookings st !! bookingId p = Some b →
  PaymentService.pollPaymentStatus gateway ref None
    = PaymentService.pollPaymentStatus gateway ref (Some 20) ∧
  (∀ k r e s a,
     0 ≤ k < 20 → (∀ j, 0 ≤ j < k → ¬ reports_terminal (gateway j)) →
     gateway k = PaymentResponse r e s a → terminal_status s →
     ∃ st',
       PaymentService.pollPaymentStatus gateway ref None st = (Ok s, st') ∧
       sleeps st' = sleeps st ++
         mjoin ((λ i, waits (gateway i) 20 i) <$> seqZ 0 k)) ∧
  ((∀ j, 0 ≤ j < 20 → ¬ reports_terminal (gateway j)) →
   ∃ st',
     PaymentService.pollPaymentStatus gateway ref None st
       = (Throw PaymentService.PollTimeout, st') ∧
     bookings st' = bookings st ∧
     (p_status p = PaymentStatus.PENDING → payments st' = payments st) ∧
     sleeps st' = sleeps st ++
       mjoin ((λ i, waits (gateway i) 20 i) <$> seqZ 0 20)) ∧
  (∀ i r e s a, waits (PaymentResponse r e s a) 20 i = [1000 * Z.min (2 ^ i) 30]).
Proof.
  intros Hp Hb. split_and!; [done| | |done].
  - intros k r e s a Hk Hnt Hgw Hs.
    unfold PaymentService.pollPaymentStatus. cbn [default].
    destruct (poll_loop_terminal gateway ref 20 r e s a Hs (Z.to_nat k)
                (Z.to_nat 20) 0 st p b) as (st' & Hrun & _ & _ & Hsl);
      [lia|done|done|intros j ?; apply Hnt; lia| |].
    { rewrite <- Hgw. f_equal. lia. }
    exists st'. split; [done|]. by rewrite Hsl, Z2Nat.id by lia.
  - intros Hnt. unfold PaymentService.pollPaymentStatus. cbn [default].
    destruct (poll_loop_timeout gateway ref 20 (Z.to_nat 20) 0 st p Hp)
      as (st' & Hrun & Hbk & _ & Hpend & Hsl); [intros j ?; apply Hnt; lia|].
    by exists st'.
Qed.

Lemma poll_returns_terminal_or_times_out_witness :
  ∃ st',
    PaymentService.pollPaymentStatus Examples.gateway "REF1" None
      (Examples.paid BookingStatus.PENDING PaymentStatus.PENDING)
    = (Ok "FAILED", st') ∧
    sleeps st' = [1000; 2000; 4000; 8000; 16000].
Proof.
  destruct (poll_returns_terminal_or_times_out Examples.gateway "REF1"
              (Examples.paid BookingStatus.PENDING PaymentStatus.PENDING)
              (Examples.paymentA PaymentStatus.PENDING)
              (with_b_status BookingStatus.PENDING Examples.bookingA)
              eq_refl eq_refl) as (_ & Hterminal & _).
  destruct (Hterminal 5 "REF1" "cs_1" "FAILED" 10000)
    as (st' & Hrun & Hsl); [lia| |done|by right; left|].
  - intros j Hj. unfold Examples.gateway. case_decide; [|lia].
    cbn. unfold terminal_status. intros [|[|]]; discriminate.
  - exists st'. split; [exact Hrun|]. rewrite Hsl. reflexivity.
Defined.

(** * Further properties of the code *)

(** ** BookingService.create: when it succeeds and what it writes *)

(** A request is accepted exactly when it passes the checks on the spot and
    on the times, no active booking of the spot overlaps it and the new
    identifier is free. *)
Theorem create_succeeds_iff dto u now newId st :
  intervals_wf st →
  (∃ b st', create dto u now newId st = (Ok (newId, b), st')) ↔
  valid_request st dto u now ∧ bookings st !! newId = None ∧
  ¬ ∃ id b, bookings st !! id = Some b ∧
      parkingSpotId b = dto_parkingSpotId dto ∧ active b ∧
      intervals_conflict (dto_startTime dto) (dto_endTime dto)
                         (startTime b) (endTime b).
Proof.
  intros Hwf. split.
  - intros (b & st' & Hc).
    destruct (create_Ok_inv _ _ _ _ _ _ _ Hc)
      as (spot & _ & Hv & Hq & Hfresh & _).
    split_and!; [done..|].
    intros (id & c & Hid & Hrest). rewrite findFirst_None in Hq.
    destruct Hv as (? & _ & _ & _ & Hlt & _).
    apply (Hq id c Hid), overlap_where_spec; [done|by eapply Hwf|done].
  - intros (Hv & Hfresh & Hfree).
    pose proof Hv as (spot & Hspot & Happr & Hown & Hlt & Hnow).
    rewrite (create_valid _ _ _ _ _ spot) by done.
    destruct (findFirst _ _) as [[id c]|] eqn:Hq.
    + apply findFirst_Some in Hq as [Hid Hw]. destruct Hfree.
      exists id, c. split; [done|].
      by apply overlap_where_spec in Hw; [|done|eapply Hwf].
    + unfold prisma_booking_create. rewrite Hfresh. by eexists _, _.
Qed.

Lemma create_succeeds_iff_witness :
  ∃ b st', create Examples.dtoA "alice" 0 "b1" Examples.vacant
           = (Ok ("b1", b), st').
Proof.
  apply (create_succeeds_iff Examples.dtoA "alice" 0 "b1" Examples.vacant).
  - intros id b. cbn. by rewrite lookup_empty.
  - split_and!.
    + exists Examples.spot1. split; [reflexivity|].
      split_and!; [done|done|by vm_compute..].
    + reflexivity.
    + intros (id & b & Hb & _). cbn in Hb. by rewrite lookup_empty in Hb.
Defined.

(** What a call of [create] does to the state: a rejected request leaves
    it exactly as it was; an accepted one inserts one booking under the new
    identifier, PENDING, of the requester, over the requested interval,
    which is not empty and does not start in the past. *)
Theorem create_effect dto u now newId st :
  match create dto u now newId st with
  | (Ok (id, b), st') =>
      id = newId ∧ bookings st !! newId = None ∧
      st' = set_bookings <[newId := b]> st ∧
      b_status b = BookingStatus.PENDING ∧ userId b = u ∧
      parkingSpotId b = dto_parkingSpotId dto ∧
      startTime b = dto_startTime dto ∧ endTime b = dto_endTime dto ∧
      now ≤ startTime b < endTime b
  | (Throw _, st') => st' = st
  end.
Proof.
  destruct (create dto u now newId st) as [[[id b]|e] st'] eqn:Hc.
  - apply create_Ok_inv in Hc
      as (spot & _ & (? & _ & _ & _ & Hlt & Hnow) & _ & Hfresh & [= -> ->] & ->).
    cbn. by split_and!.
  - by eapply create_Throw_inv.
Qed.

(** ** Relations that the operations respect *)

Section respects.
Variable R : State → State → Prop.
Hypothesis R_refl : ∀ st, R st st.
Hypothesis R_trans : ∀ st1 st2 st3, R st1 st2 → R st2 st3 → R st1 st3.
Hypothesis R_logs : ∀ f st, R st (set_logs f st).
Hypothesis R_sleeps : ∀ f st, R st (set_sleeps f st).
Hypothesis R_pmo : ∀ o b g st,
  R st (set_outbox (λ l, l ++ [PmoEmail o b g]) st).
Hypothesis R_system : ∀ g b st,
  R st (set_outbox (λ l, l ++ [SystemEmail g b]) st).
Hypothesis R_webhookEvents : ∀ f st, R st (set_webhookEvents f st).
Hypothesis R_booking_status : ∀ id s b st,
  bookings st !! id = Some b →
  R st (set_bookings <[id := with_b_status s b]> st).
Hypothesis R_payment_status : ∀ ref s p st,
  payments st !! ref = Some p →
  R st (set_payments <[ref := with_p_status s p]> st).

Lemma respects_ret {A} (a : A) : respects R (mret a).
Proof. intros st. apply R_refl. Qed.

Lemma respects_throw {A} e : respects R (@throw A e).
Proof. intros st. apply R_refl. Qed.

Lemma respects_gets {A} (f : State → A) : respects R (gets f).
Proof. intros st. apply R_refl. Qed.

Lemma respects_bind {A B} (m : M A) (k : A → M B) :
  respects R m → (∀ a, respects R (k a)) → respects R (m ≫= k).
Proof.
  intros Hm Hk st. specialize (Hm st). munfold.
  destruct (m st) as [[a|e] st1]; [|done].
  eapply R_trans; [done|]. apply Hk.
Qed.

Lemma respects_try_catch {A} (m : M A) (h : Exception → M A) :
  respects R m → (∀ e, respects R (h e)) → respects R (try_catch m h).
Proof.
  intros Hm Hh st. specialize (Hm st). munfold.
  destruct (m st) as [[a|e] st1]; [done|].
  eapply R_trans; [done|]. apply Hh.
Qed.

Lemma respects_db {A} failing call (m : M A) :
  respects R m → respects R (db failing call m).
Proof.
  intros Hm. unfold db. destruct failing; [case_decide|]; try done.
Qed.

Lemma respects_logger_log msg : respects R (logger_log msg).
Proof. intros st. apply R_logs. Qed.

Lemma respects_logger_warn msg : respects R (logger_warn msg).
Proof. intros st. apply R_logs. Qed.

Lemma respects_logger_error msg : respects R (logger_error msg).
Proof. intros st. apply R_logs. Qed.

Lemma respects_delay ms : respects R (PaymentService.delay ms).
Proof. intros st. apply R_sleeps. Qed.

Lemma respects_sendPmoEmail o b g :
  respects R (gmailService_sendPmoEmail o b g).
Proof. intros st. apply R_pmo. Qed.

Lemma respects_sendSystemEmail g b :
  respects R (gmailService_sendSystemEmail g b).
Proof. intros st. apply R_system. Qed.

Lemma respects_record_event e :
  respects R (modify (set_webhookEvents (λ s, {[e]} ∪ s))).
Proof. intros st. apply R_webhookEvents. Qed.

Lemma respects_booking_update id s : respects R (prisma_booking_update id s).
Proof.
  intros st. unfold prisma_booking_update.
  destruct (bookings st !! id) eqn:Hb; cbn; [by apply R_booking_status|done].
Qed.

Lemma respects_payment_update ref s :
  respects R (prisma_payment_update ref s).
Proof.
  intros st. unfold prisma_payment_update.
  destruct (payments st !! ref) eqn:Hp; cbn; [by apply R_payment_status|done].
Qed.

Ltac respects_step :=
  lazymatch goal with
  | |- respects _ (mbind _ _) => apply respects_bind; [|intros ?]
  | |- respects _ (try_catch _ _) => apply respects_try_catch; [|intros ?]
  | |- respects _ (db _ _ _) => apply respects_db
  | |- respects _ (if ?c then _ else _) => destruct c
  | |- respects _ (match ?x with _ => _ end) => destruct x
  | |- respects _ (let _ := _ in _) => cbv zeta
  | |- respects _ (mret _) => apply respects_ret
  | |- respects _ (throw _) => apply respects_throw
  | |- respects _ (gets _) => apply respects_gets
  | |- respects _ (logger_log _) => apply respects_logger_log
  | |- respects _ (logger_warn _) => apply respects_logger_warn
  | |- respects _ (logger_error _) => apply respects_logger_error
  | |- respects _ (PaymentService.delay _) => apply respects_delay
  | |- respects _ (gmailService_sendPmoEmail _ _ _) =>
      apply respects_sendPmoEmail
  | |- respects _ (gmailService_sendSystemEmail _ _) =>
      apply respects_sendSystemEmail
  | |- respects _ (modify (set_webhookEvents _)) => apply respects_record_event
  | |- respects _ (prisma_booking_update _ _) => apply respects_booking_update
  | |- respects _ (prisma_payment_update _ _) => apply respects_payment_update
  | |- respects _ _ => solve [auto]
  end.

Ltac solve_respects := repeat respects_step.

Lemma respects_sendGuestConfirmationEmail payment :
  respects R (sendGuestConfirmationEmail payment).
Proof. unfold sendGuestConfirmationEmail. solve_respects. Qed.

Lemma respects_sendBookingConfirmationEmail owner_of payment :
  (∀ sp, respects R (owner_of sp)) →
  respects R (sendBookingConfirmationEmail owner_of payment).
Proof. intros ?. unfold sendBookingConfirmationEmail. solve_respects. Qed.

Lemma respects_status_updateBookingStatus failing ref s :
  respects R (PaymentStatusService.updateBookingStatus failing ref s).
Proof.
  pose proof respects_sendGuestConfirmationEmail.
  unfold PaymentStatusService.updateBookingStatus,
    prisma_payment_findUnique_include.
  solve_respects.
  apply respects_sendBookingConfirmationEmail. intros sp.
  unfold owner_loaded. solve_respects.
Qed.

Lemma respects_updatePaymentStatusFromAPI failing ref s :
  respects R (PaymentStatusService.updatePaymentStatusFromAPI failing ref s).
Proof.
  pose proof respects_status_updateBookingStatus.
  unfold PaymentStatusService.updatePaymentStatusFromAPI. solve_respects.
Qed.

(** The guest e-mail of a payment loaded without the owner of its spot:
    the template throws, nothing is sent. *)
Lemma respects_sendGuestConfirmationEmail_unloaded payment :
  (∀ b sp, tree_of_booking payment = Some b → tree_parkingSpot b = Some sp →
           tree_owner sp = None) →
  respects R (sendGuestConfirmationEmail payment).
Proof.
  intros Hown st. unfold sendGuestConfirmationEmail. munfold.
  destruct (tree_of_booking payment) as [b|] eqn:Hb; cbn; [|apply R_logs].
  destruct (tree_user b); cbn; [|apply R_logs].
  destruct (tree_parkingSpot b) as [sp|] eqn:Hsp; cbn; [|apply R_logs].
  rewrite (Hown b sp eq_refl Hsp). cbn. apply R_logs.
Qed.

Lemma include_booking_unloaded st id b sp :
  include_booking false st id = Some b → tree_parkingSpot b = Some sp →
  tree_owner sp = None.
Proof.
  unfold include_booking. destruct (bookings st !! id); [|done].
  intros [= <-]. cbn. destruct (parkingSpots st !! _); [|done].
  by intros [= <-].
Qed.

Lemma respects_service_updateBookingStatus ref s :
  respects R (PaymentService.updateBookingStatus ref s).
Proof.
  intros st. unfold PaymentService.updateBookingStatus,
    prisma_payment_findUnique_include.
  unfold mbind at 1, M_mbind, M_bind, gets. cbn [fst snd].
  destruct (payments st !! ref) as [p|]; cbn [mbind option_bind];
    [|apply R_refl].
  set (payment := {| tree_referenceNumber := ref; tree_payment := p;
                     tree_of_booking := include_booking false st (bookingId p) |}).
  assert (∀ b sp, tree_of_booking payment = Some b →
                  tree_parkingSpot b = Some sp → tree_owner sp = None) as Hown.
  { intros b sp. apply include_booking_unloaded. }
  clearbody payment.
  pose proof (respects_sendGuestConfirmationEmail_unloaded payment Hown).
  match goal with
  | |- R st (?m st).2 => assert (respects R m) as Hm; [|exact (Hm st)]
  end.
  solve_respects.
  apply respects_sendBookingConfirmationEmail. intros sp.
  unfold owner_queried. solve_respects.
Qed.

Lemma respects_getPaymentStatus answer ref :
  respects R (PaymentService.getPaymentStatus answer ref).
Proof.
  pose proof respects_service_updateBookingStatus.
  unfold PaymentService.getPaymentStatus. solve_respects.
Qed.

Lemma respects_poll_attempt answer ref n i :
  respects R (PaymentService.poll_attempt answer ref n i).
Proof.
  pose proof respects_getPaymentStatus.
  unfold PaymentService.poll_attempt. solve_respects.
Qed.

Lemma respects_pollPaymentStatus gateway ref n :
  respects R (PaymentService.pollPaymentStatus gateway ref n).
Proof.
  pose proof respects_poll_attempt.
  unfold PaymentService.pollPaymentStatus.
  generalize (Z.to_nat (default 20 n)) 0.
  intros todo. induction todo as [|todo IH]; intros i; cbn; solve_respects.
Qed.

Lemma respects_findOne id u : respects R (findOne id u).
Proof.
  unfold findOne, prisma_booking_findUnique, prisma_parkingSpot_findUnique,
    prisma_payment_findUnique_bookingId.
  solve_respects.
Qed.

Lemma respects_cancel id u : respects R (cancel id u).
Proof.
  pose proof respects_findOne.
  unfold cancel, prisma_payment_findUnique_bookingId. solve_respects.
Qed.

Lemma respects_devCancel production id u :
  respects R (devCancel production id u).
Proof.
  pose proof respects_findOne. unfold devCancel. solve_respects.
Qed.

Lemma respects_handleWebhook failing secret req :
  respects R (PaymentController.handleWebhook failing secret req).
Proof.
  pose proof respects_updatePaymentStatusFromAPI.
  unfold PaymentController.handleWebhook, PaymentController.verify_signature,
    PaymentController.process_event, PaymentController.mark_processed,
    PaymentController.apply_event, PaymentService.getPaymentByExternalId,
    prisma_payment_findFirst_externalId.
  solve_respects.
Qed.
End respects.

(** ** Rows are created by [create] and [createPayment] only *)

Lemma same_rows_refl st : same_rows st st.
Proof. by repeat split. Qed.

Lemma same_rows_trans st1 st2 st3 :
  same_rows st1 st2 → same_rows st2 st3 → same_rows st1 st3.
Proof.
  intros (?&?&?&?&?) (?&?&?&?&?). repeat split; congruence.
Qed.

Lemma same_rows_booking_status id s b st :
  bookings st !! id = Some b →
  same_rows st (set_bookings <[id := with_b_status s b]> st).
Proof.
  intros Hb. repeat split. cbn. rewrite fmap_insert, with_b_status_idemp.
  apply insert_id. by rewrite lookup_fmap, Hb.
Qed.

Lemma same_rows_payment_status ref s p st :
  payments st !! ref = Some p →
  same_rows st (set_payments <[ref := with_p_status s p]> st).
Proof.
  intros Hp. repeat split. cbn. rewrite fmap_insert, with_p_status_idemp.
  apply insert_id. by rewrite lookup_fmap, Hp.
Qed.

Lemma same_rows_bookings st st' id b' :
  same_rows st st' → bookings st' !! id = Some b' →
  ∃ b, bookings st !! id = Some b ∧ b' = with_b_status (b_status b') b.
Proof.
  intros (_&_&_&Hb&_) Hid.
  assert ((with_b_status BookingStatus.PENDING <$> bookings st) !! id
          = Some (with_b_status BookingStatus.PENDING b')) as Hl
    by by rewrite <- Hb, lookup_fmap, Hid.
  rewrite lookup_fmap in Hl. destruct (bookings st !! id) as [b|]; [|done].
  exists b. split; [done|]. injection Hl as Hl. destruct b, b'. cbn in *.
  by simplify_eq.
Qed.

Lemma same_rows_payments st st' ref p' :
  same_rows st st' → payments st' !! ref = Some p' →
  ∃ p, payments st !! ref = Some p ∧ p' = with_p_status (p_status p') p.
Proof.
  intros (_&_&_&_&Hp) Hid.
  assert ((with_p_status PaymentStatus.PENDING <$> payments st) !! ref
          = Some (with_p_status PaymentStatus.PENDING p')) as Hl
    by by rewrite <- Hp, lookup_fmap, Hid.
  rewrite lookup_fmap in Hl. destruct (payments st !! ref) as [p|]; [|done].
  exists p. split; [done|]. injection Hl as Hl. destruct p, p'. cbn in *.
  by simplify_eq.
Qed.

Lemma same_rows_sym st st' : same_rows st st' → same_rows st' st.
Proof. intros (?&?&?&?&?). by repeat split. Qed.

Ltac same_rows_side :=
  first [ exact same_rows_refl | exact same_rows_trans
        | exact same_rows_booking_status | exact same_rows_payment_status
        | by intros; repeat split ].

Lemma exec_same_rows op st :
  match op with
  | Op_create _ _ _ _ | Op_createPayment _ _ => True
  | _ => same_rows st (exec op st)
  end.
Proof.
  destruct op; [done| | |done| | |]; cbn.
  - apply respects_cancel; same_rows_side.
  - apply respects_devCancel; same_rows_side.
  - apply respects_getPaymentStatus; same_rows_side.
  - apply respects_pollPaymentStatus; same_rows_side.
  - apply respects_handleWebhook; same_rows_side.
Qed.

(** Cancelling, polling, refreshing a payment status and handling a
    webhook neither create nor delete a booking or a payment: every row is
    there before and after, a booking with the same interval, price, spot
    and user, a payment with the same external id, amount and booking; the
    parking spots are untouched. *)
Theorem updates_keep_the_rows op st :
  (∀ dto u now id, op ≠ Op_create dto u now id) →
  (∀ answer id, op ≠ Op_createPayment answer id) →
  parkingSpots (exec op st) = parkingSpots st ∧
  (∀ id, match bookings st !! id, bookings (exec op st) !! id with
         | Some b, Some b' => same_booking b b'
         | None, None => True
         | _, _ => False
         end) ∧
  (∀ ref, match payments st !! ref, payments (exec op st) !! ref with
          | Some p, Some p' => same_payment p p'
          | None, None => True
          | _, _ => False
          end).
Proof.
  intros Hc Hp.
  assert (same_rows st (exec op st)) as Hrows.
  { pose proof (exec_same_rows op st) as H.
    destruct op; try done; [by destruct (Hc dto userId' now newId)|
                            by destruct (Hp answer bookingId')]. }
  split_and!.
  - by destruct Hrows.
  - intros id.
    destruct (bookings (exec op st) !! id) as [b'|] eqn:H'.
    + destruct (same_rows_bookings _ _ _ _ Hrows H') as (b & -> & Heq).
      rewrite Heq. by repeat split.
    + destruct (bookings st !! id) as [b|] eqn:H; [|done].
      destruct (same_rows_bookings _ _ id b (same_rows_sym _ _ Hrows) H)
        as (? & ? & _). congruence.
  - intros ref.
    destruct (payments (exec op st) !! ref) as [p'|] eqn:H'.
    + destruct (same_rows_payments _ _ _ _ Hrows H') as (p & -> & Heq).
      rewrite Heq. by repeat split.
    + destruct (payments st !! ref) as [p|] eqn:H; [|done].
      destruct (same_rows_payments _ _ ref p (same_rows_sym _ _ Hrows) H)
        as (? & ? & _). congruence.
Qed.

Lemma updates_keep_the_rows_witness :
  parkingSpots
    (exec (Op_cancel "b1" "alice")
       (Examples.paid BookingStatus.PENDING PaymentStatus.PENDING))
  = parkingSpots (Examples.paid BookingStatus.PENDING PaymentStatus.PENDING).
Proof.
  destruct (updates_keep_the_rows (Op_cancel "b1" "alice")
              (Examples.paid BookingStatus.PENDING PaymentStatus.PENDING))
    as (H & _ & _); [done|done|exact H].
Defined.

Lemma createPayment_bookings answer id st :
  bookings (PaymentService.createPayment answer id st).2 = bookings st.
Proof.
  unfold PaymentService.createPayment. munfold.
  destruct answer; cbn; try done.
  case_decide; cbn; [done|]. by case_bool_decide.
Qed.

Lemma exec_intervals_wf op st : intervals_wf st → intervals_wf (exec op st).
Proof.
  intros Hwf.
  assert (same_rows st (exec op st) → intervals_wf (exec op st)) as Hrows.
  { intros Hr id b' Hb'.
    destruct (same_rows_bookings _ _ _ _ Hr Hb') as (b & Hb & ->).
    cbn. by eapply Hwf. }
  pose proof (exec_same_rows op st) as H.
  destruct op; try (by apply Hrows).
  - cbn. eapply create_preserves_intervals_wf; [done|].
    apply surjective_pairing.
  - intros id b. cbn. rewrite createPayment_bookings. apply Hwf.
Qed.

(** Every stored booking has its start before its end, and no sequence of
    operations of the core breaks that. *)
Theorem intervals_wf_invariant ops st :
  intervals_wf st → intervals_wf (exec_all ops st).
Proof.
  revert st. induction ops as [|op ops IH]; intros st Hwf; [done|].
  cbn. by apply IH, exec_intervals_wf.
Qed.

Lemma intervals_wf_invariant_witness :
  intervals_wf
    (exec_all [Op_create Examples.dtoB "bob" 0 "b2";
               Op_cancel "b1" "alice"] Examples.booked).
Proof.
  apply (intervals_wf_invariant _ Examples.booked), Examples_booked_wf.
Defined.

(** No operation of the core deletes a booking, a payment or a processed
    event, or takes an e-mail back: after any sequence of operations every
    booking is still there with its interval, price, spot and user, and
    every payment with its external id, amount and booking. *)
Theorem nothing_is_deleted ops st :
  webhookEvents st ⊆ webhookEvents (exec_all ops st) ∧
  outbox st `prefix_of` outbox (exec_all ops st) ∧
  (∀ id b, bookings st !! id = Some b →
     ∃ b', bookings (exec_all ops st) !! id = Some b' ∧ same_booking b b') ∧
  (∀ ref p, payments st !! ref = Some p →
     ∃ p', payments (exec_all ops st) !! ref = Some p' ∧ same_payment p p').
Proof.
  destruct (exec_all_extends ops st) as [_ _ _ Hw Hb Hp Ho].
  split_and!; [done|done| |].
  - intros id b Hid. destruct (Hb id b Hid) as [s Hs].
    eexists. split; [exact Hs|]. by repeat split.
  - intros ref p Href. destruct (Hp ref p Href) as [s Hs].
    eexists. split; [exact Hs|]. by repeat split.
Qed.

(** ** BookingService.cancel and devCancel *)

(** The payment table after the requester has cancelled booking [id]: its
    payment goes to CANCELLED when it is PENDING, and stays as it is
    otherwise. *)
Lemma cancel_own st id u b :
  bookings st !! id = Some b → userId b = u →
  b_status b ≠ BookingStatus.CANCELLED →
  b_status b ≠ BookingStatus.COMPLETED →
  ∃ st',
    cancel id u st = (Ok (id, with_b_status BookingStatus.CANCELLED b), st') ∧
    bookings st' = <[id := with_b_status BookingStatus.CANCELLED b]>
                     (bookings st) ∧
    payments st'
      = match findFirst (λ p, bookingId p = id) (payments st) with
        | Some (ref, p) =>
            if decide (p_status p = PaymentStatus.PENDING)
            then <[ref := with_p_status PaymentStatus.CANCELLED p]>
                   (payments st)
            else payments st
        | None => payments st
        end ∧
    parkingSpots st' = parkingSpots st ∧
    webhookEvents st' = webhookEvents st ∧ outbox st' = outbox st ∧
    logs st' = logs st.
Proof.
  intros Hb Hu Hc Hd.
  unfold cancel, prisma_payment_findUnique_bookingId, prisma_payment_update,
    prisma_booking_update.
  munfold. rewrite (findOne_own id u b st Hb Hu). cbn.
  repeat case_decide; try congruence. cbn.
  destruct (findFirst _ _) as [[ref p]|] eqn:Hq; cbn.
  - destruct (findFirst_Some _ _ _ _ Hq) as [Hp _]. rewrite Hq.
    case_decide; cbn; [rewrite Hp; cbn|]; rewrite Hb; by eexists.
  - rewrite Hb. by eexists.
Qed.

Lemma cancel_other_throws st id u :
  (∀ b, bookings st !! id = Some b → userId b ≠ u) →
  ∃ e, cancel id u st = (Throw e, st).
Proof.
  intros Hother.
  unfold cancel, findOne, prisma_booking_findUnique,
    prisma_parkingSpot_findUnique, prisma_payment_findUnique_bookingId.
  munfold. cbn.
  destruct (bookings st !! id) as [b|] eqn:Hb; cbn; [|by eexists].
  specialize (Hother b eq_refl). case_decide; [|done].
  destruct (parkingSpots st !! parkingSpotId b) as [spot|]; cbn; [|by eexists].
  case_decide; cbn; [by eexists|]. case_decide; [|done]. by eexists.
Qed.

(** Nobody but the requester can cancel a booking: for anybody else the
    call fails and the state is untouched. A stranger, like a caller who
    names a booking that does not exist, is told that the booking is not
    found; the owner of the spot is told that one cancels one's own
    bookings only. *)
Theorem cancel_only_by_requester st id u :
  (∀ b, bookings st !! id = Some b → userId b ≠ u) →
  ∃ e, cancel id u st = (Throw e, st) ∧
    (bookings st !! id = None → e = NotFoundException "Booking not found") ∧
    (∀ b spot, bookings st !! id = Some b →
       parkingSpots st !! parkingSpotId b = Some spot →
       e = if decide (ps_ownerId spot = u)
           then BadRequestException "You can only cancel your own bookings"
           else NotFoundException "Booking not found").
Proof.
  intros Hother.
  unfold cancel, findOne, prisma_booking_findUnique,
    prisma_parkingSpot_findUnique, prisma_payment_findUnique_bookingId.
  munfold. cbn.
  destruct (bookings st !! id) as [b|] eqn:Hb; cbn.
  - specialize (Hother b eq_refl).
    case_decide; [|done].
    destruct (parkingSpots st !! parkingSpotId b) as [spot|] eqn:Hsp; cbn.
    + case_decide; cbn.
      * eexists. split_and!; [done|done|].
        intros b0 spot0 [= <-] Hsp0. assert (spot0 = spot) as -> by congruence.
        by case_decide.
      * case_decide; [|done]. eexists. split_and!; [done|done|].
        intros b0 spot0 [= <-] Hsp0. assert (spot0 = spot) as -> by congruence.
        by case_decide.
    + eexists. split_and!; [done|done|]. intros b0 spot0 [= <-]. congruence.
  - eexists. by split_and!.
Qed.

Lemma cancel_only_by_requester_witness :
  cancel "b1" "owner" Examples.booked
  = (Throw (BadRequestException "You can only cancel your own bookings"),
     Examples.booked).
Proof.
  destruct (cancel_only_by_requester Examples.booked "b1" "owner")
    as (e & Hrun & _ & He).
  - intros b. cbn. rewrite lookup_insert_eq. by intros [= <-].
  - rewrite Hrun. by rewrite (He Examples.bookingA Examples.spot1 eq_refl eq_refl).
Defined.

(** Cancelling a booking whose payment is no longer PENDING leaves the
    payment as it is: a CONFIRMED booking paid with a SUCCEEDED payment
    becomes CANCELLED and its payment stays SUCCEEDED. Without a payment
    only the booking changes. *)
Theorem cancel_keeps_settled_payment st id u b :
  bookings st !! id = Some b → userId b = u → active b →
  (∀ ref p, payments st !! ref = Some p → bookingId p = id →
            p_status p ≠ PaymentStatus.PENDING) →
  ∃ st',
    cancel id u st = (Ok (id, with_b_status BookingStatus.CANCELLED b), st') ∧
    bookings st' = <[id := with_b_status BookingStatus.CANCELLED b]>
                     (bookings st) ∧
    payments st' = payments st ∧ outbox st' = outbox st.
Proof.
  intros Hb Hu Ha Hsettled.
  destruct (cancel_own st id u b Hb Hu) as (st' & Hrun & Hbs & Hps & _ & _ & Ho & _);
    [destruct Ha; congruence..|].
  exists st'. split_and!; [done|done| |done].
  rewrite Hps. destruct (findFirst _ _) as [[ref p]|] eqn:Hq; [|done].
  destruct (findFirst_Some _ _ _ _ Hq) as [Hp Hid].
  case_decide; [|done]. by destruct (Hsettled ref p).
Qed.

Lemma cancel_keeps_settled_payment_witness :
  ∃ st',
    cancel "b1" "alice"
      (Examples.paid BookingStatus.CONFIRMED PaymentStatus.SUCCEEDED)
    = (Ok ("b1", with_b_status BookingStatus.CANCELLED Examples.bookingA),
       st') ∧
    payments st'
    = payments (Examples.paid BookingStatus.CONFIRMED PaymentStatus.SUCCEEDED).
Proof.
  destruct (cancel_keeps_settled_payment
              (Examples.paid BookingStatus.CONFIRMED PaymentStatus.SUCCEEDED)
              "b1" "alice"
              (with_b_status BookingStatus.CONFIRMED Examples.bookingA)
              eq_refl eq_refl) as (st' & Hrun & _ & Hp & _).
  - by right.
  - intros ref p. cbn. rewrite lookup_insert_Some, lookup_empty.
    by intros [[_ <-]|[_ [=]]] _.
  - exists st'. split; [exact Hrun|exact Hp].
Defined.

Lemma cancel_terminal st id u b :
  bookings st !! id = Some b → userId b = u → terminal b →
  ∃ e, cancel id u st = (Throw e, st).
Proof.
  intros Hb Hu Ht. unfold cancel. munfold.
  rewrite (findOne_own id u b st Hb Hu). cbn.
  destruct Ht as [Ht|Ht]; rewrite Ht; repeat case_decide; try congruence;
    eexists; reflexivity.
Qed.

(** The two ways a call of [cancel] ends. *)
Lemma cancel_cases st id u :
  (∃ e, cancel id u st = (Throw e, st)) ∨
  (∃ b st',
     bookings st !! id = Some b ∧ userId b = u ∧ active b ∧
     cancel id u st = (Ok (id, with_b_status BookingStatus.CANCELLED b), st') ∧
     bookings st' = <[id := with_b_status BookingStatus.CANCELLED b]>
                      (bookings st) ∧
     parkingSpots st' = parkingSpots st).
Proof.
  destruct (bookings st !! id) as [b|] eqn:Hb.
  - destruct (decide (userId b = u)) as [Hu|Hu].
    + destruct (b_status b) eqn:Hs.
      * right.
        destruct (cancel_own st id u b Hb Hu) as (st' & ? & ? & _ & ? & _);
          [congruence..|].
        exists b, st'. split_and!; try done. by left.
      * right.
        destruct (cancel_own st id u b Hb Hu) as (st' & ? & ? & _ & ? & _);
          [congruence..|].
        exists b, st'. split_and!; try done. by right.
      * left. apply (cancel_terminal st id u b Hb Hu). by left.
      * left. apply (cancel_terminal st id u b Hb Hu). by right.
    + left.
      destruct (cancel_other_throws st id u) as (e & ?);
        [intros b0 Hb0; by simplify_eq|by exists e].
  - left.
    destruct (cancel_other_throws st id u) as (e & ?);
      [intros ?; congruence|by exists e].
Qed.

Lemma intervals_wf_status st st' id s b :
  bookings st !! id = Some b →
  bookings st' = <[id := with_b_status s b]> (bookings st) →
  intervals_wf st → intervals_wf st'.
Proof.
  intros Hb Hst Hwf i c. rewrite Hst.
  intros [[_ <-]|[_ ?]]%lookup_insert_Some; cbn; by eapply Hwf.
Qed.

(** Cancelling frees the interval: once the requester has cancelled a
    booking, a request is rejected for a conflict exactly when it overlaps
    an active booking of the spot other than the cancelled one. *)
Theorem cancel_frees_interval st id u r st' dto u' now newId :
  intervals_wf st → cancel id u st = (Ok r, st') →
  valid_request st dto u' now →
  (create dto u' now newId st').1 = Throw ConflictError ↔
  ∃ id' b', id' ≠ id ∧ bookings st !! id' = Some b' ∧
    parkingSpotId b' = dto_parkingSpotId dto ∧ active b' ∧
    intervals_conflict (dto_startTime dto) (dto_endTime dto)
                       (startTime b') (endTime b').
Proof.
  intros Hwf Hcancel Hvalid.
  destruct (cancel_cases st id u)
    as [[e He]|(b & st0 & Hb & _ & _ & Hrun & Hbs & Hsp)]; [congruence|].
  assert (st0 = st') as -> by congruence.
  rewrite create_rejected_iff.
  - split.
    + intros (id' & b' & Hb' & Hrest). rewrite Hbs in Hb'.
      apply lookup_insert_Some in Hb' as [[<- <-]|[Hne Hb']].
      * destruct Hrest as (_ & [Ha|Ha] & _); discriminate Ha.
      * by exists id', b'.
    + intros (id' & b' & Hne & Hb' & Hrest). exists id', b'.
      split; [|done]. rewrite Hbs. by rewrite lookup_insert_ne.
  - destruct Hvalid as (spot & ? & ?). exists spot. by rewrite Hsp.
  - by eapply intervals_wf_status.
Qed.

Lemma cancel_frees_interval_witness :
  (create Examples.dtoB "bob" 0 "b2" (cancel "b1" "alice" Examples.booked).2).1
  ≠ Throw ConflictError.
Proof.
  destruct (cancel "b1" "alice" Examples.booked) as [r st'] eqn:Hc.
  assert (r = Ok ("b1", with_b_status BookingStatus.CANCELLED Examples.bookingA))
    as -> by (by vm_compute in Hc; injection Hc as <- _).
  intros Hrej.
  apply (cancel_frees_interval Examples.booked "b1" "alice" _ st'
           Examples.dtoB "bob" 0 "b2" Examples_booked_wf Hc) in Hrej
    as (id' & b' & Hne & Hb' & _).
  - cbn in Hb'. rewrite lookup_insert_Some, lookup_empty in Hb'.
    destruct Hb' as [[Heq _]|[_ [=]]]. exact (Hne (eq_sym Heq)).
  - by apply Examples_dtoB_valid.
Defined.

Lemma no_double_booking_cancelled st st' id b :
  bookings st !! id = Some b →
  bookings st' = <[id := with_b_status BookingStatus.CANCELLED b]>
                   (bookings st) →
  no_double_booking st → no_double_booking st'.
Proof.
  intros Hb Hst Hinv i j a c. rewrite Hst.
  intros [[-> <-]|[Hi Ha]]%lookup_insert_Some
         [[-> <-]|[Hj Hc]]%lookup_insert_Some Hij Hs Haa Hac; cbn in *.
  - done.
  - destruct Haa as [Haa|Haa]; discriminate Haa.
  - destruct Hac as [Hac|Hac]; discriminate Hac.
  - by eapply Hinv.
Qed.

(** A cancellation never makes two active bookings overlap. *)
Theorem cancel_keeps_no_double_booking st id u :
  no_double_booking st → no_double_booking (cancel id u st).2.
Proof.
  intros Hinv.
  destruct (cancel_cases st id u)
    as [[e ->]|(b & st' & Hb & _ & _ & -> & Hbs & _)]; [done|].
  by eapply no_double_booking_cancelled.
Qed.

Lemma cancel_keeps_no_double_booking_witness :
  no_double_booking (cancel "b1" "alice" Examples.booked).2.
Proof.
  apply cancel_keeps_no_double_booking.
  intros i j a b. cbn. rewrite !lookup_insert_Some, !lookup_empty.
  intros [[<- _]|[_ [=]]] [[<- _]|[_ [=]]]. done.
Defined.

(** [devCancel] is refused in production, whatever the booking; elsewhere
    the requester cancels with it a booking in any status but CANCELLED (a
    COMPLETED one too), and its payment goes to CANCELLED whatever its
    status (a SUCCEEDED one too). *)
Theorem devCancel_cancels_everything st id u b ref p :
  bookings st !! id = Some b → userId b = u →
  b_status b ≠ BookingStatus.CANCELLED →
  payment_of_booking st id ref p →
  devCancel true id u st
    = (Throw (BadRequestException
                "Dev cancel is only available in development mode"), st) ∧
  ∃ st',
    devCancel false id u st
      = (Ok (id, with_b_status BookingStatus.CANCELLED b), st') ∧
    bookings st' = <[id := with_b_status BookingStatus.CANCELLED b]>
                     (bookings st) ∧
    payments st' = <[ref := with_p_status PaymentStatus.CANCELLED p]>
                     (payments st).
Proof.
  intros Hb Hu Hs (Hp & Hid & Huniq). split; [done|].
  unfold devCancel, prisma_payment_update, prisma_booking_update.
  munfold. rewrite (findOne_own id u b st Hb Hu). cbn.
  rewrite (findFirst_unique _ _ ref p Hp Hid Huniq).
  repeat case_decide; try congruence. cbn. rewrite Hp. cbn. rewrite Hb.
  by eexists.
Qed.

Lemma devCancel_cancels_everything_witness :
  ∃ st',
    devCancel false "b1" "alice"
      (Examples.paid BookingStatus.COMPLETED PaymentStatus.SUCCEEDED)
    = (Ok ("b1", with_b_status BookingStatus.CANCELLED Examples.bookingA),
       st') ∧
    payments st' !! "REF1" = Some (Examples.paymentA PaymentStatus.CANCELLED).
Proof.
  destruct (devCancel_cancels_everything
              (Examples.paid BookingStatus.COMPLETED PaymentStatus.SUCCEEDED)
              "b1" "alice"
              (with_b_status BookingStatus.COMPLETED Examples.bookingA)
              "REF1" (Examples.paymentA PaymentStatus.SUCCEEDED)
              eq_refl eq_refl) as (_ & st' & Hrun & _ & Hp).
  - done.
  - split_and!; [done|done|]. intros ref' p'. cbn.
    rewrite lookup_insert_Some, lookup_empty. by intros [[<- _]|[_ [=]]] _.
  - exists st'. split; [exact Hrun|]. rewrite Hp. apply lookup_insert_eq.
Defined.

(** ** Reconciliation and the bookings *)

(** What a status refresh does to the bookings: nothing, or the one write
    of the status that goes with the reported status. *)
Lemma getPaymentStatus_bookings answer ref st :
  bookings (PaymentService.getPaymentStatus answer ref st).2 = bookings st ∨
  ∃ r e status a p b s,
    answer = PaymentResponse r e status a ∧
    payments st !! ref = Some p ∧ bookings st !! bookingId p = Some b ∧
    bookingStatus_of status = Some s ∧
    bookings (PaymentService.getPaymentStatus answer ref st).2
    = <[bookingId p := with_b_status s b]> (bookings st).
Proof.
  destruct answer as [|msg|r e status a]; [by left..|].
  destruct (payments st !! ref) as [p|] eqn:Hp.
  - destruct (bookings st !! bookingId p) as [b|] eqn:Hb.
    + destruct (getPaymentStatus_spec st ref status p b r e a Hp Hb)
        as (st' & -> & _ & Hd).
      cbn. rewrite (data_bookings _ _ Hd), reconciled_bookings_eq.
      destruct (bookingStatus_of status) as [s|] eqn:Hs; [|by left].
      right. by exists r, e, status, a, p, b, s.
    + left. unfold PaymentService.getPaymentStatus,
        PaymentService.updateBookingStatus, prisma_payment_update,
        prisma_payment_findUnique_include, prisma_booking_update.
      munfold. cbn. rewrite Hp. cbn. rewrite lookup_insert_eq. cbn.
      destruct (bookingStatus_of status); cbn; [|done]. by rewrite Hb.
  - left. unfold PaymentService.getPaymentStatus, prisma_payment_update.
    munfold. cbn. by rewrite Hp.
Qed.

(** A status refresh that does not report SUCCEEDED never makes two active
    bookings overlap. *)
Theorem refresh_keeps_no_double_booking answer ref st :
  (∀ r e a, answer ≠ PaymentResponse r e "SUCCEEDED" a) →
  no_double_booking st →
  no_double_booking (PaymentService.getPaymentStatus answer ref st).2.
Proof.
  intros Hns Hinv.
  destruct (getPaymentStatus_bookings answer ref st)
    as [Hsame|(r & e & status & a & p & b & s & -> & _ & Hb & Hs & Hbs)].
  - intros i j x y. rewrite Hsame. apply Hinv.
  - eapply no_double_booking_cancelled; [exact Hb| |exact Hinv].
    rewrite Hbs. unfold bookingStatus_of in Hs.
    repeat case_decide; simplify_eq; try done. by destruct (Hns r e a).
Qed.

Lemma refresh_keeps_no_double_booking_witness :
  no_double_booking
    (PaymentService.getPaymentStatus
       (PaymentResponse "REF1" "cs_1" "FAILED" 10000) "REF1"
       (Examples.paid BookingStatus.PENDING PaymentStatus.PENDING)).2.
Proof.
  apply refresh_keeps_no_double_booking; [done|].
  intros i j a b. cbn. rewrite !lookup_insert_Some, !lookup_empty.
  intros [[<- _]|[_ [=]]] [[<- _]|[_ [=]]]. done.
Defined.

(** A status refresh that reports SUCCEEDED for the payment of a cancelled
    booking brings the booking back among the active ones, next to
    whatever was booked over its interval in the meantime: the store then
    holds a double booking. *)
Theorem refresh_can_double_book st ref p a idb b r e amt :
  payments st !! ref = Some p → bookings st !! bookingId p = Some a →
  bookings st !! idb = Some b → idb ≠ bookingId p →
  parkingSpotId a = parkingSpotId b → active b →
  intervals_conflict (startTime a) (endTime a) (startTime b) (endTime b) →
  ¬ no_double_booking
      (PaymentService.getPaymentStatus
         (PaymentResponse r e "SUCCEEDED" amt) ref st).2.
Proof.
  intros Hp Ha Hb Hne Hspot Hact Hconf Hinv.
  destruct (getPaymentStatus_spec st ref "SUCCEEDED" p a r e amt Hp Ha)
    as (st' & Hrun & _ & Hd).
  rewrite Hrun in Hinv. cbn in Hinv.
  assert (bookings st'
          = <[bookingId p := with_b_status BookingStatus.CONFIRMED a]>
              (bookings st)) as Hbs
    by by rewrite (data_bookings _ _ Hd), reconciled_bookings_eq.
  apply (Hinv (bookingId p) idb (with_b_status BookingStatus.CONFIRMED a) b);
    try done.
  - rewrite Hbs. apply lookup_insert_eq.
  - rewrite Hbs. by rewrite lookup_insert_ne.
  - by right.
Qed.

Lemma Examples_rebooked_bookings :
  bookings Examples_rebooked
  = <["b2" := Examples.bookingB]>
      (<["b1" := with_b_status BookingStatus.CANCELLED Examples.bookingA]> ∅).
Proof. by vm_compute. Qed.

Lemma Examples_rebooked_payments :
  payments Examples_rebooked
  = <["REF1" := Examples.paymentA PaymentStatus.CANCELLED]> ∅.
Proof. by vm_compute. Qed.

Lemma refresh_can_double_book_witness :
  no_double_booking Examples_rebooked ∧
  ¬ no_double_booking
      (PaymentService.getPaymentStatus
         (PaymentResponse "REF1" "cs_1" "SUCCEEDED" 10000) "REF1"
         Examples_rebooked).2.
Proof.
  split.
  - intros i j a b. rewrite Examples_rebooked_bookings.
    rewrite !lookup_insert_Some, !lookup_empty.
    intros [[<- <-]|[_ [[<- <-]|[_ [=]]]]] [[<- <-]|[_ [[<- <-]|[_ [=]]]]];
      try done; intros _ _ Ha Hb.
    + destruct Hb as [Hb|Hb]; discriminate Hb.
    + destruct Ha as [Ha|Ha]; discriminate Ha.
  - apply (refresh_can_double_book Examples_rebooked "REF1"
             (Examples.paymentA PaymentStatus.CANCELLED)
             (with_b_status BookingStatus.CANCELLED Examples.bookingA)
             "b2" Examples.bookingB).
    + by rewrite Examples_rebooked_payments.
    + by rewrite Examples_rebooked_bookings.
    + by rewrite Examples_rebooked_bookings.
    + done.
    + done.
    + by left.
    + split; by vm_compute.
Defined.

(** ** The webhook handler: what it answers *)

(** [updatePaymentStatusFromAPI] catches whatever goes wrong and answers
    [success: false]: it never throws. *)
Lemma try_catch_handled {A} (body : M A) handler st :
  (∀ e st0, ∃ r st', handler e st0 = (Ok r, st')) →
  ∃ r st', try_catch body handler st = (Ok r, st').
Proof.
  intros Hh. unfold try_catch. destruct (body st) as [[a|e] st0].
  - by exists a, st0.
  - apply Hh.
Qed.

Lemma updatePaymentStatusFromAPI_never_throws failing ref s st :
  ∃ r st',
    PaymentStatusService.updatePaymentStatusFromAPI failing ref s st
    = (Ok r, st').
Proof.
  unfold PaymentStatusService.updatePaymentStatusFromAPI.
  apply try_catch_handled. intros e st0. by eexists _, _.
Qed.

Lemma mark_processed_returns e st :
  ∃ seen st', PaymentController.mark_processed e st = (Ok seen, st') ∧
    bookings st' = bookings st ∧ payments st' = payments st ∧
    outbox st' = outbox st.
Proof.
  unfold PaymentController.mark_processed. munfold.
  destruct (_ && _); cbn; [|by eexists _, _].
  case_bool_decide; cbn; by eexists _, _.
Qed.

Lemma apply_event_result failing ev st :
  (PaymentController.apply_event failing ev st).1 = Ok received_true ∨
  failing = Some payment_findFirst ∧
  (PaymentController.apply_event failing ev st).1 = Throw P1001.
Proof.
  assert (Hrest : ∀ ref st0 (newStatus : M (option string)),
    (∀ st1, ∃ o st2, newStatus st1 = (Ok o, st2)) →
    ((newStatus ← newStatus;
      match newStatus with
      | None => mret received_true
      | Some newStatus =>
          PaymentStatusService.updatePaymentStatusFromAPI
            failing ref newStatus;;
          logger_log ("Webhook processed successfully: "
                      +:+ js_string (event ev) +:+ " for payment " +:+ ref);;
          mret received_true
      end) st0).1 = Ok received_true).
  { intros ref st0 newStatus Hnew. munfold.
    destruct (Hnew st0) as ([s|] & st2 & ->); [|done].
    by destruct (updatePaymentStatusFromAPI_never_throws failing ref s st2)
      as (? & ? & ->). }
  assert (Hfound : ∀ (o : option (string * Payment)) st0,
    (match o with
     | None =>
         logger_warn ("Payment not found for external ID: "
                      +:+ js_string (event_data ev ≫= data_externalId));;
         mret received_true
     | Some (referenceNumber, _) =>
         newStatus ←
           (if decide (event ev = Some "payment.completed") then
              let newStatus := js_string (event_data ev ≫= data_status) in
              logger_log ("Payment " +:+ newStatus +:+ ": "
                          +:+ js_string (event_data ev ≫= fullOrderRef));;
              mret (Some newStatus)
            else if decide (event ev = Some "payment.failed") then
              logger_log ("Payment failed: "
                          +:+ js_string (event_data ev ≫= fullOrderRef));;
              mret (Some "FAILED")
            else if decide (event ev = Some "payment.cancelled") then
              logger_log ("Payment cancelled: "
                          +:+ js_string (event_data ev ≫= fullOrderRef));;
              mret (Some "CANCELLED")
            else
              logger_log ("Unhandled webhook event type: "
                          +:+ js_string (event ev));;
              mret None);
         match newStatus with
         | None => mret received_true
         | Some newStatus =>
             PaymentStatusService.updatePaymentStatusFromAPI
               failing referenceNumber newStatus;;
             logger_log ("Webhook processed successfully: "
                         +:+ js_string (event ev) +:+ " for payment "
                         +:+ referenceNumber);;
             mret received_true
         end
     end st0).1 = Ok received_true).
  { intros [[ref p]|] st0; [|done]. apply Hrest. intros st1.
    repeat case_decide; munfold; by eexists _, _. }
  unfold PaymentController.apply_event, PaymentService.getPaymentByExternalId,
    prisma_payment_findFirst_externalId.
  destruct (negb _); [by left|].
  destruct failing as [c|]; [destruct (decide (c = payment_findFirst)) as [->|Hc]|].
  - right. split; [done|]. by rewrite db_failing.
  - left. unfold db at 1. destruct (decide (c = payment_findFirst)); [done|].
    apply (Hfound _ st).
  - left. apply (Hfound _ st).
Qed.

Lemma process_event_result failing ev st :
  (PaymentController.process_event failing ev st).1 = Ok received_true ∨
  failing = Some payment_findFirst ∧
  (PaymentController.process_event failing ev st).1 = Throw P1001.
Proof.
  unfold PaymentController.process_event. munfold.
  destruct (mark_processed_returns (eventId_of ev)
              (set_logs (λ l, l ++ [LogInfo "Webhook event structure:"]) st))
    as (seen & st' & Hm & _).
  cbn. rewrite Hm. destruct seen; [by left|]. apply apply_event_result.
Qed.

Lemma verify_signature_rejected secret req st :
  truthy secret = true → truthy (signature req) = true →
  signature req ≠ Some "test" → signature_valid req = false →
  PaymentController.verify_signature secret req st
  = (Throw (Error "Invalid webhook signature"),
     set_logs (λ l, l ++ [LogWarn "Invalid webhook signature received"]) st).
Proof.
  intros Hsec Hhdr Htest Hvalid. unfold PaymentController.verify_signature.
  by rewrite Hsec, Hhdr, Hvalid, bool_decide_eq_true_2 by done.
Qed.

Lemma signature_accepted_or_not secret req :
  signature_accepted secret req ∨
  truthy secret = true ∧ truthy (signature req) = true ∧
  signature req ≠ Some "test" ∧ signature_valid req = false.
Proof.
  unfold signature_accepted.
  destruct (signature_valid req); [by left|].
  destruct (truthy secret); [|by left].
  destruct (truthy (signature req)); [|by left].
  case_bool_decide; [by right|by left].
Qed.

(** The handler throws the error of an invalid signature exactly when a
    secret is configured, the signature header is present, is not ['test'],
    and does not verify; nothing is written then. A missing header, or the
    header ['test'], passes without verification even with a secret
    configured. *)
Theorem webhook_signature_gate failing secret req st :
  ((PaymentController.handleWebhook failing secret req st).1
     = Throw (Error "Invalid webhook signature") ↔
   truthy secret = true ∧ truthy (signature req) = true ∧
   signature req ≠ Some "test" ∧ signature_valid req = false) ∧
  ((PaymentController.handleWebhook failing secret req st).1
     = Throw (Error "Invalid webhook signature") →
   data (PaymentController.handleWebhook failing secret req st).2 = data st).
Proof.
  destruct (signature_accepted_or_not secret req)
    as [Hsig|(Hsec & Hhdr & Htest & Hvalid)].
  - assert (Hno : (PaymentController.handleWebhook failing secret req st).1
                  ≠ Throw (Error "Invalid webhook signature")).
    { unfold PaymentController.handleWebhook.
      destruct (verify_signature_accepted secret req st Hsig)
        as (st1 & Hv & _).
      munfold. rewrite Hv. cbn.
      destruct (body req) as [ev|]; [|done].
      destruct (process_event_result failing ev st1) as [Hr|[_ Hr]];
        destruct (PaymentController.process_event failing ev st1)
          as [[?|?] ?]; cbn in *; by simplify_eq. }
    split; [split; [done|]|done].
    intros (Hsec & Hhdr & Htest & Hvalid). unfold signature_accepted in Hsig.
    rewrite Hsec, Hhdr, bool_decide_eq_true_2 in Hsig by done.
    by rewrite Hsig in Hvalid.
  - unfold PaymentController.handleWebhook. munfold.
    rewrite (verify_signature_rejected secret req st Hsec Hhdr Htest Hvalid).
    cbn. by split_and!.
Qed.

(** ** The webhook handler: events it does not know *)

Lemma mark_processed_noid st :
  PaymentController.mark_processed "no-id" st = (Ok false, st).
Proof. done. Qed.

Lemma data_recorded ev st st' :
  data st = data st' → data (recorded ev st) = data (recorded ev st').
Proof.
  intros Hd. unfold recorded. case_decide; [done|].
  unfold data in *. cbn. by injection Hd as -> -> -> -> -> -> ->.
Qed.

Lemma unseen_dec ev st :
  unseen ev st ∨
  eventId_of ev ≠ "no-id" ∧ eventId_of ev ∈ webhookEvents st.
Proof.
  unfold unseen. destruct (decide (eventId_of ev = "no-id")); [by left; left|].
  destruct (decide (eventId_of ev ∈ webhookEvents st)); [by right|].
  by left; right.
Qed.

(** A delivery whose event the handler does not know: the identifier is
    recorded, if there is one, then the event is applied. *)
Lemma handleWebhook_unseen failing secret req ev st :
  body req = Some ev → signature_accepted secret req → unseen ev st →
  ∃ st0, data st0 = data (recorded ev st) ∧
    PaymentController.handleWebhook failing secret req st
    = try_catch
        (PaymentController.apply_event failing ev)
        (λ error, logger_error "Webhook processing error:";; throw error)
        st0.
Proof.
  intros Hbody Hsig Hun.
  unfold PaymentController.handleWebhook, PaymentController.process_event.
  destruct (verify_signature_accepted secret req st Hsig)
    as (st1 & Hv & Hd1 & _).
  rewrite Hbody. munfold. rewrite Hv. cbn.
  assert (data (recorded ev
                  (set_logs (λ l, l ++ [LogInfo "Webhook event structure:"])
                     st1))
          = data (recorded ev st)) as Hd.
  { apply data_recorded. by rewrite data_set_logs. }
  revert Hd. unfold recorded.
  destruct (decide (eventId_of ev = "no-id")) as [Hno|Hid]; intros Hd.
  - rewrite Hno, mark_processed_noid. by eexists.
  - destruct Hun as [?|He]; [done|].
    rewrite mark_processed_fresh;
      [|apply eventId_of_nonempty|done|
        by rewrite <- (data_webhookEvents _ _ Hd1) in He].
    by eexists.
Qed.

Lemma apply_event_throws_iff failing ev st :
  (PaymentController.apply_event failing ev st).1 = Throw P1001 ↔
  failing = Some payment_findFirst ∧
  truthy (event_data ev ≫= data_externalId) = true.
Proof.
  destruct (decide (failing = Some payment_findFirst)) as [->|Hf].
  - unfold PaymentController.apply_event.
    destruct (truthy (event_data ev ≫= data_externalId)); cbn [negb].
    + by rewrite db_failing.
    + split; [done|by intros [_ ?]].
  - destruct (apply_event_result failing ev st) as [->|[? _]]; [|done].
    split; [done|by intros [? _]].
Qed.

(** Once the signature is accepted, the body parsed and the idempotency
    block passed: a failure of the update of the payment, of the reading of
    the payment with its booking, or of the update of the booking, all made
    inside [updatePaymentStatusFromAPI], is swallowed there, and the
    handler acknowledges the delivery; a failure of the lookup of the
    payment, for an event that names an external id and is not in the
    processed set, makes the handler throw it, which asks the gateway for a
    redelivery. *)
Theorem webhook_acknowledges_failed_updates secret req ev st :
  signature_accepted secret req → body req = Some ev →
  (∀ c, c ≠ payment_findFirst →
     (PaymentController.handleWebhook (Some c) secret req st).1
     = Ok received_true) ∧
  (truthy (event_data ev ≫= data_externalId) = true → unseen ev st →
   (PaymentController.handleWebhook (Some payment_findFirst) secret req st).1
   = Throw P1001).
Proof.
  intros Hsig Hbody. split.
  - intros c Hc.
    destruct (unseen_dec ev st) as [Hun|[Hid He]].
    + destruct (handleWebhook_unseen (Some c) secret req ev st Hbody Hsig Hun)
        as (st0 & _ & ->).
      unfold try_catch.
      destruct (apply_event_result (Some c) ev st0) as [Hok|[Hf _]];
        [|congruence].
      destruct (PaymentController.apply_event (Some c) ev st0)
        as [[a|x] st']; cbn in *; by simplify_eq.
    + destruct (handleWebhook_replay (Some c) secret req (eventId_of ev) st)
        as (st' & -> & _); [by exists ev|done|done|done].
  - intros Ht Hun.
    destruct (handleWebhook_unseen (Some payment_findFirst) secret req ev st
                Hbody Hsig Hun) as (st0 & _ & ->).
    destruct (apply_event_throws_iff (Some payment_findFirst) ev st0)
      as [_ Hthrow].
    specialize (Hthrow (conj eq_refl Ht)). unfold try_catch.
    destruct (PaymentController.apply_event (Some payment_findFirst) ev st0)
      as [[a|x] st']; cbn in *; by simplify_eq.
Qed.

Lemma webhook_acknowledges_failed_updates_witness :
  (PaymentController.handleWebhook (Some payment_update) (Some "whsec")
     (Examples.completed "SUCCEEDED")
     (Examples.paid BookingStatus.PENDING PaymentStatus.PENDING)).1
  = Ok received_true.
Proof.
  destruct (webhook_acknowledges_failed_updates
              (Some "whsec") (Examples.completed "SUCCEEDED")
              {| event := Some "payment.completed";
                 event_data := Some {| transactionId := Some "txn_1";
                                       fullOrderRef := Some "REF1";
                                       data_externalId := Some "cs_1";
                                       data_status := Some "SUCCEEDED" |} |}
              (Examples.paid BookingStatus.PENDING PaymentStatus.PENDING))
    as [Hack _].
  - intros Hsig. vm_compute in Hsig. discriminate.
  - reflexivity.
  - exact (Hack payment_update ltac:(discriminate)).
Defined.

Lemma recorded_rows ev st :
  bookings (recorded ev st) = bookings st ∧
  payments (recorded ev st) = payments st ∧
  outbox (recorded ev st) = outbox st.
Proof. unfold recorded. by case_decide. Qed.

Lemma apply_event_without_effect ev st :
  without_effect ev st →
  ∃ st', PaymentController.apply_event None ev st = (Ok received_true, st') ∧
    data st' = data st.
Proof.
  unfold PaymentController.apply_event, PaymentService.getPaymentByExternalId,
    prisma_payment_findFirst_externalId.
  intros [Ht|[Hnone|Hrep]].
  - rewrite Ht. by eexists.
  - destruct (truthy _); cbn [negb]; [|by eexists].
    munfold. cbn. destruct (findFirst _ _) as [[ref p]|] eqn:Hf; [|by eexists].
    apply findFirst_Some in Hf as [Hp Hx]. by destruct (Hnone ref p Hp).
  - unfold reported_status in Hrep.
    destruct (truthy _); cbn [negb]; [|by eexists].
    munfold. cbn. destruct (findFirst _ _) as [[ref p]|]; cbn; [|by eexists].
    repeat case_decide; try done. by eexists.
Qed.

(** An event that names no external id, or one that no payment row has yet,
    or whose type the handler does not list, is acknowledged and changes no
    booking, no payment and sends nothing. Its identifier, if it has one,
    is recorded all the same: so when the payment row is written after the
    event has arrived, every redelivery of the event is dropped and its
    status never reaches the payment. *)
Theorem webhook_without_effect secret req ev st :
  signature_accepted secret req → body req = Some ev →
  without_effect ev st →
  ∃ st1,
    PaymentController.handleWebhook None secret req st
      = (Ok received_true, st1) ∧
    bookings st1 = bookings st ∧ payments st1 = payments st ∧
    outbox st1 = outbox st ∧
    (eventId_of ev ≠ "no-id" →
     eventId_of ev ∈ webhookEvents st1 ∧
     ∀ ops failing,
       ∃ st3, PaymentController.handleWebhook failing secret req
                (exec_all ops st1) = (Ok received_true, st3) ∧
         data st3 = data (exec_all ops st1)).
Proof.
  intros Hsig Hbody Hwe.
  assert (∃ st1,
    PaymentController.handleWebhook None secret req st
      = (Ok received_true, st1) ∧
    bookings st1 = bookings st ∧ payments st1 = payments st ∧
    outbox st1 = outbox st) as (st1 & Hrun & Hb & Hp & Ho).
  { destruct (unseen_dec ev st) as [Hun|[Hid He]].
    - destruct (handleWebhook_unseen None secret req ev st Hbody Hsig Hun)
        as (st0 & Hd0 & Hrun).
      destruct (recorded_rows ev st) as (Hb & Hp & Ho).
      destruct (apply_event_without_effect ev st0) as (st1 & Happ & Hd1).
      { destruct Hwe as [?|[Hnone|?]]; [by left| |by right; right].
        right; left. intros ref p Hl. apply (Hnone ref p).
        by rewrite <- Hp, <- (data_payments _ _ Hd0). }
      unfold try_catch in Hrun. rewrite Happ in Hrun.
      exists st1. split; [exact Hrun|].
      rewrite (data_bookings _ _ Hd1), (data_payments _ _ Hd1),
        (data_outbox _ _ Hd1), (data_bookings _ _ Hd0),
        (data_payments _ _ Hd0), (data_outbox _ _ Hd0).
      by split_and!.
    - destruct (handleWebhook_replay None secret req (eventId_of ev) st)
        as (st1 & Hrun & Hd1 & _); [by exists ev|done|done|].
      exists st1. split; [exact Hrun|].
      by rewrite (data_bookings _ _ Hd1), (data_payments _ _ Hd1),
        (data_outbox _ _ Hd1). }
  exists st1. split_and!; [exact Hrun|done..|].
  intros Hid.
  assert (carries_eventId req (eventId_of ev)) as Hreq by (by exists ev).
  assert (eventId_of ev ∈ webhookEvents st1) as He.
  { pose proof (handleWebhook_records None secret req (eventId_of ev) st
                  Hreq Hsig) as He.
    by rewrite Hrun in He. }
  split; [done|]. intros ops failing.
  destruct (handleWebhook_replay failing secret req (eventId_of ev)
              (exec_all ops st1) Hreq Hsig) as (st3 & Hrun3 & Hd3 & _).
  - by eapply ext_webhookEvents; [apply exec_all_extends|].
  - by exists st3.
Qed.

Lemma webhook_without_effect_witness :
  ∃ st1,
    PaymentController.handleWebhook None (Some "whsec")
      (Examples.completed "SUCCEEDED") Examples.booked
      = (Ok received_true, st1) ∧
    payments st1 = ∅ ∧
    ∃ st3,
      PaymentController.handleWebhook None (Some "whsec")
        (Examples.completed "SUCCEEDED")
        (exec_all [Op_createPayment
                     (PaymentResponse "REF1" "cs_1" "PENDING" 10000) "b1"]
           st1)
        = (Ok received_true, st3) ∧
      payments st3 !! "REF1" = Some (Examples.paymentA PaymentStatus.PENDING).
Proof.
  destruct (webhook_without_effect (Some "whsec")
              (Examples.completed "SUCCEEDED")
              {| event := Some "payment.completed";
                 event_data := Some {| transactionId := Some "txn_1";
                                       fullOrderRef := Some "REF1";
                                       data_externalId := Some "cs_1";
                                       data_status := Some "SUCCEEDED" |} |}
              Examples.booked)
    as (st1 & Hrun & _ & Hp & _ & Hrec).
  - intros Hsig. vm_compute in Hsig. discriminate.
  - reflexivity.
  - right; left. intros ref p Hl.
    change (payments Examples.booked) with (∅ : gmap string Payment) in Hl.
    by rewrite lookup_empty in Hl.
  - exists st1. split; [exact Hrun|]. split; [exact Hp|].
    destruct Hrec as [_ Hre]; [done|].
    destruct (Hre [Op_createPayment
                     (PaymentResponse "REF1" "cs_1" "PENDING" 10000) "b1"]
                None) as (st3 & Hrun3 & Hd3).
    exists st3. split; [exact Hrun3|].
    rewrite (data_payments _ _ Hd3).
    pose proof (f_equal snd Hrun) as Hst. cbn [snd] in Hst. rewrite <- Hst.
    by vm_compute.
Defined.

(** Two events that carry the same identifier, which is the transaction id
    or, without one, the order reference: once the first has been
    delivered, whatever became of it, the second is acknowledged and
    changes nothing, whatever it reports. *)
Theorem webhook_events_sharing_key secret req1 req2 e failing failing' ops st :
  carries_eventId req1 e → carries_eventId req2 e →
  signature_accepted secret req1 → signature_accepted secret req2 →
  let st1 :=
    exec_all ops (PaymentController.handleWebhook failing secret req1 st).2 in
  ∃ st2, PaymentController.handleWebhook failing' secret req2 st1
           = (Ok received_true, st2) ∧ data st2 = data st1.
Proof.
  intros Hreq1 Hreq2 Hsig1 Hsig2 st1.
  destruct (handleWebhook_replay failing' secret req2 e st1 Hreq2 Hsig2)
    as (st2 & Hrun & Hd & _).
  - eapply ext_webhookEvents; [apply exec_all_extends|].
    by apply handleWebhook_records.
  - by exists st2.
Qed.

Lemma webhook_events_sharing_key_witness :
  let st1 :=
    (PaymentController.handleWebhook None (Some "whsec") Examples_failed
       (Examples.paid BookingStatus.PENDING PaymentStatus.PENDING)).2 in
  payments st1 !! "REF1" = Some (Examples.paymentA PaymentStatus.FAILED) ∧
  ∃ st2, PaymentController.handleWebhook None (Some "whsec")
           Examples_succeeded st1 = (Ok received_true, st2) ∧
    data st2 = data st1.
Proof.
  intros st1. split; [by vm_compute|].
  destruct (webhook_events_sharing_key (Some "whsec") Examples_failed
              Examples_succeeded "REF1" None None []
              (Examples.paid BookingStatus.PENDING PaymentStatus.PENDING))
    as (st2 & Hrun & Hd).
  - eexists. split_and!; [reflexivity|reflexivity|done].
  - eexists. split_and!; [reflexivity|reflexivity|done].
  - intros Hsig. vm_compute in Hsig. discriminate.
  - intros Hsig. vm_compute in Hsig. discriminate.
  - exists st2. split; [exact Hrun|exact Hd].
Defined.

(** An event that carries neither a transaction id nor an order reference
    is never recorded: every delivery of it is applied, the processed set
    staying as it is. *)
Theorem webhook_without_id_is_applied secret req ev xid ref p b s st :
  signature_accepted secret req → body req = Some ev →
  eventId_of ev = "no-id" →
  event_data ev ≫= data_externalId = Some xid → xid ≠ "" →
  payment_of_externalId st xid ref p →
  bookings st !! bookingId p = Some b →
  reported_status ev = Some s →
  ∃ st', PaymentController.handleWebhook None secret req st
           = (Ok received_true, st') ∧
    webhookEvents st' = webhookEvents st ∧
    data st' = data (reconciled true st ref s p b).
Proof.
  intros Hsig Hbody Hno Hx Hne Hpay Hb Hs.
  destruct (handleWebhook_unseen None secret req ev st Hbody Hsig)
    as (st0 & Hd0 & Hrun); [by left|].
  unfold recorded in Hd0. rewrite decide_True in Hd0 by done.
  destruct (apply_event_applied ev st0 xid ref p b s Hx Hne)
    as (st' & Happ & _ & Hd); [| |done|].
  { destruct Hpay as (Hp & Hxid & Huniq). unfold payment_of_externalId.
    rewrite (data_payments _ _ Hd0). by split_and!. }
  { by rewrite (data_bookings _ _ Hd0). }
  unfold try_catch in Hrun. rewrite Happ in Hrun.
  exists st'. split; [exact Hrun|].
  assert (data st' = data (reconciled true st ref s p b)) as Hd'.
  { rewrite Hd. by apply reconciled_data. }
  split; [|done].
  by rewrite (data_webhookEvents _ _ Hd'), reconciled_webhookEvents.
Qed.

Lemma webhook_without_id_is_applied_witness :
  let st := Examples.paid BookingStatus.CONFIRMED PaymentStatus.SUCCEEDED in
  ∃ st', PaymentController.handleWebhook None (Some "whsec")
           Examples_anonymous st = (Ok received_true, st') ∧
    webhookEvents st' = webhookEvents st ∧
    outbox st' = [PmoEmail "owner" "b1" "alice"; SystemEmail "alice" "b1"].
Proof.
  intros st.
  destruct (webhook_without_id_is_applied (Some "whsec") Examples_anonymous
              {| event := Some "payment.completed";
                 event_data := Some {| transactionId := None;
                                       fullOrderRef := None;
                                       data_externalId := Some "cs_1";
                                       data_status := Some "SUCCEEDED" |} |}
              "cs_1" "REF1" (Examples.paymentA PaymentStatus.SUCCEEDED)
              (with_b_status BookingStatus.CONFIRMED Examples.bookingA)
              "SUCCEEDED" st)
    as (st' & Hrun & Hw & Hd).
  - intros Hsig. vm_compute in Hsig. discriminate.
  - reflexivity.
  - reflexivity.
  - reflexivity.
  - done.
  - split_and!; [reflexivity|reflexivity|].
    intros ref' p'. cbn. rewrite lookup_insert_Some, lookup_empty.
    by intros [[<- _]|[_ [=]]] _.
  - reflexivity.
  - reflexivity.
  - exists st'. split; [exact Hrun|]. split; [exact Hw|].
    rewrite (data_outbox _ _ Hd). by vm_compute.
Defined.

(** ** Reconciliations that fail *)

(** [updatePaymentStatusFromAPI] never throws: whatever fails inside, it
    answers. For a reference that no payment row has, the answer is
    [success: false] with the error of the update of a missing record, and
    nothing is changed. *)
Theorem updatePaymentStatusFromAPI_answers failing ref s st :
  (∃ r st',
     PaymentStatusService.updatePaymentStatusFromAPI failing ref s st
     = (Ok r, st')) ∧
  (payments st !! ref = None →
   ∃ e st',
     PaymentStatusService.updatePaymentStatusFromAPI failing ref s st
     = (Ok (PaymentStatusService.success_false e), st') ∧
     data st' = data st ∧
     (failing ≠ Some payment_update → e = P2025)).
Proof.
  split; [apply updatePaymentStatusFromAPI_never_throws|].
  intros Hp. unfold PaymentStatusService.updatePaymentStatusFromAPI,
    prisma_payment_update.
  destruct failing as [c|];
    [destruct (decide (c = payment_update)) as [->|Hc]|]; munfold; cbn.
  - eexists _, _. by split_and!.
  - destruct (decide (c = payment_update)); [done|]. cbn. rewrite Hp. cbn.
    eexists _, _. by split_and!.
  - rewrite Hp. cbn. eexists _, _. by split_and!.
Qed.

(** The payment and the booking are written one after the other, outside
    any transaction: when the update of the booking fails, the payment has
    its new status already and keeps it, while the booking and the outbox
    are as before; the answer is [success: false]. *)
Theorem payment_update_survives_booking_failure st ref s p bs :
  payments st !! ref = Some p → bookingStatus_of s = Some bs →
  ∃ st',
    PaymentStatusService.updatePaymentStatusFromAPI (Some booking_update)
      ref s st
    = (Ok (PaymentStatusService.success_false P1001), st') ∧
    payments st'
    = <[ref := with_p_status (PaymentService.mapPaymentStatus s) p]>
        (payments st) ∧
    bookings st' = bookings st ∧ outbox st' = outbox st.
Proof.
  intros Hp Hbs.
  unfold PaymentStatusService.updatePaymentStatusFromAPI,
    PaymentStatusService.updateBookingStatus, prisma_payment_update,
    prisma_payment_findUnique_include, prisma_booking_update.
  rewrite status_chain_eq_map. munfold. cbn. db_decide. cbn.
  rewrite Hp. cbn. db_decide. cbn.
  rewrite lookup_insert_eq. cbn. rewrite Hbs. cbn. db_decide. cbn.
  by eexists.
Qed.

Lemma payment_update_survives_booking_failure_witness :
  ∃ st',
    PaymentStatusService.updatePaymentStatusFromAPI (Some booking_update)
      "REF1" "SUCCEEDED"
      (Examples.paid BookingStatus.PENDING PaymentStatus.PENDING)
    = (Ok (PaymentStatusService.success_false P1001), st') ∧
    payments st' !! "REF1" = Some (Examples.paymentA PaymentStatus.SUCCEEDED) ∧
    bookings st' !! "b1"
    = Some (with_b_status BookingStatus.PENDING Examples.bookingA).
Proof.
  destruct (payment_update_survives_booking_failure
              (Examples.paid BookingStatus.PENDING PaymentStatus.PENDING)
              "REF1" "SUCCEEDED" (Examples.paymentA PaymentStatus.PENDING)
              BookingStatus.CONFIRMED eq_refl eq_refl)
    as (st' & Hrun & Hp & Hb & _).
  exists st'. split; [exact Hrun|]. rewrite Hp, Hb. split; by vm_compute.
Defined.



(** ** What the poll path sends *)

Lemma sends_only_pmo_refl st : sends_only_pmo st st.
Proof. exists []. by rewrite app_nil_r. Qed.

Lemma sends_only_pmo_trans st1 st2 st3 :
  sends_only_pmo st1 st2 → sends_only_pmo st2 st3 → sends_only_pmo st1 st3.
Proof.
  intros (l1 & H1 & F1) (l2 & H2 & F2). exists (l1 ++ l2).
  split; [by rewrite H2, H1, app_assoc|by apply Forall_app].
Qed.

Ltac sends_only_pmo_side :=
  first [ exact sends_only_pmo_refl | exact sends_only_pmo_trans
        | by intros; exists []; rewrite app_nil_r
        | by intros; eexists [_]; split; [reflexivity|apply Forall_singleton] ].

(** [PaymentService] loads the payment without the owner of the spot, so
    the invoice to the guest, whose text reads the name of the owner, is
    never sent by [getPaymentStatus] nor by [pollPaymentStatus]: whatever
    the gateway answers, they send nothing but requests to the building
    office. *)
Theorem payment_service_sends_no_invoice :
  (∀ answer ref st,
     sends_only_pmo st (PaymentService.getPaymentStatus answer ref st).2) ∧
  (∀ gateway ref maxAttempts st,
     sends_only_pmo st
       (PaymentService.pollPaymentStatus gateway ref maxAttempts st).2).
Proof.
  split.
  - intros answer ref. apply respects_getPaymentStatus; sends_only_pmo_side.
  - intros gateway ref n.
    apply respects_pollPaymentStatus; sends_only_pmo_side.
Qed.

(** ** One payment for a booking *)

Lemma createPayment_payments answer id st :
  payments (PaymentService.createPayment answer id st).2 = payments st ∨
  ∃ r x s a,
    answer = PaymentResponse r x s a ∧ payments st !! r = None ∧
    (∀ ref p, payments st !! ref = Some p → bookingId p ≠ id) ∧
    payments (PaymentService.createPayment answer id st).2
    = <[r := {| externalId := x; amount := a;
                p_status := PaymentService.mapPaymentStatus s;
                bookingId := id |}]> (payments st).
Proof.
  unfold PaymentService.createPayment. munfold.
  destruct answer as [|m|r x s a]; cbn; [by left..|].
  case_decide; cbn; [by left|].
  case_bool_decide as Hu; cbn; [|by left].
  destruct Hu as [Hr Hb]. right. exists r, x, s, a. split_and!; [done..| |done].
  intros ref p Hp Hid. rewrite findFirst_None in Hb. by apply (Hb ref p).
Qed.

Lemma exec_one_payment_per_booking op st :
  one_payment_per_booking st → one_payment_per_booking (exec op st).
Proof.
  intros Hone.
  assert (same_rows st (exec op st) → one_payment_per_booking (exec op st))
    as Hrows.
  { intros Hr ref ref' p p' Hp Hp' Hid.
    destruct (same_rows_payments _ _ _ _ Hr Hp) as (q & Hq & Heq).
    destruct (same_rows_payments _ _ _ _ Hr Hp') as (q' & Hq' & Heq').
    apply (Hone ref ref' q q'); [done..|].
    rewrite Heq, Heq' in Hid. exact Hid. }
  pose proof (exec_same_rows op st) as H.
  destruct op; try (by apply Hrows).
  - change (exec (Op_create dto userId' now newId) st)
      with (create dto userId' now newId st).2.
    destruct (create dto userId' now newId st) as [[r|e] st'] eqn:Hc.
    + apply create_Ok_inv in Hc as (spot & _ & _ & _ & _ & _ & ->).
      exact Hone.
    + apply create_Throw_inv in Hc as ->. exact Hone.
  - cbn. destruct (createPayment_payments answer bookingId' st)
      as [Hsame|(r & x & s & a & _ & Hr & Hb & Hins)].
    + intros ref ref' p p'. rewrite Hsame. apply Hone.
    + intros ref ref' p p'. rewrite Hins.
      intros [[<- <-]|[Hne Hp]]%lookup_insert_Some
             [[<- <-]|[Hne' Hp']]%lookup_insert_Some Hid; cbn in *.
      * done.
      * by destruct (Hb ref' p' Hp').
      * by destruct (Hb ref p Hp).
      * by apply (Hone ref ref' p p').
Qed.

(** A booking never has two payments: no sequence of operations of the core
    gives a second payment row to a booking that has one. *)
Theorem one_payment_per_booking_invariant ops st :
  one_payment_per_booking st → one_payment_per_booking (exec_all ops st).
Proof.
  revert st. induction ops as [|op ops IH]; intros st Hone; [done|].
  cbn. by apply IH, exec_one_payment_per_booking.
Qed.

Lemma one_payment_per_booking_invariant_witness :
  one_payment_per_booking
    (exec_all [Op_createPayment
                 (PaymentResponse "REF1" "cs_1" "PENDING" 10000) "b1";
               Op_createPayment
                 (PaymentResponse "REF2" "cs_2" "PENDING" 10000) "b1"]
       Examples.booked).
Proof.
  apply (one_payment_per_booking_invariant _ Examples.booked).
  intros ref ref' p p' Hp.
  change (payments Examples.booked) with (∅ : gmap string Payment) in Hp.
  by rewrite lookup_empty in Hp.
Defined.

(** ** Paying for a booking *)

(** Only the requester of a booking can pay for it: for anybody else the
    call fails, the gateway is not asked and the state is untouched. A
    stranger, like a caller who names a booking that does not exist, is
    told that the booking is not found; the owner of the spot is told that
    one pays for one's own bookings only. *)
Theorem initiatePayment_only_by_requester answer st id u :
  (∀ b, bookings st !! id = Some b → userId b ≠ u) →
  ∃ e, BookingController.initiatePayment answer id u st = (Throw e, st) ∧
    (bookings st !! id = None → e = NotFoundException "Booking not found") ∧
    (∀ b spot, bookings st !! id = Some b →
       parkingSpots st !! parkingSpotId b = Some spot →
       e = if decide (ps_ownerId spot = u)
           then BadRequestException "You can only pay for your own bookings"
           else NotFoundException "Booking not found").
Proof.
  intros Hother.
  unfold BookingController.initiatePayment, findOne, prisma_booking_findUnique,
    prisma_parkingSpot_findUnique, prisma_payment_findUnique_bookingId.
  munfold. cbn.
  destruct (bookings st !! id) as [b|] eqn:Hb; cbn.
  - specialize (Hother b eq_refl).
    case_decide; [|done].
    destruct (parkingSpots st !! parkingSpotId b) as [spot|] eqn:Hsp; cbn.
    + case_decide; cbn.
      * eexists. split_and!; [done|done|].
        intros b0 spot0 [= <-] Hsp0. assert (spot0 = spot) as -> by congruence.
        by case_decide.
      * case_decide; [|done]. eexists. split_and!; [done|done|].
        intros b0 spot0 [= <-] Hsp0. assert (spot0 = spot) as -> by congruence.
        by case_decide.
    + eexists. split_and!; [done|done|]. intros b0 spot0 [= <-]. congruence.
  - eexists. by split_and!.
Qed.

Lemma initiatePayment_only_by_requester_witness :
  BookingController.initiatePayment
    (PaymentResponse "REF1" "cs_1" "PENDING" 10000) "b1" "owner"
    Examples.booked
  = (Throw (BadRequestException "You can only pay for your own bookings"),
     Examples.booked).
Proof.
  destruct (initiatePayment_only_by_requester
              (PaymentResponse "REF1" "cs_1" "PENDING" 10000)
              Examples.booked "b1" "owner")
    as (e & Hrun & _ & He).
  - intros b. cbn. rewrite lookup_insert_eq. by intros [= <-].
  - rewrite Hrun.
    by rewrite (He Examples.bookingA Examples.spot1 eq_refl eq_refl).
Defined.

(** Paying again for a booking that has a payment returns that payment and
    nothing else happens: the gateway is not asked, whatever it would
    answer, and the state is exactly as before. *)
Theorem initiatePayment_returns_existing answer st id u b ref p :
  one_payment_per_booking st →
  bookings st !! id = Some b → userId b = u →
  payments st !! ref = Some p → bookingId p = id →
  BookingController.initiatePayment answer id u st
  = (Ok (ExistingPayment ref (p_status p)), st).
Proof.
  intros Hone Hb Hu Hp Hid.
  unfold BookingController.initiatePayment, getPaymentByBookingId,
    prisma_payment_findUnique_bookingId.
  munfold. rewrite (findOne_own id u b st Hb Hu). cbn.
  rewrite decide_False by (intros ?; done).
  rewrite (findFirst_unique _ _ ref p Hp Hid); [done|].
  intros ref' p' Hp' Hid'. symmetry. apply (Hone ref ref' p p'); congruence.
Qed.

Lemma initiatePayment_returns_existing_witness :
  BookingController.initiatePayment NetworkError "b1" "alice"
    (Examples.paid BookingStatus.PENDING PaymentStatus.FAILED)
  = (Ok (ExistingPayment "REF1" PaymentStatus.FAILED),
     Examples.paid BookingStatus.PENDING PaymentStatus.FAILED).
Proof.
  apply (initiatePayment_returns_existing NetworkError
           (Examples.paid BookingStatus.PENDING PaymentStatus.FAILED)
           "b1" "alice"
           (with_b_status BookingStatus.PENDING Examples.bookingA)
           "REF1" (Examples.paymentA PaymentStatus.FAILED)).
  - intros ref ref' p p'. cbn. rewrite !lookup_insert_Some, !lookup_empty.
    by intros [[<- _]|[_ [=]]] [[<- _]|[_ [=]]] _.
  - reflexivity.
  - reflexivity.
  - reflexivity.
  - reflexivity.
Defined.

(** The requester pays for a booking that has no payment: the payment row
    the gateway answers with is written for the booking, whatever the
    status of the booking is (no status is asked for, so a cancelled or
    completed booking is charged like a pending one), and the bookings are
    as before. *)
Theorem initiatePayment_creates st id u b r x s a :
  bookings st !! id = Some b → userId b = u →
  is_Some (parkingSpots st !! parkingSpotId b) →
  (∀ ref p, payments st !! ref = Some p → bookingId p ≠ id) →
  r ≠ "" → payments st !! r = None →
  ∃ st',
    BookingController.initiatePayment (PaymentResponse r x s a) id u st
    = (Ok (NewPayment (PaymentResponse r x s a)), st') ∧
    payments st'
    = <[r := {| externalId := x; amount := a;
                p_status := PaymentService.mapPaymentStatus s;
                bookingId := id |}]> (payments st) ∧
    bookings st' = bookings st ∧ outbox st' = outbox st.
Proof.
  intros Hb Hu [spot Hsp] Hnone Hr Hfresh.
  assert (findFirst (λ p, bookingId p = id) (payments st) = None) as Hf.
  { apply findFirst_None. intros ref p Hp. by apply (Hnone ref p). }
  unfold BookingController.initiatePayment, getPaymentByBookingId,
    prisma_payment_findUnique_bookingId.
  munfold. rewrite (findOne_own id u b st Hb Hu). cbn.
  rewrite decide_False by (intros ?; done).
  rewrite Hf, Hsp. unfold PaymentService.createPayment. munfold. cbn.
  rewrite decide_False by done. cbn.
  rewrite bool_decide_eq_true_2 by done. cbn. by eexists.
Qed.

Lemma initiatePayment_creates_witness :
  ∃ st',
    BookingController.initiatePayment
      (PaymentResponse "REF1" "cs_1" "PENDING" 10000) "b1" "alice"
      Examples_cancelled
    = (Ok (NewPayment (PaymentResponse "REF1" "cs_1" "PENDING" 10000)), st') ∧
    payments st' !! "REF1" = Some (Examples.paymentA PaymentStatus.PENDING).
Proof.
  destruct (initiatePayment_creates Examples_cancelled "b1" "alice"
              (with_b_status BookingStatus.CANCELLED Examples.bookingA)
              "REF1" "cs_1" "PENDING" 10000)
    as (st' & Hrun & Hp & _).
  - reflexivity.
  - reflexivity.
  - by eexists.
  - intros ref p Hl.
    change (payments Examples_cancelled) with (∅ : gmap string Payment) in Hl.
    by rewrite lookup_empty in Hl.
  - done.
  - reflexivity.
  - exists st'. split; [exact Hrun|]. rewrite Hp. by vm_compute.
Defined.

(** ** The slots of a parking spot *)

#[local] Instance startTime_asc_total : Total startTime_asc.
Proof. intros a b. unfold startTime_asc. lia. Qed.

#[local] Instance startTime_asc_trans : Transitive startTime_asc.
Proof. intros a b c. unfold startTime_asc. lia. Qed.

Lemma findByParkingSpot_elem spot st slots slot :
  findByParkingSpot spot st = (Ok slots, st) →
  slot ∈ slots ↔
  ∃ b, bookings st !! slot_id slot = Some b ∧ parkingSpotId b = spot ∧
    active b ∧ slot = slot_of (slot_id slot, b).
Proof.
  unfold findByParkingSpot, gets. intros [= <-].
  rewrite merge_sort_Permutation, list_elem_of_fmap. split.
  - intros ([id b] & -> & Hin).
    apply elem_of_map_to_list, map_lookup_filter_Some in Hin
      as (Hb & Hspot & Hst).
    exists b. split_and!; [done|done| |done].
    unfold status_in in Hst. cbn in Hst.
    rewrite !elem_of_cons, elem_of_nil in Hst. unfold active. tauto.
  - intros (b & Hb & Hspot & Hact & ->). exists (slot_id slot, b).
    split; [done|].
    apply elem_of_map_to_list, map_lookup_filter_Some.
    split; [done|]. split; [done|].
    unfold status_in. cbn. rewrite !elem_of_cons. unfold active in Hact. tauto.
Qed.

(** [findByParkingSpot] changes nothing and lists, by ascending start, the
    bookings of the spot that are PENDING or CONFIRMED, each once and no
    other. The list agrees with the overlap check of [create]: a request
    that passes the checks made before the overlap query is rejected with
    the conflict error exactly when it conflicts with a slot of the list. *)
Theorem findByParkingSpot_lists_what_blocks spot st :
  ∃ slots,
    findByParkingSpot spot st = (Ok slots, st) ∧
    StronglySorted startTime_asc slots ∧
    NoDup (slot_id <$> slots) ∧
    (∀ slot, slot ∈ slots ↔
       ∃ b, bookings st !! slot_id slot = Some b ∧ parkingSpotId b = spot ∧
         active b ∧ slot = slot_of (slot_id slot, b)) ∧
    (∀ dto u now newId,
       dto_parkingSpotId dto = spot → valid_request st dto u now →
       intervals_wf st →
       ((create dto u now newId st).1 = Throw ConflictError ↔
        ∃ slot, slot ∈ slots ∧
          intervals_conflict (dto_startTime dto) (dto_endTime dto)
            (slot_startTime slot) (slot_endTime slot))).
Proof.
  eexists. split; [reflexivity|].
  pose proof (λ slot, findByParkingSpot_elem spot st _ slot eq_refl) as Helem.
  split_and!.
  - apply StronglySorted_merge_sort; apply _.
  - rewrite merge_sort_Permutation, <- list_fmap_compose.
    apply (NoDup_fmap_fst (map_to_list _)); [|apply NoDup_map_to_list].
    intros id b b' H1%elem_of_map_to_list H2%elem_of_map_to_list.
    congruence.
  - exact Helem.
  - intros dto u now newId Hspot Hvalid Hwf.
    rewrite create_rejected_iff by done. split.
    + intros (id & b & Hb & Hs & Hact & Hconf).
      exists (slot_of (id, b)). split; [|done].
      apply Helem. exists b. split_and!; [done|congruence|done|done].
    + intros (slot & Hin & Hconf).
      apply Helem in Hin as (b & Hb & Hs & Hact & Heq).
      exists (slot_id slot), b. split_and!; [done|congruence|done|].
      by rewrite Heq in Hconf.
Qed.

(** ** How long a poll waits *)

Lemma getPaymentStatus_sleeps answer ref st :
  sleeps (PaymentService.getPaymentStatus answer ref st).2 = sleeps st.
Proof.
  revert st.
  apply (respects_getPaymentStatus (λ st st', sleeps st' = sleeps st));
    first [ by intros | by intros ??? -> ].
Qed.

Lemma waited_same st st' n : sleeps st' = sleeps st → waited st st' n.
Proof.
  intros Hs. exists []. rewrite app_nil_r. split_and!; [done|cbn; lia|done].
Qed.

Lemma waited_once st st' ms :
  sleeps st' = sleeps st ++ [ms] → 0 < ms ≤ 30000 → waited st st' 1.
Proof.
  intros Hs Hms. exists [ms]. split_and!; [done|done|by apply Forall_singleton].
Qed.

Lemma waited_trans st1 st2 st3 n m :
  waited st1 st2 n → waited st2 st3 m → waited st1 st3 (n + m).
Proof.
  intros (l1 & H1 & L1 & F1) (l2 & H2 & L2 & F2). exists (l1 ++ l2).
  split_and!.
  - by rewrite H2, H1, app_assoc.
  - rewrite length_app. lia.
  - by apply Forall_app.
Qed.

Lemma poll_attempt_waited answer ref n i st :
  0 ≤ i → waited st (PaymentService.poll_attempt answer ref n i st).2 1.
Proof.
  intros Hi. unfold PaymentService.poll_attempt, PaymentService.delay.
  pose proof (getPaymentStatus_sleeps answer ref st) as Hs.
  munfold.
  destruct (PaymentService.getPaymentStatus answer ref st) as [[s|e] st1];
    cbn in *.
  - case_decide; cbn.
    + by apply waited_same.
    + eapply waited_once; [cbn; by rewrite Hs|].
      assert (0 < 2 ^ i) by (by apply Z.pow_pos_nonneg). lia.
  - case_decide; cbn.
    + eapply waited_once; [cbn; by rewrite Hs|done].
    + by apply waited_same.
Qed.

Lemma poll_loop_waited gateway ref n todo i st :
  0 ≤ i →
  waited st (PaymentService.poll_loop gateway ref n todo i st).2 todo.
Proof.
  revert i st. induction todo as [|todo IH]; intros i st Hi.
  - cbn. munfold. cbn. by apply waited_same.
  - cbn [PaymentService.poll_loop].
    pose proof (poll_attempt_waited (gateway i) ref n i st Hi) as Hw.
    munfold.
    destruct (PaymentService.poll_attempt (gateway i) ref n i st)
      as [[[s|]|e] st1]; cbn in *.
    + destruct Hw as (l & ? & ? & ?). exists l. split_and!; [done|lia|done].
    + change (S todo) with (1 + todo)%nat.
      eapply waited_trans; [done|]. apply IH. lia.
    + destruct Hw as (l & ? & ? & ?). exists l. split_and!; [done|lia|done].
Qed.

(** Whatever the gateway answers and whatever the reference, a poll of
    [maxAttempts] attempts waits at most [maxAttempts] times, each time for
    at most 30 seconds: [maxAttempts] times 30 seconds bound its waiting,
    10 minutes for the default of 20. A poll of no attempt ([maxAttempts]
    zero or negative) fails with the timeout error at once, having asked
    the gateway nothing and changed nothing. *)
Theorem poll_waits_bounded gateway ref maxAttempts st :
  let n := default 20 maxAttempts in
  let run := PaymentService.pollPaymentStatus gateway ref maxAttempts st in
  waited st run.2 (Z.to_nat n) ∧
  (n ≤ 0 →
   run.1 = Throw PaymentService.PollTimeout ∧
   data run.2 = data st ∧ sleeps run.2 = sleeps st).
Proof.
  intros n run. subst run. unfold PaymentService.pollPaymentStatus.
  fold n. split.
  - by apply poll_loop_waited.
  - intros Hn. replace (Z.to_nat n) with 0%nat by lia. by cbn.
Qed.

(** ** The overlap query of the two versions of [create] *)

(** The [NOT] clause the current version of [create] adds to the overlap
    query excludes no row: a row whose status is PENDING or CONFIRMED is
    not CANCELLED nor COMPLETED. Both versions of the query select the same
    rows, so they find an overlapping booking in the same states. *)
Theorem overlap_query_versions_agree spotId s e :
  (∀ b, overlap_where_v1 spotId s e b ↔ overlap_where spotId s e b) ∧
  (∀ m : gmap string Booking,
     findFirst (overlap_where_v1 spotId s e) m
     = findFirst (overlap_where spotId s e) m).
Proof.
  assert (∀ b, overlap_where_v1 spotId s e b ↔ overlap_where spotId s e b)
    as Hiff.
  { intros b. unfold overlap_where_v1, overlap_where, status_in.
    rewrite !elem_of_cons, !elem_of_nil.
    destruct (b_status b); intuition congruence. }
  split; [done|]. intros m. unfold findFirst. f_equal. f_equal.
  apply map_filter_ext. intros id b _. apply Hiff.
Qed.
